(** * RF Link Planner: geometry engine and tower/link registry

    A shallow embedding of [app.js].  The file holds two copies of the
    application: the current one (confirmation modals, lines 1-828) and
    an older one (native dialogs, lines 829-1407), embedded here as the
    top level and as [Module Legacy] respectively.

    Numbers.  A JavaScript number is modelled as a real number of [R]:
    [+ - * /], [Math.sqrt], [Math.sin], [Math.cos] are the exact
    operations, [Math.PI] is [PI], [Math.atan2] and [%] are written out
    below.  Rounding, [NaN], infinities (division by zero, the square
    root of a negative number, an unparsable input) and signed zeros
    of IEEE-754 doubles are outside this model.  A statement about a
    computed value is therefore a statement of exact arithmetic; the
    code's double is that value up to rounding, and the statements
    that use more than the code's own order of operations say that
    they are over the reals.  One step is followed in doubles as
    well, in [Module Double]: the range normalisation of the bearing.
    Identifiers ([id] fields and the two counters) are natural
    numbers. *)

From Stdlib Require Import Floats.
From Stdlib Require Import Reals Lra Lia List Bool Arith ZArith String.
Import ListNotations.

Local Open Scope R_scope.

(** ** Library functions of the host language *)

Module Math.

(** [Math.atan2(y, x)]: the angle of the point [(x, y)], in
    [(-PI, PI]]; [0] at the origin. *)
Definition atan2 (y x : R) : R :=
  if Rlt_dec 0 x then atan (y / x)
  else if Rlt_dec x 0 then
    if Rle_dec 0 y then atan (y / x) + PI else atan (y / x) - PI
  else if Rlt_dec 0 y then PI / 2
  else if Rlt_dec y 0 then - (PI / 2)
  else 0.

(** The integer part of a quotient, rounded towards zero. *)
Definition trunc (x : R) : Z :=
  if Rle_dec 0 x then Int_part x else (- Int_part (- x))%Z.

(** [a % n]: the remainder of the truncated division; it has the
    sign of the dividend [a]. *)
Definition rem (a n : R) : R := a - n * IZR (trunc (a / n)).

End Math.

(** The same two steps on IEEE-754 doubles, as the engine computes
    them. *)
Module Double.

(** [a % n] on doubles: the remainder of the truncated division of the
    two exact values, which is a double again; [NaN] for an infinite
    [a] and for [n = 0]. *)
Definition rem (a n : PrimFloat.float) : PrimFloat.float :=
  match Prim2SF a, Prim2SF n with
  | S754_nan, _ | _, S754_nan => PrimFloat.nan
  | S754_infinity _, _ => PrimFloat.nan
  | _, S754_zero _ => PrimFloat.nan
  | S754_zero _, _ => a
  | S754_finite _ _ _, S754_infinity _ => a
  | S754_finite sa ma ea, S754_finite _ mn en =>
      let e := Z.min ea en in
      let r := Z.rem (Z.pos ma * 2 ^ (ea - e)) (Z.pos mn * 2 ^ (en - e)) in
      SF2Prim (binary_normalize prec emax (if sa then (- r)%Z else r) e sa)
  end.

(** The [return] expression of [calculateBearing] (app.js 473),
    [(degrees + 360) % 360], where [degrees] is the double
    [toDegrees(bearing)]: the value the older copy returns as it is
    (app.js 1250), both copies having computed it by the same
    operations. *)
Definition normalizeDegrees (degrees : PrimFloat.float) : PrimFloat.float :=
  rem (degrees + 360)%float 360%float.

End Double.

(** ** Constants (app.js 23-24) *)

Definition SPEED_OF_LIGHT : R := 3e8.
Definition DEFAULT_FREQUENCY : R := 5.0.

(** ** Calculation functions (app.js 429-482) *)

Definition toRadians (degrees : R) : R := degrees * PI / 180.

Definition toDegrees (radians : R) : R := radians * 180 / PI.

Definition calculateWavelength (frequencyGHz : R) : R :=
  let frequencyHz := frequencyGHz * 1e9 in
  SPEED_OF_LIGHT / frequencyHz.

(** For [d1 + d2 = 0] and for a negative radicand the code's result is
    [NaN] (and the wavelength of frequency [0] is [Infinity]), where
    the division and the square root of [R] give [0]: the statements
    are made for positive frequencies and distances. *)
Definition calculateFresnelRadius (wavelength d1 d2 : R) : R :=
  let d1Meters := d1 * 1000 in
  let d2Meters := d2 * 1000 in
  let radius := sqrt ((wavelength * d1Meters * d2Meters) / (d1Meters + d2Meters)) in
  radius.

(** In exact arithmetic the term [a] stays in [[0, 1]].  In doubles it
    can exceed [1] by rounding when the two points are antipodal, and
    [Math.sqrt(1 - a)] is then [NaN]. *)
Definition calculateDistance (lat1 lon1 lat2 lon2 : R) : R :=
  let R := 6371 in
  let dLat := toRadians (lat2 - lat1) in
  let dLon := toRadians (lon2 - lon1) in
  let a := sin (dLat / 2) * sin (dLat / 2) +
           cos (toRadians lat1) * cos (toRadians lat2) *
           sin (dLon / 2) * sin (dLon / 2) in
  let c := 2 * Math.atan2 (sqrt a) (sqrt (1 - a)) in
  R * c.

(** The last line is an exact sum and remainder here.  In doubles the
    sum is rounded ([Double.normalizeDegrees]); and [Math.sin(Math.PI)]
    is not [0] there, so that for two points of the equator 180
    degrees apart the code answers 90 where [sin PI = 0] gives [0]. *)
Definition calculateBearing (lat1 lon1 lat2 lon2 : R) : R :=
  let lat1Rad := toRadians lat1 in
  let lat2Rad := toRadians lat2 in
  let lonDiffRad := toRadians (lon2 - lon1) in
  let y := sin lonDiffRad * cos lat2Rad in
  let x := cos lat1Rad * sin lat2Rad -
           sin lat1Rad * cos lat2Rad * cos lonDiffRad in
  let bearing := Math.atan2 y x in
  Math.rem (toDegrees bearing + 360) 360.

(** The older copy of the bearing computation (app.js 1243-1251). *)
Module Legacy.

Definition calculateBearing (lat1 lon1 lat2 lon2 : R) : R :=
  let dLon := toRadians (lon2 - lon1) in
  let y := sin dLon * cos (toRadians lat2) in
  let x := cos (toRadians lat1) * sin (toRadians lat2) -
           sin (toRadians lat1) * cos (toRadians lat2) * cos dLon in
  let bearing := Math.atan2 y x in
  toDegrees bearing.

End Legacy.

(** ** Application state (app.js 7-18)

    Tower objects are shared: [state.towers], [state.selectedTowers]
    and the [tower1]/[tower2] fields of links all point to the same
    objects, and [updateTowerFrequency] mutates them in place.  The
    objects therefore live in a store ([heap]) and everything else
    holds references.  [addTower] is the only allocator and gives each
    object a fresh [id], so a reference is that [id], and the
    comparison [t.id === tower.id] of the source is the comparison of
    two references. *)

Inductive Mode := Mode_addTower | Mode_addLink.

Record LatLng := mkLatLng { latlng_lat : R; latlng_lng : R }.

(** A Leaflet marker: its [divIcon] class and the data shown by its
    popup ([<strong>name</strong><br>Frequency: f GHz]). *)
Inductive Icon := icon_tower_marker | icon_tower_marker_selected.

Record Marker := mkMarker {
  marker_icon : Icon;
  marker_popup : string * R
}.

Record Tower := mkTower {
  tower_id : nat;
  tower_name : string;
  tower_frequency : R;
  tower_lat : R;
  tower_lng : R;
  tower_marker : Marker
}.

(** Polyline colours: [#3b82f6] and [#16a34a]. *)
Inductive Color := primary_color | success_color.

(** The polygon built by [createEllipsePolygon], kept as the arguments
    it is built from; its vertices come from the map's projection. *)
Record Polygon := mkPolygon {
  polygon_center : R * R;
  polygon_semiMajor : R;
  polygon_semiMinor : R;
  polygon_bearing : R
}.

Record Link := mkLink {
  link_id : nat;
  link_tower1 : nat;
  link_tower2 : nat;
  link_frequency : R;
  link_distance : R;
  link_polyline : Color;
  link_fresnelZone : option Polygon
}.

(** What the Leaflet map displays.  A layer is named by the object
    that owns it: the marker of a tower, the polyline of a link, the
    Fresnel polygon of a link. *)
Inductive Layer :=
| MarkerLayer (tower : nat)
| PolylineLayer (link : nat)
| ZoneLayer (link : nat).

(** Messages handed to [showNotification], all of type ['error']. *)
Inductive Notification :=
| InvalidTowerDetails
| FrequencyMismatch (f1 f2 : R)
| LinkAlreadyExists.

(** The [onConfirm] closures passed to [showConfirmationModal]. *)
Inductive ConfirmCallback :=
| cb_deleteTower (towerId : nat)
| cb_deleteLink (linkId : nat)
| cb_removeInvalidLinks (invalidLinks : list nat).

(** The handlers wired to the two buttons of the confirmation modal
    while it is shown. *)
Record ConfirmModal := mkConfirmModal {
  modal_onConfirm : ConfirmCallback;
  modal_returnPromise : bool
}.

(** [state.confirmAction = { resolve }]: the suspended remainder of
    [updateTowerFrequency] for the given tower. *)
Inductive Resolver := resolve_updateTowerFrequency (towerId : nat).

Record State := mkState {
  mode : Mode;
  towers : list nat;
  links : list Link;
  selectedTowers : list nat;
  mapLayers : list Layer;
  towerIdCounter : nat;
  linkIdCounter : nat;
  pendingTowerLocation : option LatLng;
  activeLinkForFresnel : option nat;
  confirmAction : option Resolver;
  (* outside the [state] object *)
  heap : list Tower;
  confirmModal : option ConfirmModal;
  notifications : list Notification
}.

Definition initialState : State :=
  mkState Mode_addTower [] [] [] [] 1%nat 1%nat None None None [] None [].

(** *** Field updates *)

Definition set_mode (v : Mode) (st : State) : State :=
  mkState v (towers st) (links st) (selectedTowers st) (mapLayers st)
    (towerIdCounter st) (linkIdCounter st) (pendingTowerLocation st)
    (activeLinkForFresnel st) (confirmAction st) (heap st) (confirmModal st)
    (notifications st).

Definition set_towers (v : list nat) (st : State) : State :=
  mkState (mode st) v (links st) (selectedTowers st) (mapLayers st)
    (towerIdCounter st) (linkIdCounter st) (pendingTowerLocation st)
    (activeLinkForFresnel st) (confirmAction st) (heap st) (confirmModal st)
    (notifications st).

Definition set_links (v : list Link) (st : State) : State :=
  mkState (mode st) (towers st) v (selectedTowers st) (mapLayers st)
    (towerIdCounter st) (linkIdCounter st) (pendingTowerLocation st)
    (activeLinkForFresnel st) (confirmAction st) (heap st) (confirmModal st)
    (notifications st).

Definition set_selectedTowers (v : list nat) (st : State) : State :=
  mkState (mode st) (towers st) (links st) v (mapLayers st)
    (towerIdCounter st) (linkIdCounter st) (pendingTowerLocation st)
    (activeLinkForFresnel st) (confirmAction st) (heap st) (confirmModal st)
    (notifications st).

Definition set_mapLayers (v : list Layer) (st : State) : State :=
  mkState (mode st) (towers st) (links st) (selectedTowers st) v
    (towerIdCounter st) (linkIdCounter st) (pendingTowerLocation st)
    (activeLinkForFresnel st) (confirmAction st) (heap st) (confirmModal st)
    (notifications st).

Definition set_towerIdCounter (v : nat) (st : State) : State :=
  mkState (mode st) (towers st) (links st) (selectedTowers st) (mapLayers st)
    v (linkIdCounter st) (pendingTowerLocation st)
    (activeLinkForFresnel st) (confirmAction st) (heap st) (confirmModal st)
    (notifications st).

Definition set_linkIdCounter (v : nat) (st : State) : State :=
  mkState (mode st) (towers st) (links st) (selectedTowers st) (mapLayers st)
    (towerIdCounter st) v (pendingTowerLocation st)
    (activeLinkForFresnel st) (confirmAction st) (heap st) (confirmModal st)
    (notifications st).

Definition set_pendingTowerLocation (v : option LatLng) (st : State) : State :=
  mkState (mode st) (towers st) (links st) (selectedTowers st) (mapLayers st)
    (towerIdCounter st) (linkIdCounter st) v
    (activeLinkForFresnel st) (confirmAction st) (heap st) (confirmModal st)
    (notifications st).

Definition set_activeLinkForFresnel (v : option nat) (st : State) : State :=
  mkState (mode st) (towers st) (links st) (selectedTowers st) (mapLayers st)
    (towerIdCounter st) (linkIdCounter st) (pendingTowerLocation st)
    v (confirmAction st) (heap st) (confirmModal st)
    (notifications st).

Definition set_confirmAction (v : option Resolver) (st : State) : State :=
  mkState (mode st) (towers st) (links st) (selectedTowers st) (mapLayers st)
    (towerIdCounter st) (linkIdCounter st) (pendingTowerLocation st)
    (activeLinkForFresnel st) v (heap st) (confirmModal st)
    (notifications st).

Definition set_heap (v : list Tower) (st : State) : State :=
  mkState (mode st) (towers st) (links st) (selectedTowers st) (mapLayers st)
    (towerIdCounter st) (linkIdCounter st) (pendingTowerLocation st)
    (activeLinkForFresnel st) (confirmAction st) v (confirmModal st)
    (notifications st).

Definition set_confirmModal (v : option ConfirmModal) (st : State) : State :=
  mkState (mode st) (towers st) (links st) (selectedTowers st) (mapLayers st)
    (towerIdCounter st) (linkIdCounter st) (pendingTowerLocation st)
    (activeLinkForFresnel st) (confirmAction st) (heap st) v
    (notifications st).

Definition set_notifications (v : list Notification) (st : State) : State :=
  mkState (mode st) (towers st) (links st) (selectedTowers st) (mapLayers st)
    (towerIdCounter st) (linkIdCounter st) (pendingTowerLocation st)
    (activeLinkForFresnel st) (confirmAction st) (heap st) (confirmModal st)
    v.

(** ** Helpers for the host language *)

(** [x === y] and [x <= y] on numbers. *)
Definition strictEq (x y : R) : bool := if Req_EM_T x y then true else false.
Definition numLe (x y : R) : bool := if Rle_dec x y then true else false.

(** Truthiness of a string and of a number. *)
Definition truthyString (s : string) : bool :=
  match s with EmptyString => false | _ => true end.
Definition truthyNumber (x : R) : bool := negb (strictEq x 0).

(** [Array.prototype.findIndex], with [None] for [-1]. *)
Fixpoint findIndex {A : Type} (p : A -> bool) (l : list A) : option nat :=
  match l with
  | [] => None
  | x :: l' => if p x then Some 0%nat else option_map S (findIndex p l')
  end.

(** [array.splice(index, 1)]. *)
Fixpoint splice1 {A : Type} (index : nat) (l : list A) : list A :=
  match l, index with
  | [], _ => []
  | _ :: l', O => l'
  | x :: l', S i => x :: splice1 i l'
  end.

Definition optNatEq (o : option nat) (n : nat) : bool :=
  match o with Some m => Nat.eqb m n | None => false end.

Definition layerEq (a b : Layer) : bool :=
  match a, b with
  | MarkerLayer x, MarkerLayer y => Nat.eqb x y
  | PolylineLayer x, PolylineLayer y => Nat.eqb x y
  | ZoneLayer x, ZoneLayer y => Nat.eqb x y
  | _, _ => false
  end.

(** ** The tower store *)

Definition nullTower : Tower :=
  mkTower 0 EmptyString 0 0 0 (mkMarker icon_tower_marker (EmptyString, 0)).

(** Dereference.  Every reference the application holds was allocated
    by [addTower]; [nullTower] stands for a reference that was not. *)
Definition deref (st : State) (ref : nat) : Tower :=
  match find (fun t => Nat.eqb (tower_id t) ref) (heap st) with
  | Some t => t
  | None => nullTower
  end.

(** In-place mutation of the first element that satisfies [p]: the
    object a [find] with the same test returns. *)
Fixpoint mutateFirst {A : Type} (p : A -> bool) (f : A -> A) (l : list A)
  : list A :=
  match l with
  | [] => []
  | x :: l' => if p x then f x :: l' else x :: mutateFirst p f l'
  end.

(** In-place mutation of the object behind [ref]. *)
Definition mutate (ref : nat) (f : Tower -> Tower) (st : State) : State :=
  set_heap (mutateFirst (fun t => Nat.eqb (tower_id t) ref) f (heap st)) st.

Definition with_frequency (v : R) (t : Tower) : Tower :=
  mkTower (tower_id t) (tower_name t) v (tower_lat t) (tower_lng t)
    (tower_marker t).

Definition with_marker (m : Marker) (t : Tower) : Tower :=
  mkTower (tower_id t) (tower_name t) (tower_frequency t) (tower_lat t)
    (tower_lng t) m.

(** [tower.marker.setIcon(...)] and [tower.marker.setPopupContent(...)]. *)
Definition setIcon (ref : nat) (i : Icon) (st : State) : State :=
  mutate ref
    (fun t => with_marker (mkMarker i (marker_popup (tower_marker t))) t) st.

Definition setPopupContent (ref : nat) (content : string * R) (st : State)
  : State :=
  mutate ref
    (fun t => with_marker (mkMarker (marker_icon (tower_marker t)) content) t)
    st.

(** In-place mutation of the link object found by [l.id === id]. *)
Definition mutateLink (id : nat) (f : Link -> Link) (st : State) : State :=
  set_links (mutateFirst (fun l => Nat.eqb (link_id l) id) f (links st)) st.

Definition with_polyline (c : Color) (l : Link) : Link :=
  mkLink (link_id l) (link_tower1 l) (link_tower2 l) (link_frequency l)
    (link_distance l) c (link_fresnelZone l).

Definition with_fresnelZone (z : option Polygon) (l : Link) : Link :=
  mkLink (link_id l) (link_tower1 l) (link_tower2 l) (link_frequency l)
    (link_distance l) (link_polyline l) z.

(** [layer.addTo(state.map)] and [state.map.removeLayer(layer)]. *)
Definition addTo (layer : Layer) (st : State) : State :=
  set_mapLayers (mapLayers st ++ [layer]) st.

Definition removeLayer (layer : Layer) (st : State) : State :=
  set_mapLayers (filter (fun x => negb (layerEq x layer)) (mapLayers st)) st.

(** [showNotification(message, 'error')] (app.js 579-599). *)
Definition showNotification (message : Notification) (st : State) : State :=
  set_notifications (notifications st ++ [message]) st.

(** [updateTowerList] and [updateLinkList] (app.js 604-686) rewrite the
    side panel from the state and change nothing in it. *)
Definition updateTowerList (st : State) : State := st.
Definition updateLinkList (st : State) : State := st.

(** ** Tower placement (app.js 46-121) *)

Definition handleMapClick (latlng : LatLng) (st : State) : State :=
  match mode st with
  | Mode_addTower => set_pendingTowerLocation (Some latlng) st
  | Mode_addLink => st
  end.

Definition hideTowerModal (st : State) : State :=
  set_pendingTowerLocation None st.

Definition addTower (latlng : LatLng) (name : string) (frequency : R)
  (st : State) : State :=
  let id := towerIdCounter st in
  let st := set_towerIdCounter (S id) st in
  let marker := mkMarker icon_tower_marker (name, frequency) in
  let st := addTo (MarkerLayer id) st in
  let tower :=
    mkTower id name frequency (latlng_lat latlng) (latlng_lng latlng) marker in
  let st := set_heap (heap st ++ [tower]) st in
  let st := set_towers (towers st ++ [id]) st in
  updateTowerList st.

(** [name] and [frequency] are the values of the two inputs of the
    tower form, the second one after [parseFloat]. *)
Definition saveTower (name : string) (frequency : R) (st : State) : State :=
  if negb (truthyString name) || negb (truthyNumber frequency)
     || numLe frequency 0
  then showNotification InvalidTowerDetails st
  else
    match pendingTowerLocation st with
    | Some latlng => hideTowerModal (addTower latlng name frequency st)
    | None => st
    end.

(** ** Link creation (app.js 123-221) *)

Definition clearTowerSelection (st : State) : State :=
  let st :=
    fold_left (fun st tower => setIcon tower icon_tower_marker st)
      (selectedTowers st) st in
  let st := set_selectedTowers [] st in
  updateTowerList st.

Definition createLink (tower1 tower2 : nat) (st : State) : State :=
  let exists_ :=
    existsb (fun link =>
      (Nat.eqb (link_tower1 link) tower1 && Nat.eqb (link_tower2 link) tower2)
      || (Nat.eqb (link_tower1 link) tower2 && Nat.eqb (link_tower2 link) tower1))
      (links st) in
  if exists_ then showNotification LinkAlreadyExists st
  else
    let id := linkIdCounter st in
    let st := set_linkIdCounter (S id) st in
    let distance :=
      calculateDistance
        (tower_lat (deref st tower1)) (tower_lng (deref st tower1))
        (tower_lat (deref st tower2)) (tower_lng (deref st tower2)) in
    let st := addTo (PolylineLayer id) st in
    let link :=
      mkLink id tower1 tower2 (tower_frequency (deref st tower1)) distance
        primary_color None in
    let st := set_links (links st ++ [link]) st in
    updateLinkList st.

Definition handleTowerClickForLink (tower : nat) (st : State) : State :=
  let index := findIndex (fun t => Nat.eqb t tower) (selectedTowers st) in
  let st :=
    match index with
    | Some i =>
        let st := set_selectedTowers (splice1 i (selectedTowers st)) st in
        setIcon tower icon_tower_marker st
    | None =>
        let st := set_selectedTowers (selectedTowers st ++ [tower]) st in
        setIcon tower icon_tower_marker_selected st
    end in
  match selectedTowers st with
  | [tower1; tower2] =>
      let f1 := tower_frequency (deref st tower1) in
      let f2 := tower_frequency (deref st tower2) in
      if negb (strictEq f1 f2)
      then clearTowerSelection (showNotification (FrequencyMismatch f1 f2) st)
      else clearTowerSelection (createLink tower1 tower2 st)
  | _ => updateTowerList st
  end.

(** ** Deletion (app.js 223-301, 813-825) *)

Definition performDeleteLink (linkId : nat) (st : State) : State :=
  match findIndex (fun l => Nat.eqb (link_id l) linkId) (links st) with
  | None => st
  | Some linkIndex =>
      match nth_error (links st) linkIndex with
      | None => st
      | Some link =>
          let st := removeLayer (PolylineLayer (link_id link)) st in
          let st :=
            match link_fresnelZone link with
            | Some _ => removeLayer (ZoneLayer (link_id link)) st
            | None => st
            end in
          let st := set_links (splice1 linkIndex (links st)) st in
          let st :=
            if optNatEq (activeLinkForFresnel st) linkId
            then set_activeLinkForFresnel None st
            else st in
          updateLinkList st
      end
  end.

Definition performDeleteTower (towerId : nat) (st : State) : State :=
  match findIndex (fun t => Nat.eqb t towerId) (towers st) with
  | None => st
  | Some towerIndex =>
      match nth_error (towers st) towerIndex with
      | None => st
      | Some tower =>
          let linksToRemove :=
            filter (fun link =>
              Nat.eqb (link_tower1 link) towerId
              || Nat.eqb (link_tower2 link) towerId) (links st) in
          let st :=
            fold_left (fun st link => performDeleteLink (link_id link) st)
              linksToRemove st in
          let st := removeLayer (MarkerLayer tower) st in
          let st := set_towers (splice1 towerIndex (towers st)) st in
          updateLinkList (updateTowerList st)
      end
  end.

(** ** Confirmation modal (app.js 511-559) *)

Definition hideConfirmationModal (st : State) : State :=
  set_confirmAction None (set_confirmModal None st).

(** [returnPromise] is [Some k] when the caller awaits the returned
    promise, [k] being what runs once it is resolved. *)
Definition showConfirmationModal (onConfirm : ConfirmCallback)
  (returnPromise : option Resolver) (st : State) : State :=
  let st :=
    set_confirmModal
      (Some (mkConfirmModal onConfirm
               (match returnPromise with Some _ => true | None => false end)))
      st in
  match returnPromise with
  | Some resolve => set_confirmAction (Some resolve) st
  | None => st
  end.

Definition requestDeleteTower (towerId : nat) (st : State) : State :=
  match find (fun t => Nat.eqb t towerId) (towers st) with
  | None => st
  | Some _ => showConfirmationModal (cb_deleteTower towerId) None st
  end.

(** [window.deleteLink] (app.js 813-825), which replaces the function
    declared at app.js 256. *)
Definition deleteLink (linkId : nat) (skipConfirm : bool) (st : State)
  : State :=
  match find (fun l => Nat.eqb (link_id l) linkId) (links st) with
  | None => st
  | Some link =>
      if skipConfirm then performDeleteLink linkId st
      else showConfirmationModal (cb_deleteLink linkId) None st
  end.

(** ** Fresnel zone (app.js 339-424, 484-506)

    A link object is reached through [state.links]; the functions
    below take its [id].

    The list item of a link calls [showFresnelZone] with
    [state.links.find(l => l.id === id)] (app.js 668).  For an id that
    is not in [state.links] the argument is [undefined] and the first
    line, [link.id], throws a [TypeError] before anything is written:
    the handler ends there, which is the branch [None] below.

    The polygon is built from the frequency and the distance of the
    link.  For a frequency that is not positive or a distance of [0]
    the radius the code computes is [NaN] or [Infinity], and what the
    map library does with such points is not in [app.js]: the
    statements about the polygon are made for a positive frequency and
    a positive distance. *)

Definition deactivateActiveFresnelZone (st : State) : State :=
  let prevLink :=
    find (fun l => optNatEq (activeLinkForFresnel st) (link_id l)) (links st) in
  let st :=
    match prevLink with
    | Some prev =>
        match link_fresnelZone prev with
        | Some _ =>
            let st := removeLayer (ZoneLayer (link_id prev)) st in
            let st := mutateLink (link_id prev) (with_polyline primary_color) st in
            mutateLink (link_id prev) (with_fresnelZone None) st
        | None => st
        end
    | None => st
    end in
  let st := set_activeLinkForFresnel None st in
  updateLinkList st.

Definition createEllipsePolygon (center : R * R) (semiMajor semiMinor bearing : R)
  : Polygon :=
  mkPolygon center semiMajor semiMinor bearing.

Definition showFresnelZone (linkId : nat) (st : State) : State :=
  match find (fun l => Nat.eqb (link_id l) linkId) (links st) with
  | None => st
  | Some link =>
      if optNatEq (activeLinkForFresnel st) (link_id link)
      then deactivateActiveFresnelZone st
      else
        let st :=
          match activeLinkForFresnel st with
          | Some _ => deactivateActiveFresnelZone st
          | None => st
          end in
        let st := set_activeLinkForFresnel (Some (link_id link)) st in
        let wavelength := calculateWavelength (link_frequency link) in
        let distance := link_distance link in
        let d1 := distance / 2 in
        let d2 := distance / 2 in
        let maxRadius := calculateFresnelRadius wavelength d1 d2 in
        let tower1 := deref st (link_tower1 link) in
        let tower2 := deref st (link_tower2 link) in
        let center :=
          ((tower_lat tower1 + tower_lat tower2) / 2,
           (tower_lng tower1 + tower_lng tower2) / 2) in
        let bearing :=
          calculateBearing (tower_lat tower1) (tower_lng tower1)
            (tower_lat tower2) (tower_lng tower2) in
        let fresnelZone :=
          createEllipsePolygon center (distance * 1000 / 2) maxRadius bearing in
        let st := addTo (ZoneLayer (link_id link)) st in
        let st := mutateLink (link_id link) (with_polyline success_color) st in
        let st :=
          mutateLink (link_id link) (with_fresnelZone (Some fresnelZone)) st in
        updateLinkList st
  end.

(** ** Frequency edit (app.js 303-334)

    [updateTowerFrequency] is an [async] function.  It runs up to its
    [await]; [updateTowerFrequency_resume] is what follows the [await],
    run with the value the promise is resolved with. *)

Definition updateTowerFrequency (towerId : nat) (newFrequency : R) (st : State)
  : State :=
  match find (fun t => Nat.eqb t towerId) (towers st) with
  | None => st
  | Some tower =>
      let st := mutate tower (with_frequency newFrequency) st in
      let st :=
        setPopupContent tower
          (tower_name (deref st tower), tower_frequency (deref st tower)) st in
      let invalidLinks :=
        filter (fun link =>
          (Nat.eqb (link_tower1 link) towerId
           || Nat.eqb (link_tower2 link) towerId)
          && negb (strictEq (tower_frequency (deref st (link_tower1 link)))
                            (tower_frequency (deref st (link_tower2 link)))))
          (links st) in
      if Nat.ltb 0 (List.length invalidLinks)
      then
        showConfirmationModal
          (cb_removeInvalidLinks (List.map link_id invalidLinks))
          (Some (resolve_updateTowerFrequency towerId)) st
      else updateTowerList st
  end.

Definition updateTowerFrequency_resume (towerId : nat) (confirmed : bool)
  (st : State) : State :=
  let st :=
    if negb confirmed then
      let originalFrequency :=
        match find (fun l => Nat.eqb (link_tower1 l) towerId
                             || Nat.eqb (link_tower2 l) towerId) (links st) with
        | Some l =>
            if truthyNumber (link_frequency l) then link_frequency l
            else tower_frequency (deref st towerId)
        | None => tower_frequency (deref st towerId)
        end in
      mutate towerId (with_frequency originalFrequency) st
    else st in
  updateTowerList st.

(** ** The two buttons of the confirmation modal (app.js 521-536)

    The [onConfirm] closure of [requestDeleteTower] (app.js 230-240)
    looks for the list item of the tower.  [updateTowerList] renders
    one [.tower-item] per element of [state.towers], so the item is
    there exactly when the tower is in the collection.  With an item,
    the closure only starts its exit animation and leaves the deletion
    to the item's ['animationend'] listener, the event
    [TowerItemAnimationEnd] below; without one it deletes at once. *)

Definition runCallback (onConfirm : ConfirmCallback) (st : State) : State :=
  match onConfirm with
  | cb_deleteTower towerId =>
      match find (fun t => Nat.eqb t towerId) (towers st) with
      | Some towerItem => st
      | None => performDeleteTower towerId st
      end
  | cb_deleteLink linkId => performDeleteLink linkId st
  | cb_removeInvalidLinks invalidLinks =>
      fold_left (fun st id => performDeleteLink id st) invalidLinks st
  end.

(** [state.confirmAction.resolve(value)].  When [state.confirmAction] is
    [null] the property access throws and the handler ends there. *)
Definition resolve (value : bool) (st : State) : State :=
  match confirmAction st with
  | Some (resolve_updateTowerFrequency towerId) =>
      updateTowerFrequency_resume towerId value st
  | None => st
  end.

Definition handleConfirm (st : State) : State :=
  match confirmModal st with
  | None => st
  | Some m =>
      let st := runCallback (modal_onConfirm m) st in
      let st := hideConfirmationModal st in
      if modal_returnPromise m then resolve true st else st
  end.

Definition handleCancel (st : State) : State :=
  match confirmModal st with
  | None => st
  | Some m =>
      let st := hideConfirmationModal st in
      if modal_returnPromise m then resolve false st else st
  end.

(** ** Mode switch (app.js 688-708) *)

Definition setMode (m : Mode) (st : State) : State :=
  let st := set_mode m st in
  clearTowerSelection st.

(** ** User gestures

    The listeners wired by [setupEventListeners], [addTower],
    [createLink], the two list renderers and the [onConfirm] closure of
    [requestDeleteTower]. *)

Inductive Event :=
| MapClick (latlng : LatLng)
| SaveTowerClick (name : string) (frequency : R)
| CancelTowerClick
| MarkerClick (tower : nat)
| ModeButtonClick (m : Mode)
| LinkClick (linkId : nat)
| DeleteTowerClick (towerId : nat)
| DeleteLinkClick (linkId : nat)
| FrequencyInputChange (towerId : nat) (value : R)
| ConfirmClick
| CancelConfirmClick
| ConfirmBackdropClick
| TowerItemAnimationEnd (towerId : nat).

Definition handleEvent (e : Event) (st : State) : State :=
  match e with
  | MapClick latlng => handleMapClick latlng st
  | SaveTowerClick name frequency => saveTower name frequency st
  | CancelTowerClick => hideTowerModal st
  | MarkerClick tower =>
      if existsb (layerEq (MarkerLayer tower)) (mapLayers st) then
        match mode st with
        | Mode_addLink => handleTowerClickForLink tower st
        | Mode_addTower => st
        end
      else st
  | ModeButtonClick m => setMode m st
  | LinkClick linkId => showFresnelZone linkId st
  | DeleteTowerClick towerId => requestDeleteTower towerId st
  | DeleteLinkClick linkId => deleteLink linkId false st
  | FrequencyInputChange towerId value => updateTowerFrequency towerId value st
  | ConfirmClick => handleConfirm st
  | CancelConfirmClick => handleCancel st
  | ConfirmBackdropClick => hideConfirmationModal st
  | TowerItemAnimationEnd towerId => performDeleteTower towerId st
  end.

(** The states the application can be in: [DOMContentLoaded] calls
    [setMode('addTower')] and every later change is an event.  In the
    browser ['animationend'] reaches the listener of a tower item only
    after a confirmed deletion, and not at all if the list was rendered
    again in between or if the style sheet does not animate the item;
    here [TowerItemAnimationEnd] may come at any moment, so [reachable]
    holds of every state of the application and of some more. *)
Inductive reachable : State -> Prop :=
| reachable_init : reachable (setMode Mode_addTower initialState)
| reachable_step e st : reachable st -> reachable (handleEvent e st).

Definition run (events : list Event) (st : State) : State :=
  fold_left (fun st e => handleEvent e st) events st.

(** ** Observations used by the statements *)

(** The test of [updateLinkList]: [state.activeLinkForFresnel === link.id]. *)
Definition isActive (st : State) (link : Link) : bool :=
  optNatEq (activeLinkForFresnel st) (link_id link).

Definition activeLinks (st : State) : list Link :=
  filter (isActive st) (links st).

(** The test of [performDeleteTower]'s filter. *)
Definition references (towerId : nat) (link : Link) : bool :=
  Nat.eqb (link_tower1 link) towerId || Nat.eqb (link_tower2 link) towerId.

(** Registry invariant 3: both endpoints of every link are in
    [state.towers]. *)
Definition noDangling (st : State) : Prop :=
  forall link, In link (links st) ->
    In (link_tower1 link) (towers st) /\ In (link_tower2 link) (towers st).

(** Registry invariant 1: ids are unique within each collection. *)
Definition uniqueIds (st : State) : Prop :=
  NoDup (towers st) /\ NoDup (List.map link_id (links st)).

(** A link between the unordered pair [{a, b}]. *)
Definition linksPair (a b : nat) (link : Link) : Prop :=
  (link_tower1 link = a /\ link_tower2 link = b) \/
  (link_tower1 link = b /\ link_tower2 link = a).

(** What [clearTowerSelection] leaves alone: everything but the icons
    and the selection. *)
Definition sameRegistry (st st' : State) : Prop :=
  mode st' = mode st /\ towers st' = towers st /\ links st' = links st /\
  mapLayers st' = mapLayers st /\ towerIdCounter st' = towerIdCounter st /\
  linkIdCounter st' = linkIdCounter st /\
  pendingTowerLocation st' = pendingTowerLocation st /\
  activeLinkForFresnel st' = activeLinkForFresnel st /\
  confirmAction st' = confirmAction st /\ confirmModal st' = confirmModal st /\
  notifications st' = notifications st.

(** What [performDeleteLink] owes to a link it removes: its polyline
    and its Fresnel polygon are off the map and it is not the active
    link. *)
Definition cleanedUp (link : Link) (st : State) : Prop :=
  ~ In (PolylineLayer (link_id link)) (mapLayers st)
  /\ (link_fresnelZone link <> None ->
      ~ In (ZoneLayer (link_id link)) (mapLayers st))
  /\ activeLinkForFresnel st <> Some (link_id link).

(** Every link id is below the counter and no id occurs twice. *)
Definition linkIdsFresh (st : State) : Prop :=
  NoDup (List.map link_id (links st))
  /\ Forall (fun id => (id < linkIdCounter st)%nat) (List.map link_id (links st)).

(** The link ids and the counter are the same in both states. *)
Definition sameLinkIds (st st' : State) : Prop :=
  List.map link_id (links st') = List.map link_id (links st)
  /\ linkIdCounter st' = linkIdCounter st.

(** The links and the active-link reference are the same in both
    states. *)
Definition sameLinks (st st' : State) : Prop :=
  links st' = links st
  /\ activeLinkForFresnel st' = activeLinkForFresnel st.

(** [link.fresnelZone] is set. *)
Definition hasZone (link : Link) : bool :=
  match link_fresnelZone link with Some _ => true | None => false end.

(** No link carries a Fresnel polygon. *)
Definition noZones (st : State) : Prop :=
  forall l, In l (links st) -> link_fresnelZone l = None.

(** The per-link polygon and the global reference agree: the active
    link is in the collection, and a link carries a polygon only if it
    is the active link. *)
Definition fresnelConsistent (st : State) : Prop :=
  linkIdsFresh st
  /\ (forall a, activeLinkForFresnel st = Some a ->
        In a (List.map link_id (links st)))
  /\ (forall l, In l (links st) -> link_fresnelZone l <> None ->
        activeLinkForFresnel st = Some (link_id l)).

(** ** Example registries

    Three towers at 5 GHz joined pairwise by links 1 (towers 1, 2),
    2 (towers 1, 3) and 3 (towers 2, 3), in link mode with nothing
    selected; a registry with one unlinked tower; and three towers at
    5, 5 and 5.1 GHz in link mode with tower 1 selected.  Each comes
    with the gestures that lead to it. *)

Definition exampleTower (id : nat) (name : string) (frequency lat lng : R)
  (icon : Icon) : Tower :=
  mkTower id name frequency lat lng (mkMarker icon (name, frequency)).

Definition exampleLink (id tower1 tower2 : nat) (lat1 lng1 lat2 lng2 : R)
  : Link :=
  mkLink id tower1 tower2 5 (calculateDistance lat1 lng1 lat2 lng2)
    primary_color None.

Definition exampleNetwork : State :=
  mkState Mode_addLink [1; 2; 3]%nat
    [exampleLink 1 1 2 40 (-74) 41 (-74);
     exampleLink 2 1 3 40 (-74) 40 (-73);
     exampleLink 3 2 3 41 (-74) 40 (-73)]
    []
    [MarkerLayer 1; MarkerLayer 2; MarkerLayer 3;
     PolylineLayer 1; PolylineLayer 2; PolylineLayer 3]
    4 4 None None None
    [exampleTower 1 "Tower 1"%string 5 40 (-74) icon_tower_marker;
     exampleTower 2 "Tower 2"%string 5 41 (-74) icon_tower_marker;
     exampleTower 3 "Tower 3"%string 5 40 (-73) icon_tower_marker]
    None [].

Definition exampleNetworkEvents : list Event :=
  [MapClick (mkLatLng 40 (-74)); SaveTowerClick "Tower 1"%string 5;
   MapClick (mkLatLng 41 (-74)); SaveTowerClick "Tower 2"%string 5;
   MapClick (mkLatLng 40 (-73)); SaveTowerClick "Tower 3"%string 5;
   ModeButtonClick Mode_addLink;
   MarkerClick 1; MarkerClick 2; MarkerClick 1; MarkerClick 3;
   MarkerClick 2; MarkerClick 3].

Definition exampleOneTower : State :=
  mkState Mode_addTower [1%nat] [] [] [MarkerLayer 1] 2 1 None None None
    [exampleTower 1 "Tower 1"%string 5 40 (-74) icon_tower_marker] None [].

Definition exampleOneTowerEvents : list Event :=
  [MapClick (mkLatLng 40 (-74)); SaveTowerClick "Tower 1"%string 5].

Definition exampleMixed : State :=
  mkState Mode_addLink [1; 2; 3]%nat [] [1%nat]
    [MarkerLayer 1; MarkerLayer 2; MarkerLayer 3]
    4 1 None None None
    [exampleTower 1 "Tower 1"%string 5.0 40 (-74) icon_tower_marker_selected;
     exampleTower 2 "Tower 2"%string 5.0 41 (-74) icon_tower_marker;
     exampleTower 3 "Tower 3"%string 5.1 40 (-73) icon_tower_marker]
    None [].

Definition exampleMixedEvents : list Event :=
  [MapClick (mkLatLng 40 (-74)); SaveTowerClick "Tower 1"%string 5.0;
   MapClick (mkLatLng 41 (-74)); SaveTowerClick "Tower 2"%string 5.0;
   MapClick (mkLatLng 40 (-73)); SaveTowerClick "Tower 3"%string 5.1;
   ModeButtonClick Mode_addLink; MarkerClick 1].

(** Three towers at 5 GHz.  Tower 1 is selected, then deleted (button,
    confirmation, end of the exit animation), then tower 2 is
    clicked. *)
Definition deleteWhileSelectedEvents : list Event :=
  [MapClick (mkLatLng 40 (-74)); SaveTowerClick "Tower 1"%string 5;
   MapClick (mkLatLng 41 (-74)); SaveTowerClick "Tower 2"%string 5;
   MapClick (mkLatLng 40 (-73)); SaveTowerClick "Tower 3"%string 5;
   ModeButtonClick Mode_addLink; MarkerClick 1;
   DeleteTowerClick 1; ConfirmClick; TowerItemAnimationEnd 1; MarkerClick 2].

(** ** The vertices of the Fresnel polygon (app.js 484-506)

    [createEllipsePolygon] samples the ellipse in the plane of the
    map's layer points.  The two conversions of the Leaflet map,
    [state.map.latLngToLayerPoint] and [state.map.layerPointToLatLng],
    are parameters. *)

Section EllipsePolygon.

Variable latLngToLayerPoint : R * R -> R * R.
Variable layerPointToLatLng : R * R -> R * R.

(** The body of the loop: the layer point computed for index [i], in
    exact arithmetic. *)
Definition ellipseLayerPoint (centerPt : R * R)
  (semiMajor semiMinor bearing : R) (points i : nat) : R * R :=
  let bearingRad := toRadians (- bearing) in
  let angle := (INR i / INR points) * 2 * PI in
  let x := semiMinor * cos angle in
  let y := semiMajor * sin angle in
  let rotatedX := fst centerPt + x * cos bearingRad - y * sin bearingRad in
  let rotatedY := snd centerPt + x * sin bearingRad + y * cos bearingRad in
  (rotatedX, rotatedY).

(** The array [latlngs] handed to [L.polygon]. *)
Definition ellipseLatLngs (center : R * R) (semiMajor semiMinor bearing : R)
  (points : nat) : list (R * R) :=
  let centerPt := latLngToLayerPoint center in
  List.map
    (fun i =>
       layerPointToLatLng
         (ellipseLayerPoint centerPt semiMajor semiMinor bearing points i))
    (seq 0 points).

End EllipsePolygon.

(** The default of the parameter [points]. *)
Definition DEFAULT_POINTS : nat := 64.

(** ** Further observations *)

(** The test of [updateTowerFrequency]'s filter, read in a given
    state: the link touches the tower and its two endpoints differ in
    frequency. *)
Definition invalidatedBy (towerId : nat) (st : State) (link : Link) : bool :=
  (Nat.eqb (link_tower1 link) towerId || Nat.eqb (link_tower2 link) towerId)
  && negb (strictEq (tower_frequency (deref st (link_tower1 link)))
                    (tower_frequency (deref st (link_tower2 link)))).

(** The reference is to an object of the store. *)
Definition allocated (st : State) (ref : nat) : Prop :=
  In ref (List.map tower_id (heap st)).

(** Everything but the store of tower objects and the confirmation
    modal is the same in both states. *)
Definition sameCollections (st st' : State) : Prop :=
  mode st' = mode st /\ towers st' = towers st /\ links st' = links st /\
  selectedTowers st' = selectedTowers st /\ mapLayers st' = mapLayers st /\
  towerIdCounter st' = towerIdCounter st /\
  linkIdCounter st' = linkIdCounter st /\
  pendingTowerLocation st' = pendingTowerLocation st /\
  activeLinkForFresnel st' = activeLinkForFresnel st /\
  notifications st' = notifications st.

(** The tower object with the unselected icon. *)
Definition unselected (t : Tower) : Tower :=
  with_marker (mkMarker icon_tower_marker (marker_popup (tower_marker t))) t.

(** The link object while its Fresnel zone is shown: what
    [showFresnelZone] writes into it. *)
Definition activated (st : State) (link : Link) : Link :=
  let distance := link_distance link in
  let tower1 := deref st (link_tower1 link) in
  let tower2 := deref st (link_tower2 link) in
  with_fresnelZone
    (Some (mkPolygon
             ((tower_lat tower1 + tower_lat tower2) / 2,
              (tower_lng tower1 + tower_lng tower2) / 2)
             (distance * 1000 / 2)
             (calculateFresnelRadius (calculateWavelength (link_frequency link))
                (distance / 2) (distance / 2))
             (calculateBearing (tower_lat tower1) (tower_lng tower1)
                (tower_lat tower2) (tower_lng tower2))))
    (with_polyline success_color link).

(** What no function writes once [addTower] has built the object:
    id, name and position. *)
Definition fixedPart (t : Tower) : nat * string * (R * R) :=
  (tower_id t, tower_name t, (tower_lat t, tower_lng t)).

(** The tower collection is well formed: every object ever allocated
    has its own id, at least 1 and below the counter, and a non-empty
    name, and [state.towers] lists allocated objects without
    repetition. *)
Definition towersWellFormed (st : State) : Prop :=
  (1 <= towerIdCounter st)%nat
  /\ NoDup (List.map tower_id (heap st))
  /\ Forall (fun t => (1 <= tower_id t < towerIdCounter st)%nat
                      /\ truthyString (tower_name t) = true) (heap st)
  /\ NoDup (towers st)
  /\ incl (towers st) (List.map tower_id (heap st)).

(** The fixed part of the tower objects, the tower collection and its
    counter are the same in both states. *)
Definition sameTowers (st st' : State) : Prop :=
  List.map fixedPart (heap st') = List.map fixedPart (heap st)
  /\ towers st' = towers st
  /\ towerIdCounter st' = towerIdCounter st.

(** No tower object is allocated and the tower collection loses
    elements at most. *)
Definition towersShrink (st st' : State) : Prop :=
  List.map fixedPart (heap st') = List.map fixedPart (heap st)
  /\ towerIdCounter st' = towerIdCounter st
  /\ (forall x, In x (towers st') -> In x (towers st))
  /\ (NoDup (towers st) -> NoDup (towers st')).

(** One tower object is allocated, with the counter as its id and a
    non-empty name. *)
Definition towersGrow (st st' : State) : Prop :=
  exists t,
    heap st' = heap st ++ [t]
    /\ tower_id t = towerIdCounter st
    /\ truthyString (tower_name t) = true
    /\ towerIdCounter st' = S (towerIdCounter st)
    /\ towers st' = towers st ++ [towerIdCounter st].

(** Between [st] and [st'] the counter has not gone back and every id
    of [st'] is one of [st] or at least the counter of [st]. *)
Definition idsNotReused (ids : State -> list nat) (counter : State -> nat)
  (st st' : State) : Prop :=
  (counter st <= counter st')%nat
  /\ (forall id, In id (ids st') -> In id (ids st) \/ (counter st <= id)%nat).

Definition linkIds (st : State) : list nat := List.map link_id (links st).

(** What a layer of the map stands for in the registry. *)
Definition drawn (st : State) (layer : Layer) : Prop :=
  match layer with
  | MarkerLayer id => In id (towers st)
  | PolylineLayer id => In id (linkIds st)
  | ZoneLayer id =>
      exists l, In l (links st) /\ link_id l = id /\ hasZone l = true
  end.

(** The map shows the registry and nothing else: one marker per tower
    of the collection, one polyline per link, one polygon per link that
    carries one, each layer once. *)
Definition layersMirror (st : State) : Prop :=
  NoDup (mapLayers st)
  /\ (forall layer, In layer (mapLayers st) <-> drawn st layer).

(** What no function writes once [createLink] has built the object:
    id, endpoints and distance. *)
Definition linkFixedPart (l : Link) : nat * (nat * nat) * R :=
  (link_id l, (link_tower1 l, link_tower2 l), link_distance l).

(** Tower objects are allocated at the end of the store and keep their
    fixed part. *)
Definition heapGrows (st st' : State) : Prop :=
  exists ext,
    List.map fixedPart (heap st') = List.map fixedPart (heap st) ++ ext.

(** Between two gestures at most one tower is selected, and it is an
    allocated object. *)
Definition selectionOK (st : State) : Prop :=
  (List.length (selectedTowers st) <= 1)%nat
  /\ (forall t, In t (selectedTowers st) -> allocated st t).

(** Every link joins two different allocated towers, carries the
    great-circle distance between them, and is the only link between
    them. *)
Definition linksOK (st : State) : Prop :=
  (forall l, In l (links st) ->
     link_tower1 l <> link_tower2 l
     /\ allocated st (link_tower1 l) /\ allocated st (link_tower2 l)
     /\ link_distance l
        = calculateDistance
            (tower_lat (deref st (link_tower1 l)))
            (tower_lng (deref st (link_tower1 l)))
            (tower_lat (deref st (link_tower2 l)))
            (tower_lng (deref st (link_tower2 l))))
  /\ (forall l1 l2, In l1 (links st) -> In l2 (links st) ->
        linksPair (link_tower1 l1) (link_tower2 l1) l2 ->
        link_id l1 = link_id l2).

(** ** The older copy of the registry (app.js 1050-1127)

    The older copy deletes without asking and asks about a frequency
    change with the blocking dialog [confirm]; [confirmDelete] is the
    answer the user gives when the dialog is shown. *)

Module LegacyRegistry.

Definition deleteLink (linkId : nat) (st : State) : State :=
  match findIndex (fun l => Nat.eqb (link_id l) linkId) (links st) with
  | None => st
  | Some linkIndex =>
      match nth_error (links st) linkIndex with
      | None => st
      | Some link =>
          let st := removeLayer (PolylineLayer (link_id link)) st in
          let st :=
            match link_fresnelZone link with
            | Some _ => removeLayer (ZoneLayer (link_id link)) st
            | None => st
            end in
          let st := set_links (splice1 linkIndex (links st)) st in
          let st :=
            if optNatEq (activeLinkForFresnel st) linkId
            then set_activeLinkForFresnel None st
            else st in
          updateLinkList st
      end
  end.

Definition deleteTower (towerId : nat) (st : State) : State :=
  match findIndex (fun t => Nat.eqb t towerId) (towers st) with
  | None => st
  | Some towerIndex =>
      match nth_error (towers st) towerIndex with
      | None => st
      | Some tower =>
          let linksToRemove :=
            filter (fun link =>
              Nat.eqb (link_tower1 link) towerId
              || Nat.eqb (link_tower2 link) towerId) (links st) in
          let st :=
            fold_left (fun st link => deleteLink (link_id link) st)
              linksToRemove st in
          let st := removeLayer (MarkerLayer tower) st in
          let st := set_towers (splice1 towerIndex (towers st)) st in
          updateTowerList st
      end
  end.

Definition updateTowerFrequency (towerId : nat) (newFrequency : R)
  (confirmDelete : bool) (st : State) : State :=
  match find (fun t => Nat.eqb t towerId) (towers st) with
  | None => st
  | Some tower =>
      let st := mutate tower (with_frequency newFrequency) st in
      let st :=
        setPopupContent tower
          (tower_name (deref st tower), tower_frequency (deref st tower)) st in
      let invalidLinks :=
        filter (fun link =>
          (Nat.eqb (link_tower1 link) towerId
           || Nat.eqb (link_tower2 link) towerId)
          && negb (strictEq (tower_frequency (deref st (link_tower1 link)))
                            (tower_frequency (deref st (link_tower2 link)))))
          (links st) in
      let st :=
        if Nat.ltb 0 (List.length invalidLinks)
        then
          if confirmDelete
          then fold_left (fun st link => deleteLink (link_id link) st)
                 invalidLinks st
          else st
        else st in
      updateTowerList st
  end.

End LegacyRegistry.

(** * Properties of the geometry engine *)

(** [Math.atan2] returns an angle of [(-PI, PI]]. *)
Lemma atan2_bounds (y x : R) : - PI < Math.atan2 y x <= PI.
Proof.
  pose proof PI_RGT_0 as Hpi.
  unfold Math.atan2.
  destruct (Rlt_dec 0 x) as [Hx | Hx].
  - pose proof (atan_bound (y / x)). lra.
  - destruct (Rlt_dec x 0) as [Hx' | Hx'].
    + assert (Hinv : / x < 0) by now apply Rinv_lt_0_compat.
      destruct (Rle_dec 0 y) as [Hy | Hy].
      * assert (Hq : y / x <= 0) by (unfold Rdiv; nra).
        pose proof (atan_bound (y / x)) as Hb.
        assert (atan (y / x) <= 0).
        { destruct Hq as [Hq | Hq].
          - left. rewrite <- atan_0. now apply atan_increasing.
          - rewrite Hq, atan_0. lra. }
        lra.
      * assert (Hq : 0 < y / x) by (unfold Rdiv; nra).
        pose proof (atan_bound (y / x)) as Hb.
        assert (0 < atan (y / x)).
        { rewrite <- atan_0. now apply atan_increasing. }
        lra.
    + destruct (Rlt_dec 0 y); [lra |].
      destruct (Rlt_dec y 0); lra.
Qed.


Lemma hypot_factor (y x : R) :
  x <> 0 -> sqrt (x * x + y * y) = Rabs x * sqrt (1 + (y / x)²).
Proof.
  intros Hx.
  replace (x * x + y * y) with (x² * (1 + (y / x)²))
    by (unfold Rsqr; field; assumption).
  rewrite sqrt_mult_alt by apply Rle_0_sqr.
  now rewrite sqrt_Rsqr_abs.
Qed.

(** [Math.atan2 y x] is the polar angle of the point [(x, y)]. *)
Lemma atan2_polar (y x : R) :
  x <> 0 \/ y <> 0 ->
  sqrt (x * x + y * y) * cos (Math.atan2 y x) = x
  /\ sqrt (x * x + y * y) * sin (Math.atan2 y x) = y.
Proof.
  intros Hxy. unfold Math.atan2.
  assert (Hs : forall t, 0 < sqrt (1 + t²)).
  { intros t. apply sqrt_lt_R0. pose proof (Rle_0_sqr t). lra. }
  destruct (Rlt_dec 0 x) as [Hpos | Hnpos].
  - rewrite hypot_factor by lra. rewrite Rabs_right by lra.
    rewrite cos_atan, sin_atan. pose proof (Hs (y / x)).
    split; field; lra.
  - destruct (Rlt_dec x 0) as [Hneg | Hnneg].
    + rewrite hypot_factor by lra. rewrite Rabs_left by lra.
      pose proof (Hs (y / x)).
      destruct (Rle_dec 0 y).
      * rewrite neg_cos, neg_sin, cos_atan, sin_atan. split; field; lra.
      * rewrite cos_minus, sin_minus, cos_PI, sin_PI, cos_atan, sin_atan.
        split; field; lra.
    + assert (Hx0 : x = 0) by lra. subst x.
      replace (0 * 0 + y * y) with (y * y) by ring.
      destruct (Rlt_dec 0 y) as [Hy | Hy].
      * rewrite sqrt_square by lra. rewrite cos_PI2, sin_PI2. split; ring.
      * destruct (Rlt_dec y 0) as [Hy' | Hy']; [| lra].
        replace (y * y) with (- y * - y) by ring.
        rewrite sqrt_square by lra.
        rewrite cos_neg, sin_neg, cos_PI2, sin_PI2. split; ring.
Qed.

(** [%] on two sample dividends: the result takes the sign of the
    dividend. *)
Lemma rem_examples : Math.rem 370 360 = 10 /\ Math.rem (-10) 360 = -10.
Proof.
  unfold Math.rem, Math.trunc. split.
  - destruct (Rle_dec 0 (370 / 360)); [| lra].
    rewrite <- (Int_part_spec (370 / 360) 1%Z) by (simpl; lra). simpl. lra.
  - destruct (Rle_dec 0 (-10 / 360)); [lra |].
    rewrite <- (Int_part_spec (- (-10 / 360)) 0%Z) by (simpl; lra). simpl. lra.
Qed.

Lemma trunc_nonneg (x : R) : 0 <= x -> Math.trunc x = Int_part x.
Proof.
  intros Hx. unfold Math.trunc. destruct (Rle_dec 0 x); [reflexivity | contradiction].
Qed.

(** The remainder of a non-negative dividend lies in [[0, n)]. *)
Lemma rem_range (a n : R) : 0 <= a -> 0 < n -> 0 <= Math.rem a n < n.
Proof.
  intros Ha Hn. unfold Math.rem.
  assert (Hq : 0 <= a / n).
  { unfold Rdiv. apply Rmult_le_pos; [assumption |].
    left. now apply Rinv_0_lt_compat. }
  rewrite (trunc_nonneg _ Hq).
  destruct (base_Int_part (a / n)) as [Hlo Hhi].
  assert (Han : a = n * (a / n)) by (field; lra).
  set (k := IZR (Int_part (a / n))) in *.
  set (q := a / n) in *.
  split; nra.
Qed.

(** Between [n] and [2n] the remainder subtracts [n] once. *)
Lemma rem_first_period (a n : R) : 0 < n -> 0 <= a < n -> Math.rem a n = a.
Proof.
  intros Hn [Hlo Hhi]. unfold Math.rem.
  assert (Hinv : 0 < / n) by now apply Rinv_0_lt_compat.
  assert (Hq : 0 <= a / n < 1).
  { split.
    - unfold Rdiv. apply Rmult_le_pos; lra.
    - apply Rmult_lt_reg_r with n; [assumption |].
      unfold Rdiv. rewrite Rmult_assoc, Rinv_l by lra. lra. }
  rewrite trunc_nonneg by lra.
  rewrite <- (Int_part_spec (a / n) 0%Z) by (simpl; lra).
  simpl. ring.
Qed.

Lemma rem_second_period (a n : R) :
  0 < n -> n <= a < 2 * n -> Math.rem a n = a - n.
Proof.
  intros Hn [Hlo Hhi]. unfold Math.rem.
  assert (Hinv : 0 < / n) by now apply Rinv_0_lt_compat.
  assert (Hq : 1 <= a / n < 2).
  { split.
    - apply Rmult_le_reg_r with n; [assumption |].
      unfold Rdiv. rewrite Rmult_assoc, Rinv_l by lra. lra.
    - apply Rmult_lt_reg_r with n; [assumption |].
      unfold Rdiv. rewrite Rmult_assoc, Rinv_l by lra. lra. }
  rewrite trunc_nonneg by lra.
  rewrite <- (Int_part_spec (a / n) 1%Z) by (simpl; lra).
  simpl. ring.
Qed.

Lemma toDegrees_bounds (r : R) :
  - PI < r <= PI -> -180 < toDegrees r <= 180.
Proof.
  pose proof PI_RGT_0 as Hpi.
  intros [Hlo Hhi]. unfold toDegrees.
  assert (Hinv : 0 < / PI) by now apply Rinv_0_lt_compat.
  assert (H1 : PI * / PI = 1) by (apply Rinv_r; lra).
  unfold Rdiv. split; nra.
Qed.

(** The older bearing is an angle of [(-180, 180]]. *)
Lemma legacy_bearing_bounds (lat1 lon1 lat2 lon2 : R) :
  -180 < Legacy.calculateBearing lat1 lon1 lat2 lon2 <= 180.
Proof.
  unfold Legacy.calculateBearing. cbv zeta.
  apply toDegrees_bounds, atan2_bounds.
Qed.

(** The current bearing is the older one shifted by a turn and
    reduced. *)
Lemma bearing_as_legacy (lat1 lon1 lat2 lon2 : R) :
  calculateBearing lat1 lon1 lat2 lon2 =
  Math.rem (Legacy.calculateBearing lat1 lon1 lat2 lon2 + 360) 360.
Proof. reflexivity. Qed.

(** C1.  The Fresnel radius at the midpoint of a link of [d]
    kilometres, [calculateFresnelRadius wavelength (d/2) (d/2)], is
    [sqrt ((wavelength * d1m * d2m) / (d1m + d2m))] with
    [d1m = d2m = 500 * d] metres.  At 5 GHz the wavelength is 0.06 m,
    and for a 10 km link the radius is
    [sqrt (0.06 * 5000 * 5000 / 10000) = sqrt 150], which is 12.25
    to two decimals. *)
Theorem fresnel_radius_midpoint :
  (forall wavelength d : R, 0 < wavelength -> 0 < d ->
     let d1m := 500 * d in
     let d2m := 500 * d in
     calculateFresnelRadius wavelength (d / 2) (d / 2) =
     sqrt ((wavelength * d1m * d2m) / (d1m + d2m)))
  /\ calculateWavelength 5 = 0.06
  /\ calculateFresnelRadius 0.06 (10 / 2) (10 / 2) =
     sqrt (0.06 * 5000 * 5000 / 10000)
  /\ sqrt (0.06 * 5000 * 5000 / 10000) = sqrt 150
  /\ 12.245 <= sqrt 150 < 12.255.
Proof.
  split; [| split; [| split; [| split]]].
  - intros wavelength d _ _ d1m d2m. unfold calculateFresnelRadius.
    cbv zeta. subst d1m d2m. f_equal. f_equal; [f_equal |]; lra.
  - unfold calculateWavelength, SPEED_OF_LIGHT. cbv zeta. lra.
  - unfold calculateFresnelRadius. cbv zeta. f_equal. lra.
  - f_equal. lra.
  - split.
    + rewrite <- (sqrt_square 12.245) by lra.
      apply sqrt_le_1_alt. lra.
    + rewrite <- (sqrt_square 12.255) by lra.
      apply sqrt_lt_1_alt. lra.
Qed.

Lemma fresnel_radius_midpoint_witness :
  0 < 0.06 /\ 0 < 10 /\
  calculateFresnelRadius 0.06 (10 / 2) (10 / 2) =
  sqrt ((0.06 * (500 * 10) * (500 * 10)) / (500 * 10 + 500 * 10)).
Proof.
  split; [lra | split; [lra |]].
  apply (proj1 fresnel_radius_midpoint 0.06 10); lra.
Defined.


(** C7.  The bearing lies in the half-open interval [[0, 360)]. *)
Theorem bearing_range (lat1 lon1 lat2 lon2 : R) :
  0 <= calculateBearing lat1 lon1 lat2 lon2 < 360.
Proof.
  rewrite bearing_as_legacy.
  pose proof (legacy_bearing_bounds lat1 lon1 lat2 lon2).
  apply rem_range; lra.
Qed.

(** C10.  The two copies of the bearing computation give the same
    direction up to the choice of range, in exact arithmetic: the
    current one is the older one plus 360, modulo 360; the two are
    equal whenever the older one is not negative, and the current one
    is 360 more when it is negative.  This is a statement over the
    reals.  The doubles of the code agree only up to the rounding of
    the sum, as the lemma that follows shows. *)
Theorem bearing_copies_agree (lat1 lon1 lat2 lon2 : R) :
  calculateBearing lat1 lon1 lat2 lon2 =
  Math.rem (Legacy.calculateBearing lat1 lon1 lat2 lon2 + 360) 360
  /\ (0 <= Legacy.calculateBearing lat1 lon1 lat2 lon2 ->
      calculateBearing lat1 lon1 lat2 lon2 =
      Legacy.calculateBearing lat1 lon1 lat2 lon2)
  /\ (Legacy.calculateBearing lat1 lon1 lat2 lon2 < 0 ->
      calculateBearing lat1 lon1 lat2 lon2 =
      Legacy.calculateBearing lat1 lon1 lat2 lon2 + 360).
Proof.
  pose proof (legacy_bearing_bounds lat1 lon1 lat2 lon2) as Hb.
  split; [apply bearing_as_legacy |]. split.
  - intros Hpos. rewrite bearing_as_legacy.
    rewrite rem_second_period by lra. ring.
  - intros Hneg. rewrite bearing_as_legacy.
    apply rem_first_period; lra.
Qed.

(** The specification asks for more than the theorem above gives: that
    the two copies agree exactly whenever the older result is not
    negative.  In doubles they do not.  From (40, -74) to (40, -73) both copies
    compute [toDegrees(bearing) = 89.6786014074897]
    ([0x1.66b6e34990c05p+6]), which the older copy returns; the sum
    with 360 is rounded to the doubles of [[256, 512)], which are four
    times as far apart, and the current copy returns
    [89.67860140748968] ([0x1.66b6e34990c04p+6]). *)
Lemma bearing_copies_differ_in_doubles :
  PrimFloat.leb 0 0x1.66b6e34990c05p+6 = true
  /\ Double.normalizeDegrees 0x1.66b6e34990c05p+6 = 0x1.66b6e34990c04p+6%float
  /\ Double.normalizeDegrees 0x1.66b6e34990c05p+6 <> 0x1.66b6e34990c05p+6%float.
Proof.
  split; [reflexivity |]. split; [vm_compute; reflexivity |].
  intros H.
  assert (E : PrimFloat.eqb (Double.normalizeDegrees 0x1.66b6e34990c05p+6)
                0x1.66b6e34990c05p+6 = true) by (rewrite H; reflexivity).
  vm_compute in E. discriminate.
Qed.

(** Due east along the equator: both copies give 90 degrees. *)
Lemma legacy_bearing_east : Legacy.calculateBearing 0 0 0 90 = 90.
Proof.
  pose proof PI_RGT_0 as Hpi.
  unfold Legacy.calculateBearing. cbv zeta.
  replace (toRadians (90 - 0)) with (PI / 2) by (unfold toRadians; lra).
  replace (toRadians 0) with 0 by (unfold toRadians; lra).
  rewrite sin_PI2, cos_PI2, sin_0, cos_0.
  replace (1 * 0 - 0 * 1 * 0) with 0 by ring.
  replace (1 * 1) with 1 by ring.
  unfold Math.atan2.
  destruct (Rlt_dec 0 0); [lra |].
  destruct (Rlt_dec 0 1); [| lra].
  unfold toDegrees. field. lra.
Qed.

Lemma bearing_copies_agree_witness :
  0 <= Legacy.calculateBearing 0 0 0 90 /\
  calculateBearing 0 0 0 90 = Legacy.calculateBearing 0 0 0 90.
Proof.
  assert (H : 0 <= Legacy.calculateBearing 0 0 0 90)
    by (rewrite legacy_bearing_east; lra).
  split; [exact H |].
  exact (proj1 (proj2 (bearing_copies_agree 0 0 0 90)) H).
Defined.


(** * Properties of the registry *)

(** ** Lists *)

Lemma findIndex_None {A : Type} (p : A -> bool) (l : list A) :
  findIndex p l = None <-> forall x, In x l -> p x = false.
Proof.
  induction l as [| a l IH]; simpl.
  - split; [intros _ x [] | reflexivity].
  - destruct (p a) eqn:Hpa.
    + split; [discriminate |].
      intros H. specialize (H a (or_introl eq_refl)). congruence.
    + destruct (findIndex p l) eqn:Hf; simpl.
      * split; [discriminate |].
        intros H. destruct IH as [_ IH].
        assert (Some n = None) by (apply IH; intros x Hx; apply H; now right).
        discriminate.
      * split; [| reflexivity].
        intros _ x [-> | Hx]; [assumption |].
        now apply IH.
Qed.

Lemma findIndex_Some_nth {A : Type} (p : A -> bool) (l : list A) (i : nat) :
  findIndex p l = Some i ->
  exists x, nth_error l i = Some x /\ p x = true.
Proof.
  revert i. induction l as [| a l IH]; simpl; intros i H; [discriminate |].
  destruct (p a) eqn:Hpa.
  - injection H as <-. exists a. now split.
  - destruct (findIndex p l) as [j |] eqn:Hf; simpl in H; [| discriminate].
    injection H as <-. simpl. now apply IH.
Qed.

(** With a test that singles out one element, removing the first match
    removes every match. *)
Lemma splice1_findIndex_filter {A : Type} (p : A -> bool) (l : list A) (i : nat) :
  (forall x y l1 l2, l = l1 ++ x :: l2 -> In y l2 -> p x = true -> p y = false) ->
  findIndex p l = Some i ->
  splice1 i l = filter (fun x => negb (p x)) l.
Proof.
  revert i. induction l as [| a l IH]; simpl; intros i Huniq H; [discriminate |].
  destruct (p a) eqn:Hpa; simpl.
  - injection H as <-. simpl.
    symmetry. apply forallb_filter_id.
    apply forallb_forall. intros y Hy.
    rewrite (Huniq a y [] l eq_refl Hy Hpa). reflexivity.
  - destruct (findIndex p l) as [j |] eqn:Hf; simpl in H; [| discriminate].
    injection H as <-. simpl. f_equal. apply IH; [| reflexivity].
    intros x y l1 l2 -> Hy Hpx.
    exact (Huniq x y (a :: l1) l2 eq_refl Hy Hpx).
Qed.

Lemma filter_all_false {A : Type} (p : A -> bool) (l : list A) :
  (forall x, In x l -> p x = false) ->
  filter (fun x => negb (p x)) l = l.
Proof.
  intros H. apply forallb_filter_id, forallb_forall.
  intros x Hx. now rewrite (H x Hx).
Qed.

Lemma NoDup_map_split {A B : Type} (f : A -> B) (l1 l2 : list A) (x y : A) :
  NoDup (List.map f (l1 ++ x :: l2)) -> In y l2 -> f x <> f y.
Proof.
  rewrite map_app. simpl. intros H Hy Heq.
  apply NoDup_remove_2 in H. apply H.
  apply in_or_app. right. rewrite Heq. now apply in_map.
Qed.

Lemma NoDup_map_filter {A B : Type} (f : A -> B) (p : A -> bool) (l : list A) :
  NoDup (List.map f l) -> NoDup (List.map f (filter p l)).
Proof.
  induction l as [| a l IH]; simpl; intros H; [constructor |].
  inversion H as [| ? ? Hnotin Hnd]; subst.
  destruct (p a); simpl; [| now apply IH].
  constructor; [| now apply IH].
  intros Hin. apply Hnotin.
  apply in_map_iff in Hin. destruct Hin as [x [Hx Hin]].
  apply filter_In in Hin. rewrite <- Hx. apply in_map. tauto.
Qed.

Lemma NoDup_map_inj_in {A B : Type} (f : A -> B) (l : list A) (x y : A) :
  NoDup (List.map f l) -> In x l -> In y l -> f x = f y -> x = y.
Proof.
  induction l as [| a l IH]; simpl; intros H Hx Hy Heq; [contradiction |].
  inversion H as [| ? ? Hnotin Hnd]; subst.
  destruct Hx as [-> | Hx], Hy as [-> | Hy]; try reflexivity.
  - exfalso. apply Hnotin. rewrite Heq. now apply in_map.
  - exfalso. apply Hnotin. rewrite <- Heq. now apply in_map.
  - now apply IH.
Qed.

Lemma mutateFirst_map_preserved {A B : Type} (p : A -> bool) (f : A -> A)
  (g : A -> B) (l : list A) :
  (forall x, g (f x) = g x) ->
  List.map g (mutateFirst p f l) = List.map g l.
Proof.
  intros Hg. induction l as [| a l IH]; simpl; [reflexivity |].
  destruct (p a); simpl; [now rewrite Hg | now rewrite IH].
Qed.

(** A mutation that keeps what the test [q] and the observation [g]
    look at is invisible to [g] after a [find] by [q]. *)
Lemma find_mutateFirst {A B : Type} (p q : A -> bool) (f : A -> A) (g : A -> B)
  (l : list A) :
  (forall x, q (f x) = q x) ->
  (forall x, g (f x) = g x) ->
  option_map g (find q (mutateFirst p f l)) = option_map g (find q l).
Proof.
  intros Hq Hg. induction l as [| a l IH]; simpl; [reflexivity |].
  destruct (p a); simpl.
  - rewrite Hq. destruct (q a); simpl; [now rewrite Hg | reflexivity].
  - destruct (q a); simpl; [reflexivity | exact IH].
Qed.

(** ** The tower store *)

Lemma deref_mutate {B : Type} (g : Tower -> B) (ref : nat) (f : Tower -> Tower)
  (st : State) (x : nat) :
  (forall t, tower_id (f t) = tower_id t) ->
  (forall t, g (f t) = g t) ->
  g (deref (mutate ref f st) x) = g (deref st x).
Proof.
  intros Hid Hg. unfold deref, mutate. simpl.
  pose proof (find_mutateFirst (fun t => Nat.eqb (tower_id t) ref)
                (fun t => Nat.eqb (tower_id t) x) f g (heap st)) as H.
  destruct (find _ (mutateFirst _ f (heap st))), (find _ (heap st));
    simpl in H; try (specialize (H (fun t => f_equal (fun n => Nat.eqb n x) (Hid t)) Hg));
    congruence.
Qed.

Lemma deref_setIcon {B : Type} (g : Tower -> B) (ref : nat) (i : Icon)
  (st : State) (x : nat) :
  (forall t m, g (with_marker m t) = g t) ->
  g (deref (setIcon ref i st) x) = g (deref st x).
Proof.
  intros Hg. unfold setIcon. apply deref_mutate; intros t; [reflexivity | apply Hg].
Qed.

Lemma sameRegistry_refl (st : State) : sameRegistry st st.
Proof. unfold sameRegistry. tauto. Qed.

Lemma sameRegistry_trans (a b c : State) :
  sameRegistry a b -> sameRegistry b c -> sameRegistry a c.
Proof. unfold sameRegistry. intuition congruence. Qed.

Lemma setIcon_sameRegistry (ref : nat) (i : Icon) (st : State) :
  sameRegistry st (setIcon ref i st).
Proof. unfold sameRegistry. simpl. tauto. Qed.

Lemma fold_setIcon_sameRegistry (i : Icon) (refs : list nat) (st : State) :
  sameRegistry st (fold_left (fun st tower => setIcon tower i st) refs st).
Proof.
  revert st. induction refs as [| r refs IH]; intros st; simpl.
  - apply sameRegistry_refl.
  - eapply sameRegistry_trans; [apply (setIcon_sameRegistry r i) | apply IH].
Qed.

Lemma clearTowerSelection_sameRegistry (st : State) :
  sameRegistry st (clearTowerSelection st).
Proof.
  unfold clearTowerSelection, updateTowerList.
  pose proof (fold_setIcon_sameRegistry icon_tower_marker (selectedTowers st) st) as H.
  unfold sameRegistry in *. simpl. exact H.
Qed.

(** ** Link creation *)

Lemma existsb_pair_true (a b : nat) (ls : list Link) (link : Link) :
  In link ls -> linksPair a b link ->
  existsb (fun link =>
    (Nat.eqb (link_tower1 link) a && Nat.eqb (link_tower2 link) b)
    || (Nat.eqb (link_tower1 link) b && Nat.eqb (link_tower2 link) a)) ls = true.
Proof.
  intros Hin Hpair. apply existsb_exists. exists link. split; [assumption |].
  destruct Hpair as [[-> ->] | [-> ->]]; rewrite !Nat.eqb_refl; simpl;
    [reflexivity | apply orb_true_r].
Qed.

Lemma existsb_pair_false (a b : nat) (ls : list Link) :
  (forall link, In link ls -> ~ linksPair a b link) ->
  existsb (fun link =>
    (Nat.eqb (link_tower1 link) a && Nat.eqb (link_tower2 link) b)
    || (Nat.eqb (link_tower1 link) b && Nat.eqb (link_tower2 link) a)) ls = false.
Proof.
  intros H. apply not_true_is_false. intros Hex.
  apply existsb_exists in Hex. destruct Hex as [link [Hin Hb]].
  apply (H link Hin). unfold linksPair.
  apply orb_true_iff in Hb.
  destruct Hb as [Hb | Hb]; apply andb_true_iff in Hb; destruct Hb as [H1 H2];
    apply Nat.eqb_eq in H1, H2; tauto.
Qed.

(** C5.  When a link between towers [a] and [b] exists, a second
    [createLink] for the same pair, in either argument order, ends in
    the 'A link already exists' notification and changes nothing else:
    the link collection and the link id counter are as before. *)
Theorem createLink_duplicate (st : State) (a b : nat) (link : Link) :
  In link (links st) -> linksPair a b link ->
  createLink a b st = showNotification LinkAlreadyExists st /\
  createLink b a st = showNotification LinkAlreadyExists st /\
  links (createLink a b st) = links st /\
  links (createLink b a st) = links st /\
  linkIdCounter (createLink a b st) = linkIdCounter st /\
  linkIdCounter (createLink b a st) = linkIdCounter st.
Proof.
  intros Hin Hpair.
  assert (Hab : createLink a b st = showNotification LinkAlreadyExists st).
  { unfold createLink. cbv zeta.
    now rewrite (existsb_pair_true a b (links st) link Hin Hpair). }
  assert (Hba : createLink b a st = showNotification LinkAlreadyExists st).
  { unfold createLink. cbv zeta.
    rewrite (existsb_pair_true b a (links st) link Hin); [reflexivity |].
    unfold linksPair in *. tauto. }
  rewrite Hab, Hba. simpl. repeat split; reflexivity.
Qed.

Lemma createLink_fresh (st : State) (a b : nat) :
  (forall link, In link (links st) -> ~ linksPair a b link) ->
  links (createLink a b st) =
  links st ++
  [mkLink (linkIdCounter st) a b (tower_frequency (deref st a))
     (calculateDistance (tower_lat (deref st a)) (tower_lng (deref st a))
        (tower_lat (deref st b)) (tower_lng (deref st b)))
     primary_color None]
  /\ linkIdCounter (createLink a b st) = S (linkIdCounter st).
Proof.
  intros H. unfold createLink. cbv zeta.
  rewrite (existsb_pair_false a b (links st) H). split; reflexivity.
Qed.

(** C2.  With tower [a] selected, a click on another tower [b] is the
    pairing attempt.  When the two frequencies differ it ends in the
    'different frequencies' notification, the selection is cleared and
    the link collection (and the link id counter) is as before.  When
    they are equal and the pair is not linked yet, the new link is
    appended. *)
Theorem pairing_checks_frequency (st : State) (a b : nat) :
  selectedTowers st = [a] -> a <> b ->
  let fa := tower_frequency (deref st a) in
  let fb := tower_frequency (deref st b) in
  let st' := handleTowerClickForLink b st in
  (fa <> fb ->
     links st' = links st /\
     List.length (links st') = List.length (links st) /\
     linkIdCounter st' = linkIdCounter st /\
     notifications st' = notifications st ++ [FrequencyMismatch fa fb] /\
     selectedTowers st' = [])
  /\ (fa = fb ->
      (forall link, In link (links st) -> ~ linksPair a b link) ->
      links st' =
      links st ++
      [mkLink (linkIdCounter st) a b fa
         (calculateDistance (tower_lat (deref st a)) (tower_lng (deref st a))
            (tower_lat (deref st b)) (tower_lng (deref st b)))
         primary_color None]
      /\ notifications st' = notifications st
      /\ selectedTowers st' = []).
Proof.
  intros Hsel Hab fa fb st'.
  set (st1 := setIcon b icon_tower_marker_selected
                (set_selectedTowers [a; b] st)).
  assert (Hproj : forall (B : Type) (g : Tower -> B) x,
             (forall t m, g (with_marker m t) = g t) ->
             g (deref st1 x) = g (deref st x)).
  { intros B g x Hg. unfold st1. now rewrite deref_setIcon. }
  assert (Hst' : st' =
            if negb (strictEq fa fb)
            then clearTowerSelection (showNotification (FrequencyMismatch fa fb) st1)
            else clearTowerSelection (createLink a b st1)).
  { unfold st', handleTowerClickForLink. cbv zeta. rewrite Hsel. simpl findIndex.
    destruct (Nat.eqb a b) eqn:Heq; [apply Nat.eqb_eq in Heq; contradiction |].
    change ([a] ++ [b]) with [a; b]. fold st1.
    change (selectedTowers st1) with [a; b]. cbv iota.
    rewrite !(Hproj R tower_frequency) by reflexivity. reflexivity. }
  unfold strictEq in Hst'. split.
  - intros Hneq. destruct (Req_EM_T fa fb) as [Heq | _]; [contradiction |].
    simpl in Hst'. rewrite Hst'.
    destruct (clearTowerSelection_sameRegistry
                (showNotification (FrequencyMismatch fa fb) st1))
      as (_ & _ & Hl & _ & _ & Hc & _ & _ & _ & _ & Hn).
    rewrite Hl, Hc, Hn. simpl. repeat split; reflexivity.
  - intros Heq Hfree. destruct (Req_EM_T fa fb) as [_ | Hneq]; [| contradiction].
    simpl in Hst'. rewrite Hst'.
    destruct (clearTowerSelection_sameRegistry (createLink a b st1))
      as (_ & _ & Hl & _ & _ & _ & _ & _ & _ & _ & Hn).
    rewrite Hl, Hn.
    destruct (createLink_fresh st1 a b) as [Hlinks _].
    { exact Hfree. }
    rewrite Hlinks.
    rewrite (Hproj R tower_frequency), !(Hproj R tower_lat), !(Hproj R tower_lng)
      by reflexivity.
    repeat split; try reflexivity.
    unfold createLink. cbv zeta.
    replace (links st1) with (links st) by reflexivity.
    rewrite (existsb_pair_false a b (links st) Hfree). reflexivity.
Qed.

(** ** Deletion *)

Lemma layerEq_refl (a : Layer) : layerEq a a = true.
Proof. destruct a; simpl; apply Nat.eqb_refl. Qed.

Lemma removeLayer_gone (layer : Layer) (st : State) :
  ~ In layer (mapLayers (removeLayer layer st)).
Proof.
  simpl. intros H. apply filter_In in H. destruct H as [_ H].
  now rewrite layerEq_refl in H.
Qed.

(** A layer cannot be found behind the filter that removes it. *)
Ltac filtered_out H :=
  repeat (apply filter_In in H;
          let Hneq := fresh "Hneq" in
          destruct H as [H Hneq];
          simpl in Hneq; rewrite ?Nat.eqb_refl in Hneq;
          try discriminate Hneq).

(** The effect of [performDeleteLink] on a registry with unique link
    ids, field by field. *)
Lemma performDeleteLink_effect (linkId : nat) (st : State) :
  NoDup (List.map link_id (links st)) ->
  let st' := performDeleteLink linkId st in
  links st' = filter (fun l => negb (Nat.eqb (link_id l) linkId)) (links st)
  /\ towers st' = towers st
  /\ linkIdCounter st' = linkIdCounter st
  /\ incl (mapLayers st') (mapLayers st)
  /\ (activeLinkForFresnel st' = activeLinkForFresnel st
      \/ activeLinkForFresnel st' = None)
  /\ activeLinkForFresnel st' =
     (if optNatEq (activeLinkForFresnel st) linkId
      then if existsb (fun l => Nat.eqb (link_id l) linkId) (links st)
           then None else activeLinkForFresnel st
      else activeLinkForFresnel st)
  /\ (forall l, In l (links st) -> link_id l = linkId ->
        ~ In (PolylineLayer linkId) (mapLayers st')
        /\ (link_fresnelZone l <> None -> ~ In (ZoneLayer linkId) (mapLayers st'))).
Proof.
  intros Hnd st'. subst st'. unfold performDeleteLink.
  destruct (findIndex (fun l => Nat.eqb (link_id l) linkId) (links st))
    as [i |] eqn:Hfi.
  - destruct (findIndex_Some_nth _ _ _ Hfi) as [x [Hnth Hpx]].
    rewrite Hnth. apply Nat.eqb_eq in Hpx.
    assert (Hx : In x (links st)) by (eapply nth_error_In; eassumption).
    assert (Hex : existsb (fun l => Nat.eqb (link_id l) linkId) (links st) = true).
    { apply existsb_exists. exists x. split; [assumption | now apply Nat.eqb_eq]. }
    rewrite Hex.
    assert (Hsplice : splice1 i (links st) =
              filter (fun l => negb (Nat.eqb (link_id l) linkId)) (links st)).
    { apply splice1_findIndex_filter; [| assumption].
      intros u v l1 l2 Heq Hv Hu. apply Nat.eqb_eq in Hu. apply Nat.eqb_neq.
      rewrite Heq in Hnd. pose proof (NoDup_map_split link_id l1 l2 u v Hnd Hv).
      congruence. }
    assert (Hlayers : forall l, In l (links st) -> link_id l = linkId -> l = x).
    { intros l Hl Hid. apply (NoDup_map_inj_in link_id (links st)); congruence. }
    rewrite Hpx.
    destruct (link_fresnelZone x) eqn:Hzone;
      destruct (optNatEq (activeLinkForFresnel st) linkId) eqn:Hact;
      cbn [links towers linkIdCounter mapLayers activeLinkForFresnel
           set_links set_activeLinkForFresnel removeLayer set_mapLayers
           updateLinkList];
      rewrite ?Hact;
      cbn [links towers linkIdCounter mapLayers activeLinkForFresnel
           set_links set_activeLinkForFresnel removeLayer set_mapLayers
           updateLinkList];
      (split; [exact Hsplice |]);
      (split; [reflexivity |]); (split; [reflexivity |]);
      (split; [intros y Hy; repeat (apply filter_In in Hy; destruct Hy as [Hy _]);
               exact Hy |]);
      (split; [tauto |]); (split; [reflexivity |]);
      intros l Hl Hid; rewrite (Hlayers l Hl Hid), Hzone;
      (split; [intros Hin | intros Hz Hin]); try congruence;
      filtered_out Hin.
  - pose proof (proj1 (findIndex_None _ _) Hfi) as Hnone.
    rewrite (filter_all_false _ _ Hnone).
    assert (Hex : existsb (fun l => Nat.eqb (link_id l) linkId) (links st) = false).
    { apply not_true_is_false. intros H. apply existsb_exists in H.
      destruct H as [l [Hl Hb]]. rewrite (Hnone l Hl) in Hb. discriminate. }
    rewrite Hex.
    split; [reflexivity |]. split; [reflexivity |]. split; [reflexivity |].
    split; [apply incl_refl |]. split; [now left |].
    split; [now destruct (optNatEq _ _) |].
    intros l Hl Hid. exfalso. apply Nat.eqb_eq in Hid.
    rewrite (Hnone l Hl) in Hid. discriminate.
Qed.

Lemma optNatEq_true (o : option nat) (n : nat) :
  optNatEq o n = true <-> o = Some n.
Proof.
  destruct o as [m |]; simpl.
  - rewrite Nat.eqb_eq. split; congruence.
  - split; discriminate.
Qed.

Lemma optNatEq_false (o : option nat) (n : nat) :
  optNatEq o n = false <-> o <> Some n.
Proof.
  rewrite <- optNatEq_true. destruct (optNatEq o n); split; congruence.
Qed.

Lemma filter_filter_andb {A : Type} (p q : A -> bool) (l : list A) :
  filter p (filter q l) = filter (fun x => q x && p x) l.
Proof.
  induction l as [| a l IH]; simpl; [reflexivity |].
  destruct (q a); simpl; [destruct (p a) |]; now rewrite IH.
Qed.

Lemma fold_links_as_ids (ls : list Link) (st : State) :
  fold_left (fun st link => performDeleteLink (link_id link) st) ls st =
  fold_left (fun st id => performDeleteLink id st) (List.map link_id ls) st.
Proof.
  revert st. induction ls as [| l ls IH]; intros st; simpl; [reflexivity |].
  apply IH.
Qed.

Lemma performDeleteLink_cleans (linkId : nat) (st : State) (l : Link) :
  NoDup (List.map link_id (links st)) ->
  In l (links st) -> link_id l = linkId ->
  cleanedUp l (performDeleteLink linkId st).
Proof.
  intros Hnd Hl Hid.
  destruct (performDeleteLink_effect linkId st Hnd)
    as (_ & _ & _ & _ & _ & Hact & Hlayers).
  destruct (Hlayers l Hl Hid) as [Hp Hz].
  unfold cleanedUp. rewrite Hid. repeat split; try assumption.
  rewrite Hact.
  assert (Hex : existsb (fun x => Nat.eqb (link_id x) linkId) (links st) = true).
  { apply existsb_exists. exists l. split; [assumption | now apply Nat.eqb_eq]. }
  rewrite Hex.
  destruct (optNatEq (activeLinkForFresnel st) linkId) eqn:Ho; [discriminate |].
  now apply optNatEq_false.
Qed.

Lemma cleanedUp_kept (l : Link) (st st' : State) :
  incl (mapLayers st') (mapLayers st) ->
  (activeLinkForFresnel st' = activeLinkForFresnel st
   \/ activeLinkForFresnel st' = None) ->
  cleanedUp l st -> cleanedUp l st'.
Proof.
  unfold cleanedUp. intros Hincl Hact (Hp & Hz & Ha).
  repeat split.
  - intros H. apply Hp, Hincl, H.
  - intros Hsome H. apply (Hz Hsome), Hincl, H.
  - destruct Hact as [-> | ->]; [assumption | discriminate].
Qed.

(** A run of [performDeleteLink] over a list of ids. *)
Lemma fold_performDeleteLink_effect (ids : list nat) (st : State) :
  NoDup (List.map link_id (links st)) ->
  let st' := fold_left (fun st id => performDeleteLink id st) ids st in
  links st' =
    filter (fun l => negb (existsb (Nat.eqb (link_id l)) ids)) (links st)
  /\ towers st' = towers st
  /\ linkIdCounter st' = linkIdCounter st
  /\ incl (mapLayers st') (mapLayers st)
  /\ (activeLinkForFresnel st' = activeLinkForFresnel st
      \/ activeLinkForFresnel st' = None)
  /\ (forall l, In l (links st) -> In (link_id l) ids -> cleanedUp l st').
Proof.
  revert st. induction ids as [| id ids IH]; intros st Hnd; simpl.
  - repeat split; try reflexivity; try apply incl_refl; try tauto.
    symmetry. apply forallb_filter_id, forallb_forall. reflexivity.
  - destruct (performDeleteLink_effect id st Hnd)
      as (Hl1 & Ht1 & Hc1 & Hm1 & Ha1 & _ & _).
    set (st1 := performDeleteLink id st) in *.
    assert (Hnd1 : NoDup (List.map link_id (links st1))).
    { rewrite Hl1. now apply NoDup_map_filter. }
    destruct (IH st1 Hnd1) as (Hl & Ht & Hc & Hm & Ha & Hclean).
    split; [| split; [| split; [| split; [| split]]]].
    + rewrite Hl, Hl1, filter_filter_andb. apply filter_ext.
      intros l. simpl. now rewrite negb_orb.
    + congruence.
    + congruence.
    + intros x Hx. apply Hm1, Hm, Hx.
    + destruct Ha as [Ha | Ha]; [rewrite Ha; exact Ha1 | now right].
    + intros l Hin [Hid | Hrest].
      * apply (cleanedUp_kept l st1); [assumption | assumption |].
        now apply performDeleteLink_cleans.
      * destruct (Nat.eq_dec (link_id l) id) as [Heq | Hneq].
        -- apply (cleanedUp_kept l st1); [assumption | assumption |].
           now apply performDeleteLink_cleans.
        -- apply Hclean; [| assumption].
           rewrite Hl1. apply filter_In. split; [assumption |].
           now apply negb_true_iff, Nat.eqb_neq.
Qed.

(** X22.  On a registry with unique ids and no dangling link, deleting
    a tower removes exactly the links that reference it, each with the
    cleanup of [performDeleteLink] (polyline and Fresnel polygon off
    the map, active-link reference cleared), then the tower and its
    marker; the other towers and links stay, and every link that
    remains has both endpoints in the tower collection.  The number of
    links drops by the number of links that referenced the tower (by
    two for a tower with two links).  The absence of dangling links
    before the deletion is a hypothesis: the states the application
    reaches do not all have it. *)
Theorem performDeleteTower_cascade (st : State) (towerId : nat) :
  uniqueIds st -> noDangling st -> In towerId (towers st) ->
  let st' := performDeleteTower towerId st in
  links st' = filter (fun l => negb (references towerId l)) (links st)
  /\ towers st' = filter (fun t => negb (Nat.eqb t towerId)) (towers st)
  /\ (forall l, In l (links st) -> references towerId l = true ->
        cleanedUp l st')
  /\ ~ In (MarkerLayer towerId) (mapLayers st')
  /\ noDangling st'
  /\ uniqueIds st'
  /\ (List.length (links st')
      + List.length (filter (references towerId) (links st))
      = List.length (links st))%nat
  /\ (List.length (filter (references towerId) (links st)) = 2%nat ->
      S (S (List.length (links st'))) = List.length (links st)
      /\ S (List.length (towers st')) = List.length (towers st)).
Proof.
  intros [Hndt Hndl] Hdang Hin st'.
  assert (Hfi : exists i, findIndex (fun t => Nat.eqb t towerId) (towers st) = Some i).
  { destruct (findIndex (fun t => Nat.eqb t towerId) (towers st)) as [i |] eqn:Hf;
      [now exists i |].
    pose proof (proj1 (findIndex_None _ _) Hf towerId Hin) as H.
    cbv beta in H. now rewrite Nat.eqb_refl in H. }
  destruct Hfi as [i Hfi].
  destruct (findIndex_Some_nth _ _ _ Hfi) as [x [Hnth Hpx]].
  apply Nat.eqb_eq in Hpx. subst x.
  set (toRemove := filter (references towerId) (links st)).
  destruct (fold_performDeleteLink_effect (List.map link_id toRemove) st Hndl)
    as (Hl & Ht & _ & Hm & Ha & Hclean).
  set (st1 := fold_left (fun st id => performDeleteLink id st)
                (List.map link_id toRemove) st) in *.
  assert (Hst' : st' = set_towers (splice1 i (towers st1))
                          (removeLayer (MarkerLayer towerId) st1)).
  { unfold st', performDeleteTower. rewrite Hfi, Hnth.
    fold (references towerId). fold toRemove. rewrite fold_links_as_ids.
    reflexivity. }
  assert (Hlinks : links st' =
            filter (fun l => negb (references towerId l)) (links st)).
  { rewrite Hst'. simpl. rewrite Hl. apply filter_ext_in.
    intros l Hlin. f_equal.
    destruct (references towerId l) eqn:Href.
    - apply existsb_exists. exists (link_id l). split; [| apply Nat.eqb_refl].
      apply in_map. apply filter_In. now split.
    - apply not_true_is_false. intros Hex. apply existsb_exists in Hex.
      destruct Hex as [id [Hid Heq]]. apply Nat.eqb_eq in Heq.
      apply in_map_iff in Hid. destruct Hid as [r [Hrid Hr]].
      apply filter_In in Hr. destruct Hr as [Hr Hrref].
      assert (r = l).
      { apply (NoDup_map_inj_in link_id (links st)); congruence. }
      congruence. }
  assert (Htowers : towers st' =
            filter (fun t => negb (Nat.eqb t towerId)) (towers st)).
  { rewrite Hst'. simpl. rewrite Ht.
    apply splice1_findIndex_filter; [| assumption].
    intros u v l1 l2 Heq Hv Hu. apply Nat.eqb_eq in Hu. apply Nat.eqb_neq.
    rewrite Heq in Hndt. apply NoDup_remove_2 in Hndt.
    intros Hvt. apply Hndt. apply in_or_app. right.
    rewrite Hu, <- Hvt. exact Hv. }
  assert (Hlen : (List.length (links st') + List.length toRemove
                  = List.length (links st))%nat).
  { rewrite Hlinks. unfold toRemove.
    rewrite Nat.add_comm. apply filter_length. }
  split; [exact Hlinks |]. split; [exact Htowers |].
  split; [| split; [| split; [| split; [| split]]]].
  - intros l Hlin Href.
    apply (cleanedUp_kept l st1).
    + rewrite Hst'. simpl. intros y Hy. apply filter_In in Hy. tauto.
    + left. rewrite Hst'. reflexivity.
    + apply Hclean; [assumption |]. apply in_map. apply filter_In. now split.
  - rewrite Hst'. apply (removeLayer_gone (MarkerLayer towerId) st1).
  - intros l Hlin. rewrite Hlinks in Hlin. apply filter_In in Hlin.
    destruct Hlin as [Hlin Href]. apply negb_true_iff in Href.
    unfold references in Href. apply orb_false_iff in Href.
    destruct Href as [H1 H2]. apply Nat.eqb_neq in H1, H2.
    destruct (Hdang l Hlin) as [Hd1 Hd2].
    rewrite Htowers. split; apply filter_In; split; try assumption;
      now apply negb_true_iff, Nat.eqb_neq.
  - split.
    + rewrite Htowers. now apply NoDup_filter.
    + rewrite Hlinks. now apply NoDup_map_filter.
  - exact Hlen.
  - intros Htwo. fold toRemove in Htwo. split; [lia |].
    rewrite Htowers.
    pose proof (filter_length (fun t => Nat.eqb t towerId) (towers st)) as Hfl.
    assert (Hone : List.length (filter (fun t => Nat.eqb t towerId) (towers st)) = 1%nat).
    { clear - Hndt Hin. induction (towers st) as [| a l IH]; [contradiction |].
      inversion Hndt as [| ? ? Hnotin Hnd]; subst. simpl.
      destruct (Nat.eqb a towerId) eqn:Heq.
      - apply Nat.eqb_eq in Heq. subst a. simpl. f_equal.
        rewrite (proj2 (length_zero_iff_nil _)); [reflexivity |].
        destruct (filter _ l) as [| y ys] eqn:Hf; [reflexivity |].
        assert (Hy : In y (filter (fun t => Nat.eqb t towerId) l))
          by (rewrite Hf; now left).
        apply filter_In in Hy. destruct Hy as [Hy Hyeq].
        apply Nat.eqb_eq in Hyeq. subst y. contradiction.
      - apply IH; [assumption |].
        destruct Hin as [-> | Hin]; [| assumption].
        now rewrite Nat.eqb_refl in Heq. }
    lia.
Qed.

(** ** Link ids stay unique *)

Lemma sameLinkIds_refl (st : State) : sameLinkIds st st.
Proof. split; reflexivity. Qed.

Lemma sameLinkIds_trans (a b c : State) :
  sameLinkIds a b -> sameLinkIds b c -> sameLinkIds a c.
Proof. unfold sameLinkIds. intuition congruence. Qed.

Lemma sameLinkIds_fresh (st st' : State) :
  sameLinkIds st st' -> linkIdsFresh st -> linkIdsFresh st'.
Proof. unfold sameLinkIds, linkIdsFresh. intros [-> ->]. tauto. Qed.

Lemma sameRegistry_sameLinkIds (st st' : State) :
  sameRegistry st st' -> sameLinkIds st st'.
Proof.
  unfold sameRegistry, sameLinkIds. intros (_ & _ & -> & _ & _ & -> & _).
  split; reflexivity.
Qed.

Lemma mutateLink_sameLinkIds (id : nat) (f : Link -> Link) (st : State) :
  (forall l, link_id (f l) = link_id l) ->
  sameLinkIds st (mutateLink id f st).
Proof.
  intros Hf. split; [| reflexivity].
  simpl. now apply mutateFirst_map_preserved.
Qed.

Lemma showConfirmationModal_sameLinkIds cb k (st : State) :
  sameLinkIds st (showConfirmationModal cb k st).
Proof. destruct k; split; reflexivity. Qed.

Lemma saveTower_sameLinkIds name frequency (st : State) :
  sameLinkIds st (saveTower name frequency st).
Proof.
  unfold saveTower.
  destruct (negb (truthyString name) || negb (truthyNumber frequency)
            || numLe frequency 0); [split; reflexivity |].
  destruct (pendingTowerLocation st); split; reflexivity.
Qed.

Lemma setMode_sameLinkIds m (st : State) : sameLinkIds st (setMode m st).
Proof.
  unfold setMode. cbv zeta.
  apply (sameLinkIds_trans st (set_mode m st)); [split; reflexivity |].
  apply sameRegistry_sameLinkIds, clearTowerSelection_sameRegistry.
Qed.

Lemma deactivateActiveFresnelZone_sameLinkIds (st : State) :
  sameLinkIds st (deactivateActiveFresnelZone st).
Proof.
  unfold deactivateActiveFresnelZone. cbv zeta.
  destruct (find _ (links st)) as [prev |]; [| split; reflexivity].
  destruct (link_fresnelZone prev); [| split; reflexivity].
  unfold updateLinkList.
  match goal with
  | |- sameLinkIds st (set_activeLinkForFresnel None ?s) =>
      apply (sameLinkIds_trans st s); [| split; reflexivity]
  end.
  eapply sameLinkIds_trans; [| apply mutateLink_sameLinkIds; reflexivity].
  eapply sameLinkIds_trans; [| apply mutateLink_sameLinkIds; reflexivity].
  split; reflexivity.
Qed.

Lemma showFresnelZone_sameLinkIds (linkId : nat) (st : State) :
  sameLinkIds st (showFresnelZone linkId st).
Proof.
  unfold showFresnelZone.
  destruct (find _ (links st)) as [link |]; [| apply sameLinkIds_refl].
  destruct (optNatEq (activeLinkForFresnel st) (link_id link));
    [apply deactivateActiveFresnelZone_sameLinkIds |].
  cbv zeta. unfold updateLinkList.
  eapply sameLinkIds_trans; [| apply mutateLink_sameLinkIds; reflexivity].
  eapply sameLinkIds_trans; [| apply mutateLink_sameLinkIds; reflexivity].
  match goal with
  | |- sameLinkIds st (addTo _ (set_activeLinkForFresnel _ ?s)) =>
      apply (sameLinkIds_trans st s); [| split; reflexivity]
  end.
  destruct (activeLinkForFresnel st);
    [apply deactivateActiveFresnelZone_sameLinkIds | apply sameLinkIds_refl].
Qed.

Lemma updateTowerFrequency_sameLinkIds towerId newFrequency (st : State) :
  sameLinkIds st (updateTowerFrequency towerId newFrequency st).
Proof.
  unfold updateTowerFrequency.
  destruct (find _ (towers st)) as [tower |]; [| apply sameLinkIds_refl].
  cbv zeta.
  match goal with
  | |- sameLinkIds st (if ?c then _ else _) => destruct c
  end.
  - eapply sameLinkIds_trans; [| apply showConfirmationModal_sameLinkIds].
    split; reflexivity.
  - split; reflexivity.
Qed.

Lemma updateTowerFrequency_resume_sameLinkIds towerId confirmed (st : State) :
  sameLinkIds st (updateTowerFrequency_resume towerId confirmed st).
Proof.
  unfold updateTowerFrequency_resume. destruct confirmed; split; reflexivity.
Qed.

Lemma resolve_sameLinkIds value (st : State) : sameLinkIds st (resolve value st).
Proof.
  unfold resolve. destruct (confirmAction st) as [[towerId] |];
    [apply updateTowerFrequency_resume_sameLinkIds | apply sameLinkIds_refl].
Qed.


Lemma createLink_fresh_ids (a b : nat) (st : State) :
  linkIdsFresh st -> linkIdsFresh (createLink a b st).
Proof.
  intros [Hnd Hlt]. unfold createLink. cbv zeta.
  destruct (existsb _ (links st)); [split; assumption |].
  unfold linkIdsFresh, updateLinkList. simpl.
  rewrite map_app. simpl. split.
  - apply NoDup_app; [assumption | repeat constructor; intros [] |].
    intros id Hin [<- | []].
    rewrite Forall_forall in Hlt. specialize (Hlt _ Hin). lia.
  - apply Forall_app. split.
    + eapply Forall_impl; [| exact Hlt]. simpl. intros id Hid. lia.
    + repeat constructor.
Qed.

Lemma filtered_fresh (p : Link -> bool) (st st' : State) :
  links st' = filter p (links st) ->
  linkIdCounter st' = linkIdCounter st ->
  linkIdsFresh st -> linkIdsFresh st'.
Proof.
  intros Hp Hc [Hnd Hlt]. unfold linkIdsFresh. rewrite Hp, Hc. split.
  - now apply NoDup_map_filter.
  - rewrite Forall_forall in *. intros id Hid. apply Hlt.
    apply in_map_iff in Hid. destruct Hid as [l [<- Hl]].
    apply filter_In in Hl. apply in_map. tauto.
Qed.

Lemma performDeleteLink_fresh_ids (linkId : nat) (st : State) :
  linkIdsFresh st -> linkIdsFresh (performDeleteLink linkId st).
Proof.
  intros Hf. pose proof Hf as [Hnd _].
  destruct (performDeleteLink_effect linkId st Hnd) as (Hl & _ & Hc & _).
  exact (filtered_fresh _ st _ Hl Hc Hf).
Qed.

Lemma fold_performDeleteLink_fresh_ids (ids : list nat) (st : State) :
  linkIdsFresh st ->
  linkIdsFresh (fold_left (fun st id => performDeleteLink id st) ids st).
Proof.
  intros Hf. pose proof Hf as [Hnd _].
  destruct (fold_performDeleteLink_effect ids st Hnd) as (Hl & _ & Hc & _).
  exact (filtered_fresh _ st _ Hl Hc Hf).
Qed.

Lemma performDeleteTower_fresh_ids (towerId : nat) (st : State) :
  linkIdsFresh st -> linkIdsFresh (performDeleteTower towerId st).
Proof.
  intros Hf. unfold performDeleteTower.
  destruct (findIndex _ (towers st)) as [i |]; [| assumption].
  destruct (nth_error (towers st) i) as [tower |]; [| assumption].
  cbv zeta. rewrite fold_links_as_ids.
  unfold updateLinkList, updateTowerList.
  match goal with
  | |- linkIdsFresh (set_towers _ (removeLayer _ ?s)) =>
      apply (sameLinkIds_fresh s); [split; reflexivity |]
  end.
  now apply fold_performDeleteLink_fresh_ids.
Qed.

Lemma handleTowerClickForLink_fresh_ids (tower : nat) (st : State) :
  linkIdsFresh st -> linkIdsFresh (handleTowerClickForLink tower st).
Proof.
  intros Hf. unfold handleTowerClickForLink. cbv zeta.
  match goal with
  | |- linkIdsFresh (match selectedTowers ?s with _ => _ end) => set (s1 := s)
  end.
  assert (Hs : linkIdsFresh s1).
  { unfold s1. destruct (findIndex _ (selectedTowers st));
      (eapply sameLinkIds_fresh; [| exact Hf]); split; reflexivity. }
  clearbody s1.
  destruct (selectedTowers s1) as [| t1 [| t2 [| t3 rest]]]; try exact Hs.
  match goal with
  | |- linkIdsFresh (if ?c then _ else _) => destruct c
  end.
  - eapply sameLinkIds_fresh;
      [apply sameRegistry_sameLinkIds, clearTowerSelection_sameRegistry |].
    eapply sameLinkIds_fresh; [| exact Hs]. split; reflexivity.
  - eapply sameLinkIds_fresh;
      [apply sameRegistry_sameLinkIds, clearTowerSelection_sameRegistry |].
    now apply createLink_fresh_ids.
Qed.

Lemma runCallback_fresh_ids (cb : ConfirmCallback) (st : State) :
  linkIdsFresh st -> linkIdsFresh (runCallback cb st).
Proof.
  intros Hf. destruct cb; simpl.
  - destruct (find _ (towers st)); [assumption |].
    now apply performDeleteTower_fresh_ids.
  - now apply performDeleteLink_fresh_ids.
  - now apply fold_performDeleteLink_fresh_ids.
Qed.

Lemma handleEvent_fresh_ids (e : Event) (st : State) :
  linkIdsFresh st -> linkIdsFresh (handleEvent e st).
Proof.
  intros Hf. destruct e; simpl.
  - unfold handleMapClick. destruct (mode st); [| assumption].
    eapply sameLinkIds_fresh; [| exact Hf]. split; reflexivity.
  - eapply sameLinkIds_fresh; [apply saveTower_sameLinkIds | exact Hf].
  - eapply sameLinkIds_fresh; [| exact Hf]. split; reflexivity.
  - destruct (existsb _ (mapLayers st)); [| assumption].
    destruct (mode st); [assumption |].
    now apply handleTowerClickForLink_fresh_ids.
  - eapply sameLinkIds_fresh; [apply setMode_sameLinkIds | exact Hf].
  - eapply sameLinkIds_fresh; [apply showFresnelZone_sameLinkIds | exact Hf].
  - unfold requestDeleteTower. destruct (find _ (towers st)); [| assumption].
    eapply sameLinkIds_fresh; [apply showConfirmationModal_sameLinkIds | exact Hf].
  - unfold deleteLink. destruct (find _ (links st)); [| assumption].
    eapply sameLinkIds_fresh; [apply showConfirmationModal_sameLinkIds | exact Hf].
  - eapply sameLinkIds_fresh; [apply updateTowerFrequency_sameLinkIds | exact Hf].
  - unfold handleConfirm. destruct (confirmModal st) as [m |]; [| assumption].
    cbv zeta.
    assert (Hh : linkIdsFresh
                   (hideConfirmationModal (runCallback (modal_onConfirm m) st))).
    { eapply sameLinkIds_fresh; [| apply runCallback_fresh_ids; exact Hf].
      split; reflexivity. }
    destruct (modal_returnPromise m); [| assumption].
    eapply sameLinkIds_fresh; [apply resolve_sameLinkIds | exact Hh].
  - unfold handleCancel. destruct (confirmModal st) as [m |]; [| assumption].
    cbv zeta.
    assert (Hh : linkIdsFresh (hideConfirmationModal st)).
    { eapply sameLinkIds_fresh; [| exact Hf]. split; reflexivity. }
    destruct (modal_returnPromise m); [| assumption].
    eapply sameLinkIds_fresh; [apply resolve_sameLinkIds | exact Hh].
  - eapply sameLinkIds_fresh; [| exact Hf]. split; reflexivity.
  - now apply performDeleteTower_fresh_ids.
Qed.

(** In every reachable state the link ids are unique and below the
    counter. *)
Lemma reachable_fresh_ids (st : State) : reachable st -> linkIdsFresh st.
Proof.
  induction 1 as [| e st _ IH].
  - split; simpl; constructor.
  - now apply handleEvent_fresh_ids.
Qed.

(** ** The active Fresnel zone *)

Lemma find_by_id (ls : list Link) (id : nat) :
  In id (List.map link_id ls) ->
  exists link,
    find (fun l => Nat.eqb (link_id l) id) ls = Some link /\ link_id link = id.
Proof.
  induction ls as [| a ls IH]; simpl; [contradiction |].
  intros [Ha | Hin].
  - exists a. rewrite Ha, Nat.eqb_refl. now split.
  - destruct (Nat.eqb (link_id a) id) eqn:Heq.
    + exists a. apply Nat.eqb_eq in Heq. now split.
    + now apply IH.
Qed.

(** A click on a link of the collection toggles it: it becomes the
    active link unless it was the active link. *)
Lemma showFresnelZone_active (linkId : nat) (st : State) :
  In linkId (List.map link_id (links st)) ->
  activeLinkForFresnel (showFresnelZone linkId st) =
  if optNatEq (activeLinkForFresnel st) linkId then None else Some linkId.
Proof.
  intros Hin. destruct (find_by_id _ _ Hin) as [link [Hfind Hid]].
  unfold showFresnelZone. rewrite Hfind, Hid.
  destruct (optNatEq (activeLinkForFresnel st) linkId); reflexivity.
Qed.

Lemma activeLinks_none (st : State) :
  activeLinkForFresnel st = None -> activeLinks st = [].
Proof.
  intros H. unfold activeLinks, isActive. rewrite H. simpl.
  induction (links st) as [| a l IH]; simpl; [reflexivity | exact IH].
Qed.

Lemma filter_id_unique (ls : list Link) (y : nat) :
  NoDup (List.map link_id ls) -> In y (List.map link_id ls) ->
  List.map link_id (filter (fun l => optNatEq (Some y) (link_id l)) ls) = [y].
Proof.
  induction ls as [| a ls IH]; simpl; [contradiction |].
  intros Hnd Hin. inversion Hnd as [| ? ? Hnotin Hnd']; subst.
  destruct (Nat.eqb y (link_id a)) eqn:Heq.
  - apply Nat.eqb_eq in Heq. subst y. simpl. f_equal.
    destruct (filter _ ls) as [| b bs] eqn:Hf; [reflexivity |].
    assert (Hb : In b (filter (fun l => optNatEq (Some (link_id a)) (link_id l)) ls))
      by (rewrite Hf; now left).
    apply filter_In in Hb. destruct Hb as [Hb Hbeq]. apply Nat.eqb_eq in Hbeq.
    exfalso. apply Hnotin. rewrite Hbeq. now apply in_map.
  - apply IH; [assumption |].
    destruct Hin as [Ha | Hin]; [| assumption].
    apply Nat.eqb_neq in Heq. congruence.
Qed.

Lemma activeLinks_some (st : State) (y : nat) :
  NoDup (List.map link_id (links st)) -> In y (List.map link_id (links st)) ->
  activeLinkForFresnel st = Some y ->
  List.map link_id (activeLinks st) = [y].
Proof.
  intros Hnd Hin Hact. unfold activeLinks, isActive. rewrite Hact.
  now apply filter_id_unique.
Qed.

Lemma NoDup_filter_id_le1 (ls : list Link) (o : option nat) :
  NoDup (List.map link_id ls) ->
  (List.length (filter (fun l => optNatEq o (link_id l)) ls) <= 1)%nat.
Proof.
  intros Hnd. destruct o as [y |].
  - destruct (in_dec Nat.eq_dec y (List.map link_id ls)) as [Hin | Hnotin].
    + rewrite <- (length_map link_id), (filter_id_unique ls y Hnd Hin).
      simpl. lia.
    + rewrite (proj2 (length_zero_iff_nil _)); [lia |].
      destruct (filter _ ls) as [| b bs] eqn:Hf; [reflexivity |].
      assert (Hb : In b (filter (fun l => optNatEq (Some y) (link_id l)) ls))
        by (rewrite Hf; now left).
      apply filter_In in Hb. destruct Hb as [Hb Hbeq]. simpl in Hbeq.
      apply Nat.eqb_eq in Hbeq. exfalso. apply Hnotin. rewrite Hbeq.
      now apply in_map.
  - simpl. induction ls as [| a l IH]; simpl; [lia |].
    apply IH. now inversion Hnd.
Qed.

(** ** The polygon of a link follows the active-link reference *)

Lemma sameLinks_refl (st : State) : sameLinks st st.
Proof. split; reflexivity. Qed.

Lemma sameLinks_trans (a b c : State) :
  sameLinks a b -> sameLinks b c -> sameLinks a c.
Proof. unfold sameLinks. intuition congruence. Qed.

Lemma sameRegistry_sameLinks (st st' : State) :
  sameRegistry st st' -> sameLinks st st'.
Proof.
  unfold sameRegistry, sameLinks.
  intros (_ & _ & Hl & _ & _ & _ & _ & Ha & _). now split.
Qed.

Lemma showConfirmationModal_sameLinks cb k (st : State) :
  sameLinks st (showConfirmationModal cb k st).
Proof. destruct k; split; reflexivity. Qed.

Lemma saveTower_sameLinks name frequency (st : State) :
  sameLinks st (saveTower name frequency st).
Proof.
  unfold saveTower.
  destruct (negb (truthyString name) || negb (truthyNumber frequency)
            || numLe frequency 0); [split; reflexivity |].
  destruct (pendingTowerLocation st); split; reflexivity.
Qed.

Lemma setMode_sameLinks m (st : State) : sameLinks st (setMode m st).
Proof.
  unfold setMode. cbv zeta.
  apply (sameLinks_trans st (set_mode m st)); [split; reflexivity |].
  apply sameRegistry_sameLinks, clearTowerSelection_sameRegistry.
Qed.

Lemma updateTowerFrequency_sameLinks towerId newFrequency (st : State) :
  sameLinks st (updateTowerFrequency towerId newFrequency st).
Proof.
  unfold updateTowerFrequency.
  destruct (find _ (towers st)) as [tower |]; [| apply sameLinks_refl].
  cbv zeta.
  match goal with
  | |- sameLinks st (if ?c then _ else _) => destruct c
  end.
  - eapply sameLinks_trans; [| apply showConfirmationModal_sameLinks].
    split; reflexivity.
  - split; reflexivity.
Qed.

Lemma resolve_sameLinks value (st : State) : sameLinks st (resolve value st).
Proof.
  unfold resolve. destruct (confirmAction st) as [[towerId] |];
    [| apply sameLinks_refl].
  unfold updateTowerFrequency_resume. destruct value; split; reflexivity.
Qed.

Lemma sameLinks_consistent (st st' : State) :
  sameLinks st st' -> linkIdCounter st' = linkIdCounter st ->
  fresnelConsistent st -> fresnelConsistent st'.
Proof.
  unfold sameLinks, fresnelConsistent, linkIdsFresh.
  intros [Hl Ha] Hc. rewrite Hl, Ha, Hc. tauto.
Qed.

(** With unique ids, mutating the first link of a given id is mutating
    every link of that id. *)
Lemma mutateFirst_unique_map (k : nat) (f : Link -> Link) (ls : list Link) :
  NoDup (List.map link_id ls) ->
  mutateFirst (fun l => Nat.eqb (link_id l) k) f ls =
  List.map (fun l => if Nat.eqb (link_id l) k then f l else l) ls.
Proof.
  induction ls as [| a ls IH]; simpl; intros Hnd; [reflexivity |].
  inversion Hnd as [| ? ? Hnotin Hnd']; subst.
  destruct (Nat.eqb (link_id a) k) eqn:Heq.
  - f_equal. symmetry. rewrite <- (map_id ls) at 2. apply map_ext_in.
    intros l Hl. destruct (Nat.eqb (link_id l) k) eqn:Hlk; [| reflexivity].
    exfalso. apply Hnotin. apply Nat.eqb_eq in Heq, Hlk.
    rewrite Heq, <- Hlk. now apply in_map.
  - f_equal. now apply IH.
Qed.

(** The links after the two mutations of a link found by id. *)
Lemma mutateLink_twice (k : nat) (f g : Link -> Link) (st : State) :
  NoDup (List.map link_id (links st)) ->
  (forall l, link_id (f l) = link_id l) ->
  links (mutateLink k g (mutateLink k f st)) =
  List.map (fun l => if Nat.eqb (link_id l) k then g (f l) else l) (links st).
Proof.
  intros Hnd Hf. simpl.
  rewrite (mutateFirst_unique_map k f (links st) Hnd).
  rewrite mutateFirst_unique_map.
  - rewrite map_map. apply map_ext. intros l.
    destruct (Nat.eqb (link_id l) k) eqn:Heq.
    + now rewrite Hf, Heq.
    + now rewrite Heq.
  - rewrite map_map.
    rewrite (map_ext (fun l => link_id (if Nat.eqb (link_id l) k then f l else l))
               link_id); [assumption |].
    intros l. destruct (Nat.eqb (link_id l) k); [apply Hf | reflexivity].
Qed.

Lemma consistent_inactive_noZones (st : State) :
  fresnelConsistent st -> activeLinkForFresnel st = None -> noZones st.
Proof.
  intros (_ & _ & Hz) Hnone l Hl.
  destruct (link_fresnelZone l) eqn:Hzone; [| reflexivity].
  assert (Hsome : activeLinkForFresnel st = Some (link_id l))
    by (apply Hz; [assumption | congruence]).
  congruence.
Qed.

(** Deactivation leaves no polygon on any link. *)
Lemma deactivateActiveFresnelZone_noZones (st : State) :
  fresnelConsistent st -> noZones (deactivateActiveFresnelZone st).
Proof.
  intros ([Hnd _] & _ & Hz). unfold deactivateActiveFresnelZone. cbv zeta.
  destruct (find _ (links st)) as [prev |] eqn:Hfind.
  - apply find_some in Hfind. destruct Hfind as [Hprev Hact].
    apply optNatEq_true in Hact.
    destruct (link_fresnelZone prev) eqn:Hzone.
    + unfold noZones, updateLinkList. intros l Hl.
      change (links (set_activeLinkForFresnel None ?s)) with (links s) in Hl.
      change (mutateLink (link_id prev) (with_polyline primary_color)
                (removeLayer (ZoneLayer (link_id prev)) st))
        with (removeLayer (ZoneLayer (link_id prev))
                (mutateLink (link_id prev) (with_polyline primary_color) st)) in Hl.
      change (links (mutateLink ?k ?g (removeLayer ?x ?s)))
        with (links (mutateLink k g s)) in Hl.
      rewrite mutateLink_twice in Hl by (assumption || reflexivity).
      apply in_map_iff in Hl. destruct Hl as [l0 [Hl0 Hin0]].
      destruct (Nat.eqb (link_id l0) (link_id prev)) eqn:Heq.
      * subst l. reflexivity.
      * subst l. destruct (link_fresnelZone l0) eqn:Hz0; [| reflexivity].
        assert (Hsome : activeLinkForFresnel st = Some (link_id l0))
          by (apply Hz; [assumption | congruence]).
        apply Nat.eqb_neq in Heq. congruence.
    + intros l Hl. simpl in Hl.
      destruct (link_fresnelZone l) eqn:Hz0; [| reflexivity].
      assert (Hsome : activeLinkForFresnel st = Some (link_id l))
        by (apply Hz; [assumption | congruence]).
      assert (l = prev)
        by (apply (NoDup_map_inj_in link_id (links st)); congruence).
      congruence.
  - intros l Hl. simpl in Hl.
    destruct (link_fresnelZone l) eqn:Hz0; [| reflexivity].
    assert (Hsome : activeLinkForFresnel st = Some (link_id l))
      by (apply Hz; [assumption | congruence]).
    pose proof (find_none _ _ Hfind l Hl) as Hno. cbv beta in Hno.
    rewrite Hsome in Hno. simpl in Hno. now rewrite Nat.eqb_refl in Hno.
Qed.

Lemma noZones_consistent (st : State) :
  linkIdsFresh st -> activeLinkForFresnel st = None -> noZones st ->
  fresnelConsistent st.
Proof.
  intros Hf Hnone Hz. split; [assumption |]. split.
  - intros a Ha. congruence.
  - intros l Hl Hzone. now rewrite (Hz l Hl) in Hzone.
Qed.

Lemma deactivateActiveFresnelZone_consistent (st : State) :
  fresnelConsistent st -> fresnelConsistent (deactivateActiveFresnelZone st).
Proof.
  intros Hc. apply noZones_consistent.
  - apply (sameLinkIds_fresh st);
      [apply deactivateActiveFresnelZone_sameLinkIds | apply Hc].
  - reflexivity.
  - now apply deactivateActiveFresnelZone_noZones.
Qed.

Lemma showFresnelZone_consistent (linkId : nat) (st : State) :
  fresnelConsistent st -> fresnelConsistent (showFresnelZone linkId st).
Proof.
  intros Hc.
  assert (Hfresh : linkIdsFresh (showFresnelZone linkId st)).
  { apply (sameLinkIds_fresh st);
      [apply showFresnelZone_sameLinkIds | apply Hc]. }
  unfold showFresnelZone in *.
  destruct (find _ (links st)) as [link |] eqn:Hfind; [| assumption].
  apply find_some in Hfind. destruct Hfind as [Hlink _].
  destruct (optNatEq (activeLinkForFresnel st) (link_id link));
    [now apply deactivateActiveFresnelZone_consistent |].
  cbv zeta in *. unfold updateLinkList in *.
  set (st1 := match activeLinkForFresnel st with
              | Some _ => deactivateActiveFresnelZone st
              | None => st
              end) in *.
  assert (Hids1 : sameLinkIds st st1).
  { unfold st1. destruct (activeLinkForFresnel st);
      [apply deactivateActiveFresnelZone_sameLinkIds | apply sameLinkIds_refl]. }
  assert (Hnd1 : NoDup (List.map link_id (links st1))).
  { destruct Hids1 as [-> _]. apply Hc. }
  assert (Hnz1 : noZones st1).
  { unfold st1. destruct (activeLinkForFresnel st) eqn:Hact.
    - now apply deactivateActiveFresnelZone_noZones.
    - now apply consistent_inactive_noZones. }
  match goal with
  | |- fresnelConsistent (mutateLink ?k ?g (mutateLink ?k ?f ?s)) =>
      assert (Hlinks : links (mutateLink k g (mutateLink k f s)) =
                List.map (fun l => if Nat.eqb (link_id l) k then g (f l) else l)
                  (links st1))
        by (apply (mutateLink_twice k f g s); [exact Hnd1 | reflexivity])
  end.
  split; [exact Hfresh |]. split.
  - intros a Ha. simpl in Ha. injection Ha as <-.
    destruct Hfresh as [_ _].
    rewrite Hlinks, map_map.
    rewrite (map_ext _ link_id).
    + destruct Hids1 as [-> _]. now apply in_map.
    + intros l. now destruct (Nat.eqb (link_id l) (link_id link)).
  - intros l Hl Hzone. rewrite Hlinks in Hl.
    apply in_map_iff in Hl. destruct Hl as [l0 [Hl0 Hin0]].
    destruct (Nat.eqb (link_id l0) (link_id link)) eqn:Heq.
    + subst l. apply Nat.eqb_eq in Heq. simpl. now rewrite Heq.
    + subst l. now rewrite (Hnz1 l0 Hin0) in Hzone.
Qed.

Lemma createLink_consistent (a b : nat) (st : State) :
  fresnelConsistent st -> fresnelConsistent (createLink a b st).
Proof.
  intros Hc. pose proof (createLink_fresh_ids a b st (proj1 Hc)) as Hfresh.
  destruct Hc as (_ & Ha & Hz).
  unfold createLink in *. cbv zeta in *.
  destruct (existsb _ (links st)).
  - split; [exact Hfresh |]. split; assumption.
  - split; [exact Hfresh |]. unfold updateLinkList. simpl. split.
    + intros x Hx. rewrite map_app. apply in_or_app. left. now apply Ha.
    + intros l Hl Hzone. apply in_app_or in Hl. destruct Hl as [Hl | [<- | []]].
      * now apply Hz.
      * now simpl in Hzone.
Qed.

Lemma performDeleteLink_consistent (linkId : nat) (st : State) :
  fresnelConsistent st -> fresnelConsistent (performDeleteLink linkId st).
Proof.
  intros Hc. pose proof (performDeleteLink_fresh_ids linkId st (proj1 Hc)) as Hfresh.
  destruct Hc as ([Hnd _] & Ha & Hz).
  destruct (performDeleteLink_effect linkId st Hnd)
    as (Hl & _ & _ & _ & Hmono & Hact & _).
  split; [exact Hfresh |]. split.
  - intros a Hsome.
    assert (Hold : activeLinkForFresnel st = Some a).
    { destruct Hmono as [Hm | Hm]; congruence. }
    specialize (Ha a Hold).
    rewrite Hl. apply in_map_iff in Ha. destruct Ha as [l [Hid Hin]].
    apply in_map_iff. exists l. split; [assumption |].
    apply filter_In. split; [assumption |].
    apply negb_true_iff, Nat.eqb_neq. intros Heq.
    rewrite Hact, Hold in Hsome. simpl in Hsome.
    assert (Hex : existsb (fun x => Nat.eqb (link_id x) linkId) (links st) = true).
    { apply existsb_exists. exists l. split; [assumption | now apply Nat.eqb_eq]. }
    rewrite Hex in Hsome.
    assert (Hal : Nat.eqb a linkId = true) by (apply Nat.eqb_eq; congruence).
    rewrite Hal in Hsome. discriminate.
  - intros l Hin Hzone. rewrite Hl in Hin. apply filter_In in Hin.
    destruct Hin as [Hin Hneq]. apply negb_true_iff, Nat.eqb_neq in Hneq.
    specialize (Hz l Hin Hzone). rewrite Hact, Hz. simpl.
    destruct (Nat.eqb (link_id l) linkId) eqn:Heq; [| reflexivity].
    apply Nat.eqb_eq in Heq. contradiction.
Qed.

Lemma fold_performDeleteLink_consistent (ids : list nat) (st : State) :
  fresnelConsistent st ->
  fresnelConsistent (fold_left (fun st id => performDeleteLink id st) ids st).
Proof.
  revert st. induction ids as [| id ids IH]; intros st Hc; simpl; [assumption |].
  apply IH. now apply performDeleteLink_consistent.
Qed.

Lemma performDeleteTower_consistent (towerId : nat) (st : State) :
  fresnelConsistent st -> fresnelConsistent (performDeleteTower towerId st).
Proof.
  intros Hc. unfold performDeleteTower.
  destruct (findIndex _ (towers st)) as [i |]; [| assumption].
  destruct (nth_error (towers st) i) as [tower |]; [| assumption].
  cbv zeta. rewrite fold_links_as_ids.
  unfold updateLinkList, updateTowerList.
  match goal with
  | |- fresnelConsistent (set_towers _ (removeLayer _ ?s)) =>
      apply (sameLinks_consistent s); [split; reflexivity | reflexivity |]
  end.
  now apply fold_performDeleteLink_consistent.
Qed.

Lemma handleTowerClickForLink_consistent (tower : nat) (st : State) :
  fresnelConsistent st -> fresnelConsistent (handleTowerClickForLink tower st).
Proof.
  intros Hc. unfold handleTowerClickForLink. cbv zeta.
  match goal with
  | |- fresnelConsistent (match selectedTowers ?s with _ => _ end) =>
      set (s1 := s)
  end.
  assert (Hs : fresnelConsistent s1).
  { unfold s1. destruct (findIndex _ (selectedTowers st));
      (eapply sameLinks_consistent; [| | exact Hc]); try split; reflexivity. }
  clearbody s1.
  destruct (selectedTowers s1) as [| t1 [| t2 [| t3 rest]]]; try exact Hs.
  match goal with
  | |- fresnelConsistent (clearTowerSelection ?x) =>
      pose proof (clearTowerSelection_sameRegistry x) as Hreg
  | |- fresnelConsistent (if ?c then clearTowerSelection ?x
                          else clearTowerSelection ?y) =>
      pose proof (clearTowerSelection_sameRegistry x) as Hregx;
      pose proof (clearTowerSelection_sameRegistry y) as Hregy;
      destruct c
  end.
  - eapply sameLinks_consistent;
      [apply sameRegistry_sameLinks, Hregx | apply Hregx |].
    eapply sameLinks_consistent; [| | exact Hs]; try split; reflexivity.
  - eapply sameLinks_consistent;
      [apply sameRegistry_sameLinks, Hregy | apply Hregy |].
    now apply createLink_consistent.
Qed.

Lemma runCallback_consistent (cb : ConfirmCallback) (st : State) :
  fresnelConsistent st -> fresnelConsistent (runCallback cb st).
Proof.
  intros Hc. destruct cb; simpl.
  - destruct (find _ (towers st)); [assumption |].
    now apply performDeleteTower_consistent.
  - now apply performDeleteLink_consistent.
  - now apply fold_performDeleteLink_consistent.
Qed.

Lemma resolve_consistent (value : bool) (st : State) :
  fresnelConsistent st -> fresnelConsistent (resolve value st).
Proof.
  intros Hc. eapply sameLinks_consistent; [apply resolve_sameLinks | | exact Hc].
  apply resolve_sameLinkIds.
Qed.

Lemma handleEvent_consistent (e : Event) (st : State) :
  fresnelConsistent st -> fresnelConsistent (handleEvent e st).
Proof.
  intros Hc. destruct e; simpl.
  - unfold handleMapClick. destruct (mode st); [| assumption].
    eapply sameLinks_consistent; [| | exact Hc]; try split; reflexivity.
  - eapply sameLinks_consistent;
      [apply saveTower_sameLinks | apply saveTower_sameLinkIds | exact Hc].
  - eapply sameLinks_consistent; [| | exact Hc]; try split; reflexivity.
  - destruct (existsb _ (mapLayers st)); [| assumption].
    destruct (mode st); [assumption |].
    now apply handleTowerClickForLink_consistent.
  - eapply sameLinks_consistent;
      [apply setMode_sameLinks | apply setMode_sameLinkIds | exact Hc].
  - now apply showFresnelZone_consistent.
  - unfold requestDeleteTower. destruct (find _ (towers st)); [| assumption].
    eapply sameLinks_consistent;
      [apply showConfirmationModal_sameLinks
      | apply showConfirmationModal_sameLinkIds | exact Hc].
  - unfold deleteLink. destruct (find _ (links st)); [| assumption].
    eapply sameLinks_consistent;
      [apply showConfirmationModal_sameLinks
      | apply showConfirmationModal_sameLinkIds | exact Hc].
  - eapply sameLinks_consistent;
      [apply updateTowerFrequency_sameLinks
      | apply updateTowerFrequency_sameLinkIds | exact Hc].
  - unfold handleConfirm. destruct (confirmModal st) as [m |]; [| assumption].
    cbv zeta.
    assert (Hh : fresnelConsistent
                   (hideConfirmationModal (runCallback (modal_onConfirm m) st))).
    { eapply sameLinks_consistent;
        [| | apply runCallback_consistent; exact Hc]; try split; reflexivity. }
    destruct (modal_returnPromise m); [| assumption].
    now apply resolve_consistent.
  - unfold handleCancel. destruct (confirmModal st) as [m |]; [| assumption].
    cbv zeta.
    assert (Hh : fresnelConsistent (hideConfirmationModal st)).
    { eapply sameLinks_consistent; [| | exact Hc]; try split; reflexivity. }
    destruct (modal_returnPromise m); [| assumption].
    now apply resolve_consistent.
  - eapply sameLinks_consistent; [| | exact Hc]; try split; reflexivity.
  - now apply performDeleteTower_consistent.
Qed.

(** In every reachable state the active link is in the collection and
    is the only link that can carry a Fresnel polygon. *)
Lemma reachable_consistent (st : State) : reachable st -> fresnelConsistent st.
Proof.
  induction 1 as [| e st _ IH].
  - split; [split; simpl; constructor |].
    split; [intros a Ha; discriminate | intros l []].
  - now apply handleEvent_consistent.
Qed.

Lemma zone_holders_active (st : State) :
  fresnelConsistent st ->
  forall l, In l (links st) -> link_fresnelZone l <> None -> isActive st l = true.
Proof.
  intros (_ & _ & Hz) l Hl Hzone. unfold isActive.
  rewrite (Hz l Hl Hzone). simpl. apply Nat.eqb_refl.
Qed.

Lemma filter_length_le {A : Type} (p q : A -> bool) (l : list A) :
  (forall x, In x l -> p x = true -> q x = true) ->
  (List.length (filter p l) <= List.length (filter q l))%nat.
Proof.
  induction l as [| a l IH]; simpl; intros H; [lia |].
  assert (IH' : (List.length (filter p l) <= List.length (filter q l))%nat).
  { apply IH. intros x Hx. apply H. now right. }
  destruct (p a) eqn:Hpa.
  - rewrite (H a (or_introl eq_refl) Hpa). simpl. lia.
  - destruct (q a); simpl; lia.
Qed.

(** C4.  In every reachable state at most one link is the active
    Fresnel link ([state.activeLinkForFresnel === link.id]), and a link
    carries a Fresnel polygon only if it is that link, so at most one
    link carries one.  A click on link [x] (when it is not the active
    one) makes [x] the one active link; a following click on another
    link [y] makes [y] the one active link; a further click on [y]
    leaves no active link; and deleting the active link clears
    [activeLinkForFresnel]. *)
Theorem fresnel_zone_singleton :
  (forall st, reachable st ->
     (List.length (activeLinks st) <= 1)%nat
     /\ (forall l, In l (links st) -> hasZone l = true -> isActive st l = true)
     /\ (List.length (filter hasZone (links st)) <= 1)%nat)
  /\ (forall st x y,
        reachable st ->
        In x (List.map link_id (links st)) ->
        In y (List.map link_id (links st)) -> x <> y ->
        let stX := showFresnelZone x st in
        let stXY := showFresnelZone y stX in
        let stXYY := showFresnelZone y stXY in
        (activeLinkForFresnel st <> Some x ->
           List.map link_id (activeLinks stX) = [x])
        /\ List.map link_id (activeLinks stXY) = [y]
        /\ activeLinkForFresnel stXYY = None
        /\ activeLinks stXYY = [])
  /\ (forall st a,
        reachable st ->
        activeLinkForFresnel st = Some a ->
        In a (List.map link_id (links st))
        /\ activeLinkForFresnel (performDeleteLink a st) = None
        /\ activeLinks (performDeleteLink a st) = []).
Proof.
  split; [| split].
  - intros st Hr. pose proof (reachable_consistent st Hr) as Hc.
    destruct (reachable_fresh_ids st Hr) as [Hnd _].
    assert (Hle : (List.length (activeLinks st) <= 1)%nat).
    { unfold activeLinks, isActive. now apply NoDup_filter_id_le1. }
    assert (Hzone : forall l, In l (links st) -> hasZone l = true ->
                      isActive st l = true).
    { intros l Hl Hz. apply (zone_holders_active st Hc l Hl).
      unfold hasZone in Hz. destruct (link_fresnelZone l); congruence. }
    split; [exact Hle |]. split; [exact Hzone |].
    apply Nat.le_trans with (List.length (activeLinks st)); [| exact Hle].
    unfold activeLinks. now apply filter_length_le.
  - intros st x y Hr Hx Hy Hxy stX stXY stXYY.
    destruct (reachable_fresh_ids st Hr) as [Hnd _].
    destruct (showFresnelZone_sameLinkIds x st) as [HidsX _].
    fold stX in HidsX.
    destruct (showFresnelZone_sameLinkIds y stX) as [HidsXY _].
    fold stXY in HidsXY.
    assert (HactX : activeLinkForFresnel stX =
                    if optNatEq (activeLinkForFresnel st) x then None else Some x)
      by (apply showFresnelZone_active; assumption).
    assert (HactXY : activeLinkForFresnel stXY = Some y).
    { unfold stXY. rewrite showFresnelZone_active by (rewrite HidsX; assumption).
      rewrite HactX.
      destruct (optNatEq (activeLinkForFresnel st) x); simpl; [reflexivity |].
      destruct (Nat.eqb x y) eqn:Heq; [| reflexivity].
      apply Nat.eqb_eq in Heq. contradiction. }
    assert (HactXYY : activeLinkForFresnel stXYY = None).
    { unfold stXYY. rewrite showFresnelZone_active
        by (rewrite HidsXY, HidsX; assumption).
      rewrite HactXY. simpl. now rewrite Nat.eqb_refl. }
    split; [| split; [| split]].
    + intros Hnot. apply activeLinks_some.
      * now rewrite HidsX.
      * now rewrite HidsX.
      * rewrite HactX. apply optNatEq_false in Hnot. now rewrite Hnot.
    + apply activeLinks_some; [| | assumption]; now rewrite HidsXY, HidsX.
    + exact HactXYY.
    + now apply activeLinks_none.
  - intros st a Hr Hact.
    destruct (reachable_consistent st Hr) as ([Hnd _] & Hin & _).
    specialize (Hin a Hact).
    destruct (performDeleteLink_effect a st Hnd) as (_ & _ & _ & _ & _ & Ha & _).
    assert (Hnone : activeLinkForFresnel (performDeleteLink a st) = None).
    { rewrite Ha, Hact. simpl. rewrite Nat.eqb_refl.
      destruct (find_by_id _ _ Hin) as [link [Hfind Hid]].
      apply find_some in Hfind.
      rewrite (proj2 (existsb_exists _ _)); [reflexivity |].
      exists link. tauto. }
    split; [exact Hin |]. split; [exact Hnone | now apply activeLinks_none].
Qed.

(** ** The example registries *)

Ltac decide_reals :=
  repeat match goal with
  | |- context [Req_EM_T ?a ?b] => destruct (Req_EM_T a b); [try lra | try lra]
  | |- context [Rle_dec ?a ?b] => destruct (Rle_dec a b); [try lra | try lra]
  | |- context [Rlt_dec ?a ?b] => destruct (Rlt_dec a b); [try lra | try lra]
  end.

(** Evaluation of a closed state expression, the arithmetic left as
    it stands and the comparisons decided by [lra]. *)
Ltac evaluate :=
  repeat (progress (
    cbv -[calculateDistance calculateBearing calculateFresnelRadius
          calculateWavelength Rplus Rmult Rminus Rdiv Ropp Rinv IZR
          Req_EM_T Rle_dec Rlt_dec sqrt sin cos atan PI];
    decide_reals)).

(** One gesture at a time, innermost first: a gesture is evaluated
    once the state it applies to is known. *)
Ltac eval_events :=
  unfold run; cbn [fold_left];
  repeat match goal with
  | |- context [handleEvent ?e ?st] =>
      lazymatch st with
      | context [handleEvent] => fail
      | _ =>
          let s := fresh "s" in
          evar (s : State);
          replace (handleEvent e st) with s
            by (subst s; symmetry; evaluate; reflexivity);
          subst s
      end
  end.

Ltac run_events := eval_events; reflexivity.

Lemma run_reachable (events : list Event) (st : State) :
  reachable st -> reachable (run events st).
Proof.
  revert st. induction events as [| e events IH]; intros st Hr; simpl.
  - exact Hr.
  - apply IH. now constructor.
Qed.

Lemma exampleNetwork_run :
  run exampleNetworkEvents (setMode Mode_addTower initialState) = exampleNetwork.
Proof. unfold exampleNetworkEvents. run_events. Qed.

Lemma exampleOneTower_run :
  run exampleOneTowerEvents (setMode Mode_addTower initialState) = exampleOneTower.
Proof. unfold exampleOneTowerEvents. run_events. Qed.

Lemma exampleMixed_run :
  run exampleMixedEvents (setMode Mode_addTower initialState) = exampleMixed.
Proof. unfold exampleMixedEvents. run_events. Qed.

Lemma exampleNetwork_reachable : reachable exampleNetwork.
Proof.
  rewrite <- exampleNetwork_run. apply run_reachable. constructor.
Qed.

Lemma exampleOneTower_reachable : reachable exampleOneTower.
Proof.
  rewrite <- exampleOneTower_run. apply run_reachable. constructor.
Qed.

Lemma exampleMixed_reachable : reachable exampleMixed.
Proof.
  rewrite <- exampleMixed_run. apply run_reachable. constructor.
Qed.

Lemma exampleNetwork_uniqueIds : uniqueIds exampleNetwork.
Proof.
  split; simpl; repeat constructor; simpl; intuition discriminate.
Qed.

Lemma exampleNetwork_noDangling : noDangling exampleNetwork.
Proof.
  intros link [<- | [<- | [<- | []]]]; simpl; tauto.
Qed.

(** C3.  The specification asks that after the deletion of a tower,
    in every registry state, the two endpoints of every remaining link
    are in the tower collection.  [performDeleteTower] does not do
    that: it never touches [state.selectedTowers], so a tower deleted
    while it is selected stays selected and the next click on a marker
    links it.  In the state reached by [deleteWhileSelectedEvents] the
    ids are unique, the towers are 2 and 3, and the only link joins the
    deleted tower 1 to tower 2; deleting tower 3 there removes tower 3
    and no link, and the link that remains still has an endpoint that
    is not in the tower collection. *)
Theorem deleted_tower_stays_selected :
  (forall towerId st,
     selectedTowers (performDeleteTower towerId st) = selectedTowers st)
  /\ let st :=
       run deleteWhileSelectedEvents (setMode Mode_addTower initialState) in
     let st' := performDeleteTower 3 st in
     reachable st
     /\ uniqueIds st
     /\ towers st = [2%nat; 3%nat]
     /\ List.map (fun l => (link_id l, link_tower1 l, link_tower2 l)) (links st)
        = [(1%nat, 1%nat, 2%nat)]
     /\ towers st' = [2%nat]
     /\ List.map (fun l => (link_id l, link_tower1 l, link_tower2 l)) (links st')
        = [(1%nat, 1%nat, 2%nat)]
     /\ ~ noDangling st'.
Proof.
  split.
  { intros towerId st. unfold performDeleteTower.
    destruct (findIndex _ (towers st)) as [i |]; [| reflexivity].
    destruct (nth_error (towers st) i) as [tower |]; [| reflexivity].
    cbv zeta. rewrite fold_links_as_ids. unfold updateLinkList, updateTowerList.
    simpl. generalize (List.map link_id
                         (filter (fun link => Nat.eqb (link_tower1 link) towerId
                                              || Nat.eqb (link_tower2 link) towerId)
                            (links st))).
    intros ids. revert st. induction ids as [| id ids IH]; intros st; simpl;
      [reflexivity |].
    rewrite IH. unfold performDeleteLink.
    destruct (findIndex _ (links st)) as [k |]; [| reflexivity].
    destruct (nth_error (links st) k) as [link |]; [| reflexivity].
    cbv zeta. unfold updateLinkList.
    destruct (link_fresnelZone link); simpl;
      destruct (optNatEq (activeLinkForFresnel st) id); reflexivity. }
  intros st st'.
  assert (Hr : reachable st) by (apply run_reachable; constructor).
  assert (Ht : towers st = [2%nat; 3%nat]).
  { unfold st, deleteWhileSelectedEvents. eval_events. reflexivity. }
  assert (Hl : List.map (fun l => (link_id l, link_tower1 l, link_tower2 l))
                 (links st) = [(1%nat, 1%nat, 2%nat)]).
  { unfold st, deleteWhileSelectedEvents. eval_events. reflexivity. }
  assert (Hst' : st' = run (deleteWhileSelectedEvents ++ [TowerItemAnimationEnd 3])
                         (setMode Mode_addTower initialState)).
  { unfold st', st, run. rewrite fold_left_app. reflexivity. }
  assert (Ht' : towers st' = [2%nat]).
  { rewrite Hst'. unfold deleteWhileSelectedEvents. cbn [app].
    eval_events. reflexivity. }
  assert (Hl' : List.map (fun l => (link_id l, link_tower1 l, link_tower2 l))
                  (links st') = [(1%nat, 1%nat, 2%nat)]).
  { rewrite Hst'. unfold deleteWhileSelectedEvents. cbn [app].
    eval_events. reflexivity. }
  split; [exact Hr |]. split.
  { split.
    - rewrite Ht. repeat constructor; simpl; intuition discriminate.
    - replace (List.map link_id (links st)) with [1%nat].
      + repeat constructor. intros [].
      + assert (E : List.map link_id (links st)
                    = List.map (fun x => fst (fst x))
                        (List.map (fun l => (link_id l, link_tower1 l, link_tower2 l))
                           (links st))).
        { rewrite map_map. reflexivity. }
        rewrite E, Hl. reflexivity. }
  split; [exact Ht |]. split; [exact Hl |]. split; [exact Ht' |].
  split; [exact Hl' |].
  intros Hd.
  destruct (links st') as [| l [| l' ls]] eqn:Hlinks; try discriminate Hl'.
  simpl in Hl'. injection Hl' as _ H1 H2.
  destruct (Hd l) as [Hin _]; [rewrite Hlinks; now left |].
  rewrite Ht', H1 in Hin. simpl in Hin. intuition discriminate.
Qed.

Lemma pairing_checks_frequency_witness :
  reachable exampleMixed
  /\ selectedTowers exampleMixed = [1%nat]
  /\ tower_frequency (deref exampleMixed 1) = 5.0
  /\ tower_frequency (deref exampleMixed 2) = 5.0
  /\ tower_frequency (deref exampleMixed 3) = 5.1
  /\ links (handleTowerClickForLink 3 exampleMixed) = links exampleMixed
  /\ notifications (handleTowerClickForLink 3 exampleMixed) =
     [FrequencyMismatch 5.0 5.1]
  /\ links (handleTowerClickForLink 2 exampleMixed) =
     [mkLink 1 1 2 5.0 (calculateDistance 40 (-74) 41 (-74)) primary_color None].
Proof.
  destruct (pairing_checks_frequency exampleMixed 1 3 eq_refl) as [Hmis _];
    [discriminate |].
  destruct (pairing_checks_frequency exampleMixed 1 2 eq_refl) as [_ Hok];
    [discriminate |].
  simpl in Hmis, Hok.
  destruct Hmis as (H1 & _ & _ & H2 & _); [lra |].
  destruct Hok as (H3 & _); [reflexivity | intros link [] |].
  split; [exact exampleMixed_reachable |].
  split; [reflexivity |]. split; [reflexivity |].
  split; [reflexivity |]. split; [reflexivity |].
  split; [exact H1 |]. split; [exact H2 | exact H3].
Defined.

Lemma performDeleteTower_cascade_witness :
  uniqueIds exampleNetwork /\ noDangling exampleNetwork
  /\ In 1%nat (towers exampleNetwork)
  /\ List.length (filter (references 1) (links exampleNetwork)) = 2%nat
  /\ links (performDeleteTower 1 exampleNetwork) =
     [exampleLink 3 2 3 41 (-74) 40 (-73)]
  /\ towers (performDeleteTower 1 exampleNetwork) = [2; 3]%nat
  /\ noDangling (performDeleteTower 1 exampleNetwork).
Proof.
  assert (Hin : In 1%nat (towers exampleNetwork)) by (simpl; tauto).
  destruct (performDeleteTower_cascade exampleNetwork 1
              exampleNetwork_uniqueIds exampleNetwork_noDangling Hin)
    as (Hl & Ht & _ & _ & Hd & _).
  split; [exact exampleNetwork_uniqueIds |].
  split; [exact exampleNetwork_noDangling |].
  split; [exact Hin |].
  split; [reflexivity |].
  split; [exact Hl |].
  split; [exact Ht | exact Hd].
Defined.

Lemma createLink_duplicate_witness :
  In (exampleLink 1 1 2 40 (-74) 41 (-74)) (links exampleNetwork)
  /\ linksPair 1 2 (exampleLink 1 1 2 40 (-74) 41 (-74))
  /\ links (createLink 1 2 exampleNetwork) = links exampleNetwork
  /\ links (createLink 2 1 exampleNetwork) = links exampleNetwork
  /\ notifications (createLink 2 1 exampleNetwork) = [LinkAlreadyExists].
Proof.
  assert (Hin : In (exampleLink 1 1 2 40 (-74) 41 (-74)) (links exampleNetwork))
    by (simpl; tauto).
  assert (Hpair : linksPair 1 2 (exampleLink 1 1 2 40 (-74) 41 (-74)))
    by (left; split; reflexivity).
  destruct (createLink_duplicate exampleNetwork 1 2 _ Hin Hpair)
    as (_ & Hba & Hl1 & Hl2 & _).
  split; [exact Hin |]. split; [exact Hpair |].
  split; [exact Hl1 |]. split; [exact Hl2 |].
  rewrite Hba. reflexivity.
Defined.

Lemma fresnel_zone_singleton_witness :
  reachable exampleNetwork
  /\ (List.length (activeLinks exampleNetwork) <= 1)%nat
  /\ List.map link_id
       (activeLinks (showFresnelZone 2 (showFresnelZone 1 exampleNetwork)))
     = [2%nat]
  /\ activeLinks
       (showFresnelZone 2 (showFresnelZone 2 (showFresnelZone 1 exampleNetwork)))
     = []
  /\ activeLinkForFresnel (showFresnelZone 1 exampleNetwork) = Some 1%nat
  /\ activeLinkForFresnel
       (performDeleteLink 1 (showFresnelZone 1 exampleNetwork)) = None.
Proof.
  destruct fresnel_zone_singleton as (Hat_most & Htoggle & Hdelete).
  pose proof exampleNetwork_reachable as Hr.
  assert (H1 : In 1%nat (List.map link_id (links exampleNetwork)))
    by (simpl; tauto).
  assert (H2 : In 2%nat (List.map link_id (links exampleNetwork)))
    by (simpl; tauto).
  destruct (Htoggle exampleNetwork 1%nat 2%nat Hr H1 H2) as (_ & Hy & _ & Hyy);
    [discriminate |].
  assert (Hact : activeLinkForFresnel (showFresnelZone 1 exampleNetwork)
                 = Some 1%nat) by reflexivity.
  assert (Hr1 : reachable (showFresnelZone 1 exampleNetwork))
    by exact (reachable_step (LinkClick 1) _ Hr).
  destruct (Hdelete _ 1%nat Hr1 Hact) as (_ & Hnone & _).
  split; [exact Hr |].
  split; [exact (proj1 (Hat_most _ Hr)) |].
  split; [exact Hy |].
  split; [exact Hyy |].
  split; [exact Hact | exact Hnone].
Defined.

(** ** Frequency edit *)

(** [hideConfirmationModal] clears [state.confirmAction], so the
    [resolve] that follows it in both button handlers finds [null]:
    the awaited promise is never resolved. *)
Lemma resolve_after_hide (value : bool) (st : State) :
  resolve value (hideConfirmationModal st) = hideConfirmationModal st.
Proof. reflexivity. Qed.

Lemma handleCancel_hides (st : State) :
  handleCancel st =
  match confirmModal st with
  | Some _ => hideConfirmationModal st
  | None => st
  end.
Proof.
  unfold handleCancel. destruct (confirmModal st) as [m |]; [| reflexivity].
  cbv zeta. rewrite resolve_after_hide. now destruct (modal_returnPromise m).
Qed.

(** Cancelling changes neither the store of tower objects nor the two
    collections: whatever [updateTowerFrequency] wrote before the
    confirmation stays written. *)
Lemma handleCancel_keeps_registry (st : State) :
  heap (handleCancel st) = heap st
  /\ towers (handleCancel st) = towers st
  /\ links (handleCancel st) = links st.
Proof.
  rewrite handleCancel_hides. destruct (confirmModal st); repeat split.
Qed.

(** C8.  [updateTowerFrequency] has no validation: on the registry
    with the single tower 1 at 5 GHz, the new frequencies [-1] and [0]
    are stored in the tower and shown in its popup, with no
    notification and no confirmation request.  (The specification
    asks for a validation failure that leaves the frequency
    unchanged.) *)
Theorem updateTowerFrequency_stores_nonpositive :
  reachable exampleOneTower
  /\ tower_frequency (deref exampleOneTower 1) = 5
  /\ tower_frequency
       (deref (handleEvent (FrequencyInputChange 1 (-1)) exampleOneTower) 1)
     = -1
  /\ tower_frequency
       (deref (handleEvent (FrequencyInputChange 1 0) exampleOneTower) 1)
     = 0
  /\ marker_popup
       (tower_marker
          (deref (handleEvent (FrequencyInputChange 1 (-1)) exampleOneTower) 1))
     = ("Tower 1"%string, -1)
  /\ notifications (handleEvent (FrequencyInputChange 1 (-1)) exampleOneTower)
     = []
  /\ confirmModal (handleEvent (FrequencyInputChange 1 (-1)) exampleOneTower)
     = None.
Proof.
  split; [exact exampleOneTower_reachable |].
  repeat split.
Qed.

(** The same input through the tower form is rejected: [saveTower]
    checks [frequency <= 0]. *)
Lemma saveTower_rejects_nonpositive (name : string) (frequency : R) (st : State) :
  frequency <= 0 ->
  saveTower name frequency st = showNotification InvalidTowerDetails st.
Proof.
  intros Hle. unfold saveTower, numLe.
  destruct (Rle_dec frequency 0); [| contradiction].
  now rewrite orb_true_r.
Qed.

(** C9.  On the example network (towers 1, 2, 3 at 5 GHz, links 1-2,
    1-3, 2-3), changing tower 1 to 6 GHz asks for confirmation with the
    two links 1 and 2 to remove.  After the cancel button the modal is
    closed, but tower 1 is still at 6 GHz, its popup shows 6 GHz and
    the two mismatched links are still in the collection: the state is
    not the one before the request.  (The specification asks for the
    state to be exactly as before.)  The code after the [await], had
    it run with [false], would have restored 5 GHz. *)
Theorem cancel_does_not_revert_frequency :
  let st1 := handleEvent (FrequencyInputChange 1 6) exampleNetwork in
  let st2 := handleEvent CancelConfirmClick st1 in
  reachable exampleNetwork
  /\ confirmModal st1 = Some (mkConfirmModal (cb_removeInvalidLinks [1; 2]%nat) true)
  /\ confirmAction st1 = Some (resolve_updateTowerFrequency 1)
  /\ tower_frequency (deref exampleNetwork 1) = 5
  /\ confirmModal st2 = None
  /\ tower_frequency (deref st2 1) = 6
  /\ marker_popup (tower_marker (deref st2 1)) = ("Tower 1"%string, 6)
  /\ links st2 = links exampleNetwork
  /\ towers st2 = towers exampleNetwork
  /\ st2 <> exampleNetwork
  /\ tower_frequency (deref (updateTowerFrequency_resume 1 false st1) 1) = 5.
Proof.
  intros st1 st2.
  assert (Hst1 : st1 =
            set_confirmAction (Some (resolve_updateTowerFrequency 1))
              (set_confirmModal
                 (Some (mkConfirmModal (cb_removeInvalidLinks [1; 2]%nat) true))
                 (setPopupContent 1 ("Tower 1"%string, 6)
                    (mutate 1 (with_frequency 6) exampleNetwork)))).
  { unfold st1. evaluate; try reflexivity. }
  assert (Hst2 : st2 = hideConfirmationModal st1).
  { unfold st2. simpl handleEvent. rewrite handleCancel_hides.
    now rewrite Hst1. }
  assert (Hfreq : tower_frequency (deref st2 1) = 6)
    by (rewrite Hst2, Hst1; reflexivity).
  split; [exact exampleNetwork_reachable |].
  split; [rewrite Hst1; reflexivity |].
  split; [rewrite Hst1; reflexivity |].
  split; [reflexivity |].
  split; [rewrite Hst2; reflexivity |].
  split; [exact Hfreq |].
  split; [rewrite Hst2, Hst1; reflexivity |].
  split; [rewrite Hst2, Hst1; reflexivity |].
  split; [rewrite Hst2, Hst1; reflexivity |].
  split.
  - intros Heq. rewrite Heq in Hfreq. simpl in Hfreq. lra.
  - rewrite Hst1. evaluate; try reflexivity.
Qed.

(** * Further properties of the geometry engine *)

(** X1.  Over the reals: for a link of [d] kilometres at [f] GHz (both
    positive) the formula [showFresnelZone] evaluates, the Fresnel
    radius at the midpoint for the wavelength of [f], has the value
    [sqrt (75 * d / f)] metres, which is positive.  (The double the
    code computes is this value up to rounding.) *)
Theorem fresnel_radius_of_frequency (f d : R) :
  0 < f -> 0 < d ->
  calculateFresnelRadius (calculateWavelength f) (d / 2) (d / 2)
  = sqrt (75 * d / f)
  /\ 0 < calculateFresnelRadius (calculateWavelength f) (d / 2) (d / 2).
Proof.
  intros Hf Hd.
  assert (Heq : calculateFresnelRadius (calculateWavelength f) (d / 2) (d / 2)
                = sqrt (75 * d / f)).
  { unfold calculateFresnelRadius, calculateWavelength, SPEED_OF_LIGHT.
    cbv zeta. f_equal. field. lra. }
  split; [exact Heq |].
  rewrite Heq. apply sqrt_lt_R0.
  apply Rmult_lt_0_compat; [lra | now apply Rinv_0_lt_compat].
Qed.

Lemma fresnel_radius_of_frequency_witness :
  0 < 5 /\ 0 < 10
  /\ calculateFresnelRadius (calculateWavelength 5) (10 / 2) (10 / 2)
     = sqrt (75 * 10 / 5).
Proof.
  split; [lra | split; [lra |]].
  apply (fresnel_radius_of_frequency 5 10); lra.
Defined.

(** X2.  Over the reals: the formula of [calculateFresnelRadius] is
    symmetric in the two distances, and among the points of a link the
    midpoint has the largest radius: for distances [d1], [d2] to the
    two ends, the radius is at most the one at [(d1 + d2) / 2], where
    [showFresnelZone] evaluates it.  (In doubles both hold up to
    rounding only.) *)
Theorem fresnel_radius_max_at_midpoint (wavelength d1 d2 : R) :
  0 <= wavelength -> 0 <= d1 -> 0 <= d2 -> 0 < d1 + d2 ->
  calculateFresnelRadius wavelength d1 d2
  = calculateFresnelRadius wavelength d2 d1
  /\ calculateFresnelRadius wavelength d1 d2
     <= calculateFresnelRadius wavelength ((d1 + d2) / 2) ((d1 + d2) / 2).
Proof.
  intros Hw H1 H2 Hs. unfold calculateFresnelRadius. cbv zeta. split.
  - f_equal. f_equal; ring.
  - apply sqrt_le_1_alt.
    assert (Hamgm : d1 * d2 <= (d1 + d2) / 2 * ((d1 + d2) / 2)).
    { pose proof (Rle_0_sqr ((d1 - d2) / 2)) as Hsq. unfold Rsqr in Hsq.
      replace ((d1 + d2) / 2 * ((d1 + d2) / 2))
        with (d1 * d2 + (d1 - d2) / 2 * ((d1 - d2) / 2)) by field.
      lra. }
    replace (wavelength * (d1 * 1000) * (d2 * 1000) / (d1 * 1000 + d2 * 1000))
      with (wavelength * 1000 * (d1 * d2) * / (d1 + d2)) by (field; lra).
    replace (wavelength * ((d1 + d2) / 2 * 1000) * ((d1 + d2) / 2 * 1000)
             / ((d1 + d2) / 2 * 1000 + (d1 + d2) / 2 * 1000))
      with (wavelength * 1000 * ((d1 + d2) / 2 * ((d1 + d2) / 2)) * / (d1 + d2))
      by (field; lra).
    apply Rmult_le_compat_r; [left; now apply Rinv_0_lt_compat |].
    apply Rmult_le_compat_l; [lra | exact Hamgm].
Qed.

Lemma fresnel_radius_max_at_midpoint_witness :
  0 <= 0.06 /\ 0 <= 2 /\ 0 <= 8 /\ 0 < 2 + 8
  /\ calculateFresnelRadius 0.06 2 8
     <= calculateFresnelRadius 0.06 ((2 + 8) / 2) ((2 + 8) / 2).
Proof.
  split; [lra |]. split; [lra |]. split; [lra |]. split; [lra |].
  apply (fresnel_radius_max_at_midpoint 0.06 2 8); lra.
Defined.

(** X3.  [toDegrees] and [toRadians] are inverse to each other. *)
Theorem degrees_radians_roundtrip (x : R) :
  toDegrees (toRadians x) = x /\ toRadians (toDegrees x) = x.
Proof.
  pose proof PI_RGT_0. unfold toDegrees, toRadians. split; field; lra.
Qed.

Lemma toRadians_sub (x y : R) : toRadians (x - y) = toRadians x - toRadians y.
Proof. unfold toRadians. lra. Qed.

(** The Haversine term [a] of two points. *)
Lemma atan2_first_quadrant (y x : R) :
  0 <= y -> 0 <= x -> 0 <= Math.atan2 y x <= PI / 2.
Proof.
  intros Hy Hx. pose proof PI_RGT_0. unfold Math.atan2.
  destruct (Rlt_dec 0 x) as [Hpos | Hnpos].
  - pose proof (atan_bound (y / x)).
    assert (0 <= atan (y / x)).
    { assert (Hq : 0 <= y / x).
      { unfold Rdiv. apply Rmult_le_pos; [assumption |].
        left. now apply Rinv_0_lt_compat. }
      destruct Hq as [Hq | <-]; [| rewrite atan_0; lra].
      left. rewrite <- atan_0. now apply atan_increasing. }
    lra.
  - destruct (Rlt_dec x 0); [lra |].
    destruct (Rlt_dec 0 y); [lra |].
    destruct (Rlt_dec y 0); lra.
Qed.

Lemma haversine_term_bounds (p1 p2 dLon : R) :
  0 <= sin ((p2 - p1) / 2) * sin ((p2 - p1) / 2)
       + cos p1 * cos p2 * sin (dLon / 2) * sin (dLon / 2) <= 1.
Proof.
  set (u := (p2 - p1) / 2).
  assert (Hk : cos p1 * cos p2 = (cos (p1 + p2) + cos (2 * u)) / 2).
  { replace (2 * u) with (p2 - p1) by (unfold u; field).
    rewrite cos_plus, cos_minus. field. }
  rewrite cos_2a_sin in Hk.
  pose proof (COS_bound (p1 + p2)) as [Hc1 Hc2].
  pose proof (SIN_bound u) as [Hs1 Hs2].
  pose proof (SIN_bound (dLon / 2)) as [Ht1 Ht2].
  set (s := sin u) in *. set (t := sin (dLon / 2)) in *.
  set (k := cos p1 * cos p2) in *. set (c := cos (p1 + p2)) in *.
  assert (Hs : 0 <= s * s <= 1) by nra.
  assert (Ht : 0 <= t * t <= 1) by nra.
  assert (Hkb : - (s * s) <= k <= 1 - s * s) by lra.
  replace (s * s + k * t * t) with (s * s + k * (t * t)) by ring.
  split; nra.
Qed.

(** X4.  Over the reals: the Haversine term of [calculateDistance]
    lies in [[0, 1]] and the distance lies between [0] and half the
    circumference of the sphere, [6371 * PI] kilometres.  (Not so in
    doubles: for antipodal points the rounded term can exceed [1], and
    the code then returns [NaN].) *)
Theorem distance_range (lat1 lon1 lat2 lon2 : R) :
  let a := sin (toRadians (lat2 - lat1) / 2) * sin (toRadians (lat2 - lat1) / 2)
           + cos (toRadians lat1) * cos (toRadians lat2)
             * sin (toRadians (lon2 - lon1) / 2)
             * sin (toRadians (lon2 - lon1) / 2) in
  0 <= a <= 1
  /\ 0 <= calculateDistance lat1 lon1 lat2 lon2 <= 6371 * PI.
Proof.
  intros a.
  assert (Ha : 0 <= a <= 1).
  { unfold a. rewrite toRadians_sub. apply haversine_term_bounds. }
  split; [exact Ha |].
  change (calculateDistance lat1 lon1 lat2 lon2)
    with (6371 * (2 * Math.atan2 (sqrt a) (sqrt (1 - a)))).
  pose proof (atan2_first_quadrant (sqrt a) (sqrt (1 - a))
                (sqrt_pos a) (sqrt_pos (1 - a))) as Hq.
  lra.
Qed.

(** The central angle is recovered from its half-angle sine. *)
Lemma haversine_angle (h : R) :
  0 <= h <= PI / 2 ->
  Math.atan2 (sqrt (sin h * sin h)) (sqrt (1 - sin h * sin h)) = h.
Proof.
  intros [Hlo Hhi]. pose proof PI_RGT_0 as Hpi.
  assert (Hsin : 0 <= sin h) by (apply sin_ge_0; lra).
  assert (Hcos : 0 <= cos h) by (apply cos_ge_0; lra).
  rewrite (sqrt_square (sin h)) by assumption.
  replace (1 - sin h * sin h) with (cos h * cos h)
    by (pose proof (sin2_cos2 h) as H; unfold Rsqr in H; lra).
  rewrite (sqrt_square (cos h)) by assumption.
  unfold Math.atan2.
  destruct (Rlt_dec 0 (cos h)) as [Hpos | Hnpos].
  - assert (Hlt : h < PI / 2).
    { destruct Hhi as [Hhi | Hhi]; [assumption |].
      rewrite Hhi, cos_PI2 in Hpos. lra. }
    change (sin h / cos h) with (tan h). apply atan_tan. lra.
  - assert (Hc0 : cos h = 0) by lra.
    assert (Hh : h = PI / 2).
    { destruct Hhi as [Hhi | Hhi]; [| assumption].
      assert (0 < cos h) by (apply cos_gt_0; lra). lra. }
    destruct (Rlt_dec (cos h) 0); [lra |].
    rewrite Hh, sin_PI2.
    destruct (Rlt_dec 0 1); lra.
Qed.

Lemma haversine_angle_abs (d : R) :
  - PI <= d <= PI ->
  2 * Math.atan2 (sqrt (sin (d / 2) * sin (d / 2)))
                 (sqrt (1 - sin (d / 2) * sin (d / 2)))
  = Rabs d.
Proof.
  intros [Hlo Hhi].
  destruct (Rle_dec 0 d) as [Hpos | Hneg].
  - rewrite Rabs_right by lra. rewrite haversine_angle by lra. field.
  - rewrite Rabs_left by lra.
    replace (sin (d / 2) * sin (d / 2))
      with (sin (- d / 2) * sin (- d / 2)).
    + rewrite haversine_angle by lra. field.
    + replace (- d / 2) with (- (d / 2)) by field. rewrite sin_neg. ring.
Qed.

Lemma toRadians_abs (x : R) : toRadians (Rabs x) = Rabs (toRadians x).
Proof.
  pose proof PI_RGT_0. unfold toRadians.
  destruct (Rle_dec 0 x).
  - rewrite !Rabs_right; [reflexivity | | lra].
    apply Rle_ge. unfold Rdiv. apply Rmult_le_pos; [nra | lra].
  - rewrite !Rabs_left; [lra | | lra].
    unfold Rdiv. assert (x * PI < 0) by nra. lra.
Qed.

Lemma toRadians_bounds (x : R) :
  -180 <= x <= 180 -> - PI <= toRadians x <= PI.
Proof.
  pose proof PI_RGT_0. intros [Hlo Hhi]. unfold toRadians. split; nra.
Qed.

(** Along a meridian the distance is the arc length (over the
    reals). *)
Lemma distance_along_meridian (lat1 lat2 lon : R) :
  -180 <= lat2 - lat1 <= 180 ->
  calculateDistance lat1 lon lat2 lon = 6371 * toRadians (Rabs (lat2 - lat1)).
Proof.
  intros Hd. unfold calculateDistance. cbv zeta.
  replace (toRadians (lon - lon) / 2) with 0 by (unfold toRadians; lra).
  rewrite sin_0.
  replace (sin (toRadians (lat2 - lat1) / 2) * sin (toRadians (lat2 - lat1) / 2)
           + cos (toRadians lat1) * cos (toRadians lat2) * 0 * 0)
    with (sin (toRadians (lat2 - lat1) / 2) * sin (toRadians (lat2 - lat1) / 2))
    by ring.
  rewrite haversine_angle_abs by now apply toRadians_bounds.
  now rewrite toRadians_abs.
Qed.

(** X5.  Over the reals: along a meridian and along the equator the
    value of [calculateDistance] is the arc length, the radius 6371 km
    times the angle between the two points in radians, for points at
    most 180 degrees apart.  (The double the code computes is this
    value up to rounding.) *)
Theorem distance_is_arc_length :
  (forall lat1 lat2 lon : R,
     -180 <= lat2 - lat1 <= 180 ->
     calculateDistance lat1 lon lat2 lon
     = 6371 * toRadians (Rabs (lat2 - lat1)))
  /\ (forall lon1 lon2 : R,
        -180 <= lon2 - lon1 <= 180 ->
        calculateDistance 0 lon1 0 lon2
        = 6371 * toRadians (Rabs (lon2 - lon1))).
Proof.
  split.
  - intros lat1 lat2 lon Hd. now apply distance_along_meridian.
  - intros lon1 lon2 Hd. unfold calculateDistance. cbv zeta.
    replace (toRadians (0 - 0) / 2) with 0 by (unfold toRadians; lra).
    replace (toRadians 0) with 0 by (unfold toRadians; lra).
    rewrite sin_0, cos_0.
    replace (0 * 0 + 1 * 1 * sin (toRadians (lon2 - lon1) / 2)
             * sin (toRadians (lon2 - lon1) / 2))
      with (sin (toRadians (lon2 - lon1) / 2) * sin (toRadians (lon2 - lon1) / 2))
      by ring.
    rewrite haversine_angle_abs by now apply toRadians_bounds.
    now rewrite toRadians_abs.
Qed.

Lemma distance_is_arc_length_witness :
  -180 <= 41 - 40 <= 180
  /\ calculateDistance 40 (-74) 41 (-74) = 6371 * toRadians (Rabs (41 - 40))
  /\ -180 <= 90 - 0 <= 180
  /\ calculateDistance 0 0 0 90 = 6371 * toRadians (Rabs (90 - 0)).
Proof.
  destruct distance_is_arc_length as [Hmer Heq].
  split; [lra |]. split; [apply Hmer; lra |].
  split; [lra | apply Heq; lra].
Defined.

Lemma atan2_axes (r : R) :
  0 < r ->
  Math.atan2 0 r = 0 /\ Math.atan2 r 0 = PI / 2
  /\ Math.atan2 0 (- r) = PI /\ Math.atan2 (- r) 0 = - (PI / 2).
Proof.
  intros Hr. unfold Math.atan2. repeat split.
  - destruct (Rlt_dec 0 r); [| lra]. unfold Rdiv. now rewrite Rmult_0_l, atan_0.
  - destruct (Rlt_dec 0 0); [lra |]. destruct (Rlt_dec 0 r); lra.
  - destruct (Rlt_dec 0 (- r)); [lra |]. destruct (Rlt_dec (- r) 0); [| lra].
    destruct (Rle_dec 0 0); [| lra].
    unfold Rdiv. rewrite Rmult_0_l, atan_0. ring.
  - destruct (Rlt_dec 0 0); [lra |].
    destruct (Rlt_dec 0 (- r)); [lra |].
    destruct (Rlt_dec (- r) 0); lra.
Qed.

Lemma toDegrees_values :
  toDegrees 0 = 0 /\ toDegrees (PI / 2) = 90 /\ toDegrees PI = 180
  /\ toDegrees (- (PI / 2)) = -90.
Proof.
  pose proof PI_RGT_0. unfold toDegrees. repeat split; field; lra.
Qed.

(** X6.  Bearings are measured clockwise from north.  Between two
    points of one meridian less than 180 degrees apart the bearing is
    [0] towards the north and [180] towards the south; between two
    points of the equator less than 180 degrees apart it is [90]
    towards the east and [270] towards the west, where the older copy
    returns [-90]. *)
Theorem bearing_cardinal_directions :
  (forall lat1 lat2 lon : R,
     0 < lat2 - lat1 < 180 -> calculateBearing lat1 lon lat2 lon = 0)
  /\ (forall lat1 lat2 lon : R,
        -180 < lat2 - lat1 < 0 -> calculateBearing lat1 lon lat2 lon = 180)
  /\ (forall lon1 lon2 : R,
        0 < lon2 - lon1 < 180 -> calculateBearing 0 lon1 0 lon2 = 90)
  /\ (forall lon1 lon2 : R,
        -180 < lon2 - lon1 < 0 ->
        calculateBearing 0 lon1 0 lon2 = 270
        /\ Legacy.calculateBearing 0 lon1 0 lon2 = -90).
Proof.
  pose proof PI_RGT_0 as Hpi.
  destruct toDegrees_values as (Hd0 & Hd90 & Hd180 & Hdm90).
  assert (Hmer : forall lat1 lat2 lon,
             sin (toRadians (lon - lon)) * cos (toRadians lat2) = 0
             /\ cos (toRadians lat1) * sin (toRadians lat2)
                - sin (toRadians lat1) * cos (toRadians lat2)
                  * cos (toRadians (lon - lon))
                = sin (toRadians (lat2 - lat1))).
  { intros lat1 lat2 lon.
    replace (toRadians (lon - lon)) with 0 by (unfold toRadians; lra).
    rewrite sin_0, cos_0, toRadians_sub, sin_minus. split; ring. }
  assert (Hequ : forall lon1 lon2,
             sin (toRadians (lon2 - lon1)) * cos (toRadians 0)
             = sin (toRadians (lon2 - lon1))
             /\ cos (toRadians 0) * sin (toRadians 0)
                - sin (toRadians 0) * cos (toRadians 0)
                  * cos (toRadians (lon2 - lon1))
                = 0).
  { intros lon1 lon2.
    replace (toRadians 0) with 0 by (unfold toRadians; lra).
    rewrite sin_0, cos_0. split; ring. }
  assert (Hrad : forall x, 0 < x < 180 -> 0 < toRadians x < PI).
  { intros x [Hlo Hhi]. unfold toRadians. split; nra. }
  split; [| split; [| split]].
  - intros lat1 lat2 lon Hd. unfold calculateBearing. cbv zeta.
    destruct (Hmer lat1 lat2 lon) as [-> ->].
    assert (Hs : 0 < sin (toRadians (lat2 - lat1)))
      by (apply sin_gt_0; apply Hrad; lra).
    rewrite (proj1 (atan2_axes _ Hs)), Hd0.
    rewrite rem_second_period by lra. ring.
  - intros lat1 lat2 lon Hd. unfold calculateBearing. cbv zeta.
    destruct (Hmer lat1 lat2 lon) as [-> ->].
    assert (Hs : 0 < sin (toRadians (lat1 - lat2)))
      by (apply sin_gt_0; apply Hrad; lra).
    replace (toRadians (lat2 - lat1)) with (- toRadians (lat1 - lat2))
      by (unfold toRadians; lra).
    rewrite sin_neg.
    destruct (atan2_axes _ Hs) as (_ & _ & -> & _). rewrite Hd180.
    rewrite rem_second_period by lra. ring.
  - intros lon1 lon2 Hd. unfold calculateBearing. cbv zeta.
    destruct (Hequ lon1 lon2) as [-> ->].
    assert (Hs : 0 < sin (toRadians (lon2 - lon1)))
      by (apply sin_gt_0; apply Hrad; lra).
    destruct (atan2_axes _ Hs) as (_ & -> & _). rewrite Hd90.
    rewrite rem_second_period by lra. ring.
  - intros lon1 lon2 Hd.
    assert (Hs : 0 < sin (toRadians (lon1 - lon2)))
      by (apply sin_gt_0; apply Hrad; lra).
    assert (Hneg : toRadians (lon2 - lon1) = - toRadians (lon1 - lon2))
      by (unfold toRadians; lra).
    split.
    + unfold calculateBearing. cbv zeta.
      destruct (Hequ lon1 lon2) as [-> ->].
      rewrite Hneg, sin_neg.
      destruct (atan2_axes _ Hs) as (_ & _ & _ & ->). rewrite Hdm90.
      rewrite rem_first_period by lra. ring.
    + unfold Legacy.calculateBearing. cbv zeta.
      destruct (Hequ lon1 lon2) as [-> ->].
      rewrite Hneg, sin_neg.
      destruct (atan2_axes _ Hs) as (_ & _ & _ & ->). exact Hdm90.
Qed.

Lemma bearing_cardinal_directions_witness :
  0 < 41 - 40 < 180 /\ calculateBearing 40 (-74) 41 (-74) = 0
  /\ -180 < 40 - 41 < 0 /\ calculateBearing 41 (-74) 40 (-74) = 180
  /\ 0 < 10 - 0 < 180 /\ calculateBearing 0 0 0 10 = 90
  /\ -180 < 0 - 10 < 0 /\ calculateBearing 0 10 0 0 = 270.
Proof.
  destruct bearing_cardinal_directions as (Hn & Hs & He & Hw).
  split; [lra |]. split; [apply Hn; lra |].
  split; [lra |]. split; [apply Hs; lra |].
  split; [lra |]. split; [apply He; lra |].
  split; [lra |]. apply Hw. lra.
Defined.

(** X7.  [createEllipsePolygon] hands [points] vertices to the polygon,
    the [i]-th being the unprojected layer point of index [i].  Over
    the reals, every layer point lies on the ellipse centred at the
    projected centre whose axes, of half-lengths [semiMinor] and
    [semiMajor], are the coordinate axes turned by
    [toRadians (- bearing)]; and with an even number of points the
    vertex half a turn further is its mirror image through the centre.
    (The doubles the code computes satisfy the equation and the
    symmetry up to rounding.) *)
Theorem ellipse_vertices
  (latLngToLayerPoint layerPointToLatLng : R * R -> R * R)
  (center : R * R) (semiMajor semiMinor bearing : R) (points : nat) :
  let centerPt := latLngToLayerPoint center in
  let r := toRadians (- bearing) in
  let vertex := ellipseLayerPoint centerPt semiMajor semiMinor bearing points in
  List.length
    (ellipseLatLngs latLngToLayerPoint layerPointToLatLng center
       semiMajor semiMinor bearing points) = points
  /\ (forall i, (i < points)%nat ->
        nth_error
          (ellipseLatLngs latLngToLayerPoint layerPointToLatLng center
             semiMajor semiMinor bearing points) i
        = Some (layerPointToLatLng (vertex i)))
  /\ (forall i,
        let dx := fst (vertex i) - fst centerPt in
        let dy := snd (vertex i) - snd centerPt in
        (semiMajor * (dx * cos r + dy * sin r))²
        + (semiMinor * (dy * cos r - dx * sin r))²
        = (semiMajor * semiMinor)²)
  /\ (forall m i, points = (2 * m)%nat -> (0 < m)%nat ->
        fst (vertex (i + m)%nat) - fst centerPt
          = - (fst (vertex i) - fst centerPt)
        /\ snd (vertex (i + m)%nat) - snd centerPt
          = - (snd (vertex i) - snd centerPt)).
Proof.
  intros centerPt r vertex.
  split; [| split; [| split]].
  - unfold ellipseLatLngs. cbv zeta. now rewrite length_map, length_seq.
  - intros i Hi. unfold ellipseLatLngs. cbv zeta.
    rewrite nth_error_map, nth_error_seq.
    apply Nat.ltb_lt in Hi. rewrite Hi. reflexivity.
  - intros i dx dy. subst dx dy vertex. unfold ellipseLayerPoint. cbv zeta.
    fold r. simpl fst. simpl snd.
    set (t := INR i / INR points * 2 * PI).
    pose proof (sin2_cos2 r) as Hr. pose proof (sin2_cos2 t) as Ht.
    unfold Rsqr in *.
    set (cr := cos r) in *. set (sr := sin r) in *.
    set (ct := cos t) in *. set (st := sin t) in *.
    replace ((fst centerPt + semiMinor * ct * cr - semiMajor * st * sr
              - fst centerPt) * cr
             + (snd centerPt + semiMinor * ct * sr + semiMajor * st * cr
                - snd centerPt) * sr)
      with (semiMinor * ct * (sr * sr + cr * cr)) by ring.
    replace ((snd centerPt + semiMinor * ct * sr + semiMajor * st * cr
              - snd centerPt) * cr
             - (fst centerPt + semiMinor * ct * cr - semiMajor * st * sr
                - fst centerPt) * sr)
      with (semiMajor * st * (sr * sr + cr * cr)) by ring.
    rewrite Hr.
    replace (semiMajor * (semiMinor * ct * 1) * (semiMajor * (semiMinor * ct * 1))
             + semiMinor * (semiMajor * st * 1) * (semiMinor * (semiMajor * st * 1)))
      with (semiMajor * semiMinor * (semiMajor * semiMinor)
            * (st * st + ct * ct)) by ring.
    rewrite Ht. ring.
  - intros m i Hpoints Hm. subst vertex. unfold ellipseLayerPoint. cbv zeta.
    fold r. simpl fst. simpl snd.
    assert (Hangle : INR (i + m) / INR points * 2 * PI
                     = INR i / INR points * 2 * PI + PI).
    { rewrite Hpoints, plus_INR, mult_INR. simpl INR.
      assert (INR m <> 0) by (apply not_0_INR; lia).
      field. assumption. }
    rewrite Hangle, neg_cos, neg_sin. split; ring.
Qed.

Lemma ellipse_vertices_witness :
  (0 < 64)%nat /\ DEFAULT_POINTS = (2 * 32)%nat /\ (0 < 32)%nat
  /\ nth_error
       (ellipseLatLngs (fun p => p) (fun p => p) (0, 0) 2 1 0 DEFAULT_POINTS) 0
     = Some (ellipseLayerPoint (0, 0) 2 1 0 DEFAULT_POINTS 0)
  /\ fst (ellipseLayerPoint (0, 0) 2 1 0 DEFAULT_POINTS (0 + 32)) - 0
     = - (fst (ellipseLayerPoint (0, 0) 2 1 0 DEFAULT_POINTS 0) - 0).
Proof.
  destruct (ellipse_vertices (fun p => p) (fun p => p) (0, 0) 2 1 0
              DEFAULT_POINTS) as (_ & Hnth & _ & Hsym).
  split; [lia |]. split; [reflexivity |]. split; [lia |].
  split.
  - apply Hnth. unfold DEFAULT_POINTS. lia.
  - apply (Hsym 32%nat 0%nat); [reflexivity | lia].
Defined.

(** * Further properties of the registry *)

Lemma find_absent_link (ls : list Link) (id : nat) :
  ~ In id (List.map link_id ls) ->
  find (fun l => Nat.eqb (link_id l) id) ls = None
  /\ findIndex (fun l => Nat.eqb (link_id l) id) ls = None.
Proof.
  intros Hnot.
  assert (Hall : forall l, In l ls -> Nat.eqb (link_id l) id = false).
  { intros l Hl. apply Nat.eqb_neq. intros Heq. apply Hnot.
    rewrite <- Heq. now apply in_map. }
  split.
  - destruct (find _ ls) as [l |] eqn:Hf; [| reflexivity].
    apply find_some in Hf. destruct Hf as [Hl Hb].
    rewrite (Hall l Hl) in Hb. discriminate.
  - now apply findIndex_None.
Qed.

Lemma find_absent_tower (ts : list nat) (id : nat) :
  ~ In id ts ->
  find (fun t => Nat.eqb t id) ts = None
  /\ findIndex (fun t => Nat.eqb t id) ts = None.
Proof.
  intros Hnot.
  assert (Hall : forall t, In t ts -> Nat.eqb t id = false).
  { intros t Ht. apply Nat.eqb_neq. intros Heq. apply Hnot. now rewrite <- Heq. }
  split.
  - destruct (find _ ts) as [t |] eqn:Hf; [| reflexivity].
    apply find_some in Hf. destruct Hf as [Ht Hb].
    rewrite (Hall t Ht) in Hb. discriminate.
  - now apply findIndex_None.
Qed.

(** X8.  An id that is not in the registry is ignored: deleting or
    requesting the deletion of a link whose id is not in
    [state.links], and deleting, requesting the deletion of, or editing
    the frequency of a tower whose id is not in [state.towers], return
    at once and leave the whole state as it is.  With unique link ids,
    deleting a link a second time changes nothing more. *)
Theorem absent_ids_are_ignored (st : State) :
  (forall id, ~ In id (List.map link_id (links st)) ->
     performDeleteLink id st = st
     /\ deleteLink id false st = st /\ deleteLink id true st = st)
  /\ (forall id, ~ In id (towers st) ->
        performDeleteTower id st = st
        /\ requestDeleteTower id st = st
        /\ forall newFrequency, updateTowerFrequency id newFrequency st = st)
  /\ (forall id, NoDup (List.map link_id (links st)) ->
        performDeleteLink id (performDeleteLink id st) = performDeleteLink id st).
Proof.
  assert (Hlink : forall s id, ~ In id (List.map link_id (links s)) ->
            performDeleteLink id s = s).
  { intros s id Hnot. destruct (find_absent_link _ _ Hnot) as [_ Hfi].
    unfold performDeleteLink. now rewrite Hfi. }
  split; [| split].
  - intros id Hnot. destruct (find_absent_link _ _ Hnot) as [Hf Hfi].
    split; [now apply Hlink |].
    unfold deleteLink. rewrite Hf. repeat split.
  - intros id Hnot. destruct (find_absent_tower _ _ Hnot) as [Hf Hfi].
    unfold performDeleteTower, requestDeleteTower, updateTowerFrequency.
    rewrite Hf, Hfi. repeat split.
  - intros id Hnd. apply Hlink.
    destruct (performDeleteLink_effect id st Hnd) as (Hl & _).
    rewrite Hl. intros Hin. apply in_map_iff in Hin.
    destruct Hin as [l [Hid Hl']]. apply filter_In in Hl'.
    destruct Hl' as [_ Hneq]. rewrite Hid, Nat.eqb_refl in Hneq. discriminate.
Qed.

Lemma absent_ids_are_ignored_witness :
  ~ In 7%nat (List.map link_id (links exampleNetwork))
  /\ performDeleteLink 7 exampleNetwork = exampleNetwork
  /\ ~ In 7%nat (towers exampleNetwork)
  /\ performDeleteTower 7 exampleNetwork = exampleNetwork
  /\ NoDup (List.map link_id (links exampleNetwork))
  /\ performDeleteLink 1 (performDeleteLink 1 exampleNetwork)
     = performDeleteLink 1 exampleNetwork.
Proof.
  destruct (absent_ids_are_ignored exampleNetwork) as (Hl & Ht & Hd).
  assert (H7l : ~ In 7%nat (List.map link_id (links exampleNetwork)))
    by (simpl; intuition discriminate).
  assert (H7t : ~ In 7%nat (towers exampleNetwork))
    by (simpl; intuition discriminate).
  pose proof (proj2 exampleNetwork_uniqueIds) as Hnd.
  split; [exact H7l |]. split; [exact (proj1 (Hl 7%nat H7l)) |].
  split; [exact H7t |]. split; [exact (proj1 (Ht 7%nat H7t)) |].
  split; [exact Hnd | exact (Hd 1%nat Hnd)].
Defined.

Lemma truthyString_false (s : string) : truthyString s = false <-> s = EmptyString.
Proof. destruct s; simpl; split; congruence. Qed.

(** X9.  The tower form.  With an empty name or a frequency that is
    not positive, [saveTower] only shows the 'valid tower name and
    frequency' notification.  With valid inputs and no pending
    location it does nothing.  With valid inputs and a pending
    location it appends one tower: its id is the value of the counter,
    the counter advances by one, the new object carries the inputs and
    the clicked position, its marker is put on the map, the pending
    location is cleared, and the links and the existing objects are
    untouched. *)
Theorem saveTower_behaviour (name : string) (frequency : R) (st : State) :
  (name = EmptyString \/ frequency <= 0 ->
     saveTower name frequency st = showNotification InvalidTowerDetails st)
  /\ (name <> EmptyString -> 0 < frequency ->
      pendingTowerLocation st = None ->
      saveTower name frequency st = st)
  /\ (forall latlng,
        name <> EmptyString -> 0 < frequency ->
        pendingTowerLocation st = Some latlng ->
        let st' := saveTower name frequency st in
        let id := towerIdCounter st in
        towers st' = towers st ++ [id]
        /\ towerIdCounter st' = S id
        /\ heap st' = heap st ++
             [mkTower id name frequency (latlng_lat latlng) (latlng_lng latlng)
                (mkMarker icon_tower_marker (name, frequency))]
        /\ mapLayers st' = mapLayers st ++ [MarkerLayer id]
        /\ pendingTowerLocation st' = None
        /\ links st' = links st
        /\ selectedTowers st' = selectedTowers st
        /\ notifications st' = notifications st).
Proof.
  assert (Hvalid : name <> EmptyString -> 0 < frequency ->
            negb (truthyString name) || negb (truthyNumber frequency)
            || numLe frequency 0 = false).
  { intros Hn Hf. unfold truthyNumber, strictEq, numLe.
    destruct (truthyString name) eqn:Ht;
      [| apply truthyString_false in Ht; contradiction].
    destruct (Req_EM_T frequency 0); [lra |].
    destruct (Rle_dec frequency 0); [lra | reflexivity]. }
  split; [| split].
  - intros [Hn | Hf]; unfold saveTower.
    + subst name. reflexivity.
    + unfold numLe. destruct (Rle_dec frequency 0); [| contradiction].
      now rewrite orb_true_r.
  - intros Hn Hf Hp. unfold saveTower. rewrite (Hvalid Hn Hf), Hp. reflexivity.
  - intros latlng Hn Hf Hp st' id. subst st' id. unfold saveTower.
    rewrite (Hvalid Hn Hf), Hp. repeat split.
Qed.

Lemma saveTower_behaviour_witness :
  (EmptyString = EmptyString \/ 5 <= 0)
  /\ saveTower EmptyString 5 initialState
     = showNotification InvalidTowerDetails initialState
  /\ "Tower 1"%string <> EmptyString /\ 0 < 5
  /\ pendingTowerLocation initialState = None
  /\ saveTower "Tower 1"%string 5 initialState = initialState
  /\ pendingTowerLocation
       (handleMapClick (mkLatLng 40 (-74)) initialState)
     = Some (mkLatLng 40 (-74))
  /\ towers (saveTower "Tower 1"%string 5
               (handleMapClick (mkLatLng 40 (-74)) initialState))
     = [1%nat].
Proof.
  assert (Hname : "Tower 1"%string <> EmptyString) by discriminate.
  assert (Hpos : 0 < 5) by lra.
  destruct (saveTower_behaviour EmptyString 5 initialState) as (Hbad & _ & _).
  destruct (saveTower_behaviour "Tower 1"%string 5 initialState)
    as (_ & Hnone & _).
  destruct (saveTower_behaviour "Tower 1"%string 5
              (handleMapClick (mkLatLng 40 (-74)) initialState))
    as (_ & _ & Hadd).
  destruct (Hadd (mkLatLng 40 (-74)) Hname Hpos eq_refl) as (Ht & _).
  split; [now left |]. split; [apply Hbad; now left |].
  split; [exact Hname |]. split; [exact Hpos |]. split; [reflexivity |].
  split; [exact (Hnone Hname Hpos eq_refl) |].
  split; [reflexivity | exact Ht].
Defined.

(** ** The store under mutation *)

Lemma deref_mutate_other (ref x : nat) (f : Tower -> Tower) (st : State) :
  (forall t, tower_id (f t) = tower_id t) -> x <> ref ->
  deref (mutate ref f st) x = deref st x.
Proof.
  intros Hid Hneq. unfold deref, mutate. simpl.
  induction (heap st) as [| t h IH]; simpl; [reflexivity |].
  destruct (Nat.eqb (tower_id t) ref) eqn:Hr; simpl.
  - rewrite Hid. apply Nat.eqb_eq in Hr.
    destruct (Nat.eqb (tower_id t) x) eqn:Hx; [| reflexivity].
    apply Nat.eqb_eq in Hx. congruence.
  - destruct (Nat.eqb (tower_id t) x); [reflexivity | exact IH].
Qed.

Lemma deref_mutate_same (ref : nat) (f : Tower -> Tower) (st : State) :
  (forall t, tower_id (f t) = tower_id t) -> allocated st ref ->
  deref (mutate ref f st) ref = f (deref st ref).
Proof.
  intros Hid. unfold allocated, deref, mutate. simpl.
  induction (heap st) as [| t h IH]; simpl; [contradiction |].
  intros Hin. destruct (Nat.eqb (tower_id t) ref) eqn:Hr; simpl.
  - now rewrite Hid, Hr.
  - rewrite Hr. apply IH. destruct Hin as [Heq | Hin]; [| assumption].
    apply Nat.eqb_neq in Hr. contradiction.
Qed.

Lemma deref_id (st : State) (ref : nat) :
  allocated st ref -> tower_id (deref st ref) = ref.
Proof.
  unfold allocated, deref. intros Hin.
  destruct (find _ (heap st)) as [t |] eqn:Hf.
  - apply find_some in Hf. now apply Nat.eqb_eq.
  - exfalso. apply in_map_iff in Hin. destruct Hin as [t [Hid Ht]].
    pose proof (find_none _ _ Hf t Ht) as Hno. cbv beta in Hno.
    rewrite Hid, Nat.eqb_refl in Hno. discriminate.
Qed.

Lemma mutate_heap_ids (ref : nat) (f : Tower -> Tower) (st : State) :
  (forall t, tower_id (f t) = tower_id t) ->
  List.map tower_id (heap (mutate ref f st)) = List.map tower_id (heap st).
Proof. intros Hid. simpl. now apply mutateFirst_map_preserved. Qed.

Lemma allocated_mutate (ref x : nat) (f : Tower -> Tower) (st : State) :
  (forall t, tower_id (f t) = tower_id t) ->
  allocated (mutate ref f st) x <-> allocated st x.
Proof. intros Hid. unfold allocated. now rewrite mutate_heap_ids. Qed.

Lemma find_tower_present (ts : list nat) (id : nat) :
  In id ts -> find (fun t => Nat.eqb t id) ts = Some id.
Proof.
  induction ts as [| a ts IH]; simpl; [contradiction |].
  intros Hin. destruct (Nat.eqb a id) eqn:Heq.
  - apply Nat.eqb_eq in Heq. now subst.
  - apply IH. destruct Hin as [-> | Hin]; [| assumption].
    now rewrite Nat.eqb_refl in Heq.
Qed.

(** The state right after the two writes of [updateTowerFrequency]. *)
Lemma updateTowerFrequency_unfold (towerId : nat) (newFrequency : R) (st : State) :
  In towerId (towers st) ->
  let st1 := mutate towerId (with_frequency newFrequency) st in
  let st2 :=
    setPopupContent towerId
      (tower_name (deref st1 towerId), tower_frequency (deref st1 towerId)) st1 in
  updateTowerFrequency towerId newFrequency st =
  if Nat.ltb 0 (List.length (filter (invalidatedBy towerId st2) (links st)))
  then showConfirmationModal
         (cb_removeInvalidLinks
            (List.map link_id (filter (invalidatedBy towerId st2) (links st))))
         (Some (resolve_updateTowerFrequency towerId)) st2
  else st2.
Proof.
  intros Hin st1 st2. unfold updateTowerFrequency.
  rewrite (find_tower_present _ _ Hin). reflexivity.
Qed.

(** X10.  [updateTowerFrequency] on a tower of the registry writes the
    new frequency into that tower object and into its popup and
    leaves its id, name, position and icon; every other tower object
    is as before; the tower and link collections, the selection, the
    map layers, the counters and the notifications are as before.  It
    opens the confirmation modal, with the ids of the invalidated
    links, exactly when some link at that tower now joins two
    different frequencies. *)
Theorem updateTowerFrequency_effect
  (towerId : nat) (newFrequency : R) (st : State) :
  In towerId (towers st) -> allocated st towerId ->
  let st' := updateTowerFrequency towerId newFrequency st in
  let invalid := filter (invalidatedBy towerId st') (links st) in
  deref st' towerId =
    mkTower towerId (tower_name (deref st towerId)) newFrequency
      (tower_lat (deref st towerId)) (tower_lng (deref st towerId))
      (mkMarker (marker_icon (tower_marker (deref st towerId)))
         (tower_name (deref st towerId), newFrequency))
  /\ (forall x, x <> towerId -> deref st' x = deref st x)
  /\ sameCollections st st'
  /\ (invalid = [] ->
      confirmModal st' = confirmModal st /\ confirmAction st' = confirmAction st)
  /\ (invalid <> [] ->
      confirmModal st' =
        Some (mkConfirmModal (cb_removeInvalidLinks (List.map link_id invalid)) true)
      /\ confirmAction st' = Some (resolve_updateTowerFrequency towerId)).
Proof.
  intros Hin Halloc st' invalid.
  pose proof (updateTowerFrequency_unfold towerId newFrequency st Hin) as Hu.
  cbv zeta in Hu.
  set (st1 := mutate towerId (with_frequency newFrequency) st) in *.
  set (st2 := setPopupContent towerId
                (tower_name (deref st1 towerId),
                 tower_frequency (deref st1 towerId)) st1) in *.
  assert (Hid1 : forall t, tower_id (with_frequency newFrequency t) = tower_id t)
    by reflexivity.
  assert (Hd1 : deref st1 towerId = with_frequency newFrequency (deref st towerId))
    by (apply deref_mutate_same; assumption).
  assert (Halloc1 : allocated st1 towerId)
    by (apply allocated_mutate; assumption).
  assert (Hd2 : deref st2 towerId =
            mkTower towerId (tower_name (deref st towerId)) newFrequency
              (tower_lat (deref st towerId)) (tower_lng (deref st towerId))
              (mkMarker (marker_icon (tower_marker (deref st towerId)))
                 (tower_name (deref st towerId), newFrequency))).
  { unfold st2, setPopupContent. rewrite deref_mutate_same by (reflexivity || assumption).
    rewrite Hd1. unfold with_marker, with_frequency. simpl.
    now rewrite (deref_id st towerId Halloc). }
  assert (Hother : forall x, x <> towerId -> deref st2 x = deref st x).
  { intros x Hx. unfold st2, setPopupContent.
    rewrite deref_mutate_other by (reflexivity || assumption).
    unfold st1. now apply deref_mutate_other. }
  assert (Hheap : heap st' = heap st2).
  { unfold st'. rewrite Hu. destruct (Nat.ltb _ _); reflexivity. }
  assert (Hderef : forall x, deref st' x = deref st2 x).
  { intros x. unfold deref. now rewrite Hheap. }
  assert (Hinv : invalid = filter (invalidatedBy towerId st2) (links st)).
  { unfold invalid. apply filter_ext. intros l. unfold invalidatedBy.
    now rewrite !Hderef. }
  split; [now rewrite Hderef |].
  split; [intros x Hx; rewrite Hderef; now apply Hother |].
  rewrite Hinv. clear Hinv invalid.
  unfold st' in *. rewrite Hu.
  destruct (filter (invalidatedBy towerId st2) (links st)) as [| l ls] eqn:Hf;
    simpl.
  - split; [unfold sameCollections; simpl; tauto |].
    split; [intros _; split; reflexivity | intros H; contradiction].
  - split; [unfold sameCollections; simpl; tauto |].
    split; [intros H; discriminate | intros _; split; reflexivity].
Qed.

Lemma updateTowerFrequency_effect_witness :
  In 1%nat (towers exampleNetwork) /\ allocated exampleNetwork 1
  /\ tower_frequency (deref (updateTowerFrequency 1 5 exampleNetwork) 1) = 5
  /\ deref (updateTowerFrequency 1 6 exampleNetwork) 2 = deref exampleNetwork 2.
Proof.
  assert (Hin : In 1%nat (towers exampleNetwork)) by (simpl; tauto).
  assert (Hal : allocated exampleNetwork 1) by (unfold allocated; simpl; tauto).
  destruct (updateTowerFrequency_effect 1 5 exampleNetwork Hin Hal) as (H5 & _).
  destruct (updateTowerFrequency_effect 1 6 exampleNetwork Hin Hal)
    as (_ & H6 & _).
  split; [exact Hin |]. split; [exact Hal |].
  split; [now rewrite H5 | apply H6; discriminate].
Defined.

Lemma performDeleteLink_heap (linkId : nat) (st : State) :
  heap (performDeleteLink linkId st) = heap st
  /\ selectedTowers (performDeleteLink linkId st) = selectedTowers st
  /\ confirmModal (performDeleteLink linkId st) = confirmModal st
  /\ confirmAction (performDeleteLink linkId st) = confirmAction st
  /\ notifications (performDeleteLink linkId st) = notifications st
  /\ mode (performDeleteLink linkId st) = mode st
  /\ towerIdCounter (performDeleteLink linkId st) = towerIdCounter st
  /\ pendingTowerLocation (performDeleteLink linkId st) = pendingTowerLocation st.
Proof.
  unfold performDeleteLink.
  destruct (findIndex _ (links st)) as [i |]; [| repeat split].
  destruct (nth_error (links st) i) as [link |]; [| repeat split].
  cbv zeta. unfold updateLinkList.
  destruct (link_fresnelZone link);
    match goal with
    | |- context [if ?c then _ else _] => destruct c
    end; repeat split.
Qed.

Lemma fold_performDeleteLink_heap (ids : list nat) (st : State) :
  let st' := fold_left (fun st id => performDeleteLink id st) ids st in
  heap st' = heap st
  /\ selectedTowers st' = selectedTowers st
  /\ confirmModal st' = confirmModal st
  /\ confirmAction st' = confirmAction st
  /\ notifications st' = notifications st
  /\ mode st' = mode st
  /\ towerIdCounter st' = towerIdCounter st
  /\ pendingTowerLocation st' = pendingTowerLocation st.
Proof.
  revert st. induction ids as [| id ids IH]; intros st; simpl.
  - repeat split.
  - destruct (IH (performDeleteLink id st)) as (H1 & H2 & H3 & H4 & H5 & H6 & H7 & H8).
    destruct (performDeleteLink_heap id st) as (G1 & G2 & G3 & G4 & G5 & G6 & G7 & G8).
    repeat split; congruence.
Qed.

(** Removing the links picked by a test, by their ids, removes exactly
    those links when ids are unique. *)
Lemma filter_out_by_ids (p : Link -> bool) (ls : list Link) :
  NoDup (List.map link_id ls) ->
  filter (fun l =>
            negb (existsb (Nat.eqb (link_id l)) (List.map link_id (filter p ls))))
    ls
  = filter (fun l => negb (p l)) ls.
Proof.
  intros Hnd. apply filter_ext_in. intros l Hl. f_equal.
  destruct (p l) eqn:Hp.
  - apply existsb_exists. exists (link_id l). split; [| apply Nat.eqb_refl].
    apply in_map. apply filter_In. now split.
  - apply not_true_is_false. intros Hex. apply existsb_exists in Hex.
    destruct Hex as [id [Hid Heq]]. apply Nat.eqb_eq in Heq.
    apply in_map_iff in Hid. destruct Hid as [r [Hrid Hr]].
    apply filter_In in Hr. destruct Hr as [Hr Hpr].
    assert (r = l) by (apply (NoDup_map_inj_in link_id ls); congruence).
    congruence.
Qed.

(** The confirm button, when the modal awaits a promise: the callback
    runs, the modal closes, and nothing more happens. *)
Lemma handleConfirm_promise (cb : ConfirmCallback) (st : State) :
  confirmModal st = Some (mkConfirmModal cb true) ->
  handleConfirm st = hideConfirmationModal (runCallback cb st).
Proof.
  intros Hm. unfold handleConfirm. rewrite Hm. cbv zeta. simpl.
  apply resolve_after_hide.
Qed.

(** X11.  Confirming a frequency change.  When the change invalidates
    some link and the confirm button is clicked, exactly the
    invalidated links are removed, each with the cleanup of
    [performDeleteLink]; the other links, the towers and the edited
    frequency stay; the modal is closed; and afterwards every link at
    the edited tower joins two towers of equal frequency. *)
Theorem frequency_change_confirmed
  (towerId : nat) (newFrequency : R) (st : State) :
  In towerId (towers st) -> NoDup (List.map link_id (links st)) ->
  let st1 := updateTowerFrequency towerId newFrequency st in
  let st2 := handleConfirm st1 in
  filter (invalidatedBy towerId st1) (links st) <> [] ->
  links st2 = filter (fun l => negb (invalidatedBy towerId st1 l)) (links st)
  /\ (forall l, In l (links st) -> invalidatedBy towerId st1 l = true ->
        cleanedUp l st2)
  /\ heap st2 = heap st1 /\ towers st2 = towers st
  /\ confirmModal st2 = None /\ confirmAction st2 = None
  /\ (forall l, In l (links st2) -> references towerId l = true ->
        tower_frequency (deref st2 (link_tower1 l))
        = tower_frequency (deref st2 (link_tower2 l))).
Proof.
  intros Hin Hnd st1 st2 Hne.
  pose proof (updateTowerFrequency_unfold towerId newFrequency st Hin) as Hu.
  cbv zeta in Hu.
  set (stw := setPopupContent towerId _ _) in Hu.
  assert (Hheap : heap st1 = heap stw).
  { unfold st1. rewrite Hu. destruct (Nat.ltb _ _); reflexivity. }
  assert (Htest : forall l, invalidatedBy towerId st1 l = invalidatedBy towerId stw l).
  { intros l. unfold invalidatedBy, deref. now rewrite Hheap. }
  rewrite (filter_ext _ _ Htest) in Hne.
  set (invalid := filter (invalidatedBy towerId stw) (links st)) in *.
  assert (Hst1 : st1 = showConfirmationModal
                         (cb_removeInvalidLinks (List.map link_id invalid))
                         (Some (resolve_updateTowerFrequency towerId)) stw).
  { unfold st1. rewrite Hu. fold invalid.
    destruct invalid; [contradiction | reflexivity]. }
  assert (Hlinks1 : links st1 = links st) by (rewrite Hst1; reflexivity).
  assert (Hst2 : st2 = hideConfirmationModal
                         (fold_left (fun st id => performDeleteLink id st)
                            (List.map link_id invalid) st1)).
  { unfold st2. rewrite (handleConfirm_promise
                           (cb_removeInvalidLinks (List.map link_id invalid)));
      [reflexivity | rewrite Hst1; reflexivity]. }
  assert (Hnd1 : NoDup (List.map link_id (links st1))) by now rewrite Hlinks1.
  destruct (fold_performDeleteLink_effect (List.map link_id invalid) st1 Hnd1)
    as (Hl & Ht & _ & _ & _ & Hclean).
  destruct (fold_performDeleteLink_heap (List.map link_id invalid) st1)
    as (Hh & _).
  cbv zeta in Hl, Ht, Hclean, Hh.
  set (stf := fold_left (fun st id => performDeleteLink id st)
                (List.map link_id invalid) st1) in *.
  assert (Hlinks2 : links st2 =
            filter (fun l => negb (invalidatedBy towerId st1 l)) (links st)).
  { rewrite Hst2. simpl. rewrite Hl, Hlinks1. unfold invalid.
    rewrite filter_out_by_ids by assumption.
    apply filter_ext. intros l. now rewrite Htest. }
  assert (Hheap2 : heap st2 = heap st1) by (rewrite Hst2; simpl; exact Hh).
  split; [exact Hlinks2 |].
  split.
  { intros l Hl0 Hinv. rewrite Hst2.
    apply (cleanedUp_kept l stf); [apply incl_refl | now left |].
    apply Hclean; [now rewrite Hlinks1 |].
    apply in_map. apply filter_In. split; [assumption | now rewrite <- Htest]. }
  split; [exact Hheap2 |].
  split; [rewrite Hst2; simpl; rewrite Ht, Hst1; reflexivity |].
  split; [rewrite Hst2; reflexivity |].
  split; [rewrite Hst2; reflexivity |].
  intros l Hl2 Href. rewrite Hlinks2 in Hl2. apply filter_In in Hl2.
  destruct Hl2 as [_ Hvalid]. apply negb_true_iff in Hvalid.
  unfold invalidatedBy in Hvalid. unfold references in Href.
  rewrite Href in Hvalid. simpl in Hvalid. apply negb_false_iff in Hvalid.
  unfold strictEq in Hvalid.
  destruct (Req_EM_T _ _) as [Heq | _] in Hvalid; [| discriminate].
  unfold deref in *. now rewrite Hheap2.
Qed.

Lemma frequency_change_confirmed_witness :
  In 1%nat (towers exampleNetwork)
  /\ NoDup (List.map link_id (links exampleNetwork))
  /\ filter (invalidatedBy 1 (updateTowerFrequency 1 6 exampleNetwork))
       (links exampleNetwork) <> []
  /\ List.map link_id
       (links (handleConfirm (updateTowerFrequency 1 6 exampleNetwork)))
     = [3%nat].
Proof.
  assert (Hin : In 1%nat (towers exampleNetwork)) by (simpl; tauto).
  pose proof (proj2 exampleNetwork_uniqueIds) as Hnd.
  assert (Hst1 : updateTowerFrequency 1 6 exampleNetwork =
            set_confirmAction (Some (resolve_updateTowerFrequency 1))
              (set_confirmModal
                 (Some (mkConfirmModal (cb_removeInvalidLinks [1; 2]%nat) true))
                 (setPopupContent 1 ("Tower 1"%string, 6)
                    (mutate 1 (with_frequency 6) exampleNetwork))))
    by (evaluate; try reflexivity).
  assert (Hfilter : List.map link_id
            (filter (invalidatedBy 1 (updateTowerFrequency 1 6 exampleNetwork))
               (links exampleNetwork)) = [1; 2]%nat).
  { rewrite Hst1. evaluate; try reflexivity. }
  assert (Hne : filter (invalidatedBy 1 (updateTowerFrequency 1 6 exampleNetwork))
                  (links exampleNetwork) <> []).
  { intros Hnil. rewrite Hnil in Hfilter. discriminate. }
  destruct (frequency_change_confirmed 1 6 exampleNetwork Hin Hnd Hne)
    as (Hl & _).
  split; [exact Hin |]. split; [exact Hnd |]. split; [exact Hne |].
  rewrite Hl, Hst1. evaluate; try reflexivity.
Defined.

(** ** Selection *)

Lemma mutateFirst_undo {A : Type} (p : A -> bool) (f g : A -> A) (l : list A) :
  (forall x, In x l -> p x = true -> p (f x) = true) ->
  (forall x, find p l = Some x -> g (f x) = x) ->
  mutateFirst p g (mutateFirst p f l) = l.
Proof.
  induction l as [| a l IH]; simpl; intros Hp Hg; [reflexivity |].
  destruct (p a) eqn:Hpa; simpl.
  - rewrite (Hp a (or_introl eq_refl) Hpa). now rewrite (Hg a eq_refl).
  - rewrite Hpa. f_equal. apply IH.
    + intros x Hx. apply Hp. now right.
    + exact Hg.
Qed.

Lemma state_eta (st : State) :
  mkState (mode st) (towers st) (links st) (selectedTowers st) (mapLayers st)
    (towerIdCounter st) (linkIdCounter st) (pendingTowerLocation st)
    (activeLinkForFresnel st) (confirmAction st) (heap st) (confirmModal st)
    (notifications st) = st.
Proof. now destruct st. Qed.

Lemma unselected_plain (t : Tower) :
  marker_icon (tower_marker t) = icon_tower_marker -> unselected t = t.
Proof.
  destruct t as [id name f lat lng [icon popup]]. simpl. intros ->. reflexivity.
Qed.

(** X12.  Selecting is a toggle.  From an empty selection a click on a
    tower selects it and gives it the selected icon; a second click on
    the same tower deselects it and gives it the plain icon.  Neither
    click touches the collections, and if the tower had the plain icon
    at the start the two clicks restore the state exactly. *)
Theorem selection_toggle (a : nat) (st : State) :
  selectedTowers st = [] ->
  let st1 := handleTowerClickForLink a st in
  let st2 := handleTowerClickForLink a st1 in
  selectedTowers st1 = [a]
  /\ sameRegistry st st1
  /\ (allocated st a ->
      marker_icon (tower_marker (deref st1 a)) = icon_tower_marker_selected)
  /\ selectedTowers st2 = []
  /\ sameRegistry st st2
  /\ (allocated st a ->
      marker_icon (tower_marker (deref st2 a)) = icon_tower_marker)
  /\ (marker_icon (tower_marker (deref st a)) = icon_tower_marker -> st2 = st).
Proof.
  intros Hsel st1 st2.
  assert (Hst1 : st1 = setIcon a icon_tower_marker_selected
                         (set_selectedTowers [a] st)).
  { unfold st1, handleTowerClickForLink. rewrite Hsel. reflexivity. }
  assert (Hst2 : st2 = setIcon a icon_tower_marker
                         (set_selectedTowers [] st1)).
  { unfold st2, handleTowerClickForLink.
    replace (selectedTowers st1) with [a] by (rewrite Hst1; reflexivity).
    simpl. rewrite Nat.eqb_refl. reflexivity. }
  assert (Hal1 : allocated st a -> allocated st1 a).
  { intros Hal. rewrite Hst1. unfold setIcon.
    apply allocated_mutate; [reflexivity | exact Hal]. }
  split; [rewrite Hst1; reflexivity |].
  split; [rewrite Hst1; unfold sameRegistry; simpl; tauto |].
  split.
  { intros Hal. rewrite Hst1. unfold setIcon.
    rewrite deref_mutate_same; [reflexivity | reflexivity | exact Hal]. }
  split; [rewrite Hst2; reflexivity |].
  split; [rewrite Hst2, Hst1; unfold sameRegistry; simpl; tauto |].
  split.
  { intros Hal. rewrite Hst2. unfold setIcon.
    rewrite deref_mutate_same; [reflexivity | reflexivity |].
    apply Hal1, Hal. }
  intros Hplain. rewrite Hst2, Hst1.
  transitivity
    (mkState (mode st) (towers st) (links st) [] (mapLayers st)
       (towerIdCounter st) (linkIdCounter st) (pendingTowerLocation st)
       (activeLinkForFresnel st) (confirmAction st)
       (mutateFirst (fun t => Nat.eqb (tower_id t) a)
          (fun t => with_marker
                      (mkMarker icon_tower_marker
                         (marker_popup (tower_marker t))) t)
          (mutateFirst (fun t => Nat.eqb (tower_id t) a)
             (fun t => with_marker
                         (mkMarker icon_tower_marker_selected
                            (marker_popup (tower_marker t))) t)
             (heap st)))
       (confirmModal st) (notifications st)); [reflexivity |].
  rewrite mutateFirst_undo.
  - rewrite <- Hsel. apply state_eta.
  - intros x _ Hx. exact Hx.
  - intros x Hfind.
    assert (Hx : deref st a = x) by (unfold deref; now rewrite Hfind).
    rewrite Hx in Hplain.
    destruct x as [id name f lat lng [icon popup]]. simpl in *. now subst.
Qed.

Lemma selection_toggle_witness :
  selectedTowers exampleNetwork = []
  /\ selectedTowers (handleTowerClickForLink 2 exampleNetwork) = [2%nat]
  /\ marker_icon (tower_marker (deref exampleNetwork 2)) = icon_tower_marker
  /\ handleTowerClickForLink 2 (handleTowerClickForLink 2 exampleNetwork)
     = exampleNetwork.
Proof.
  destruct (selection_toggle 2 exampleNetwork eq_refl)
    as (H1 & _ & _ & _ & _ & _ & Hback).
  split; [reflexivity |]. split; [exact H1 |].
  split; [reflexivity | exact (Hback eq_refl)].
Defined.

Lemma fold_setIcon_deref (refs : list nat) (st : State) (x : nat) :
  let st' :=
    fold_left (fun st tower => setIcon tower icon_tower_marker st) refs st in
  (allocated st' x <-> allocated st x)
  /\ (~ In x refs -> deref st' x = deref st x)
  /\ (In x refs -> allocated st x -> deref st' x = unselected (deref st x)).
Proof.
  revert st. induction refs as [| r refs IH]; intros st; simpl.
  - repeat split; tauto.
  - destruct (IH (setIcon r icon_tower_marker st)) as (Hal & Hout & Hin).
    assert (Hal0 : allocated (setIcon r icon_tower_marker st) x <-> allocated st x)
      by (apply allocated_mutate; reflexivity).
    split; [tauto |]. split.
    + intros Hnot.
      assert (Hxr : x <> r) by (intros ->; apply Hnot; now left).
      assert (Hxrefs : ~ In x refs) by (intros H; apply Hnot; now right).
      rewrite (Hout Hxrefs).
      apply deref_mutate_other; [reflexivity | exact Hxr].
    + intros Hx Halloc.
      destruct (Nat.eq_dec r x) as [-> | Hneq].
      * assert (Hfirst : deref (setIcon x icon_tower_marker st) x
                         = unselected (deref st x))
          by (apply deref_mutate_same; [reflexivity | exact Halloc]).
        destruct (in_dec Nat.eq_dec x refs) as [Hin' | Hnot'].
        -- rewrite (Hin Hin' (proj2 Hal0 Halloc)). rewrite Hfirst. reflexivity.
        -- rewrite (Hout Hnot'). exact Hfirst.
      * destruct Hx as [Heq | Hx]; [contradiction |].
        rewrite (Hin Hx (proj2 Hal0 Halloc)). f_equal.
        apply deref_mutate_other; [reflexivity | congruence].
Qed.

(** X13.  A mode switch, in either direction, sets the mode, empties
    the selection and gives every tower that was selected the plain
    icon; the other tower objects and the rest of the state are as
    before. *)
Theorem setMode_clears_selection (m : Mode) (st : State) :
  let st' := setMode m st in
  mode st' = m
  /\ selectedTowers st' = []
  /\ (forall x, In x (selectedTowers st) -> allocated st x ->
        deref st' x = unselected (deref st x))
  /\ (forall x, ~ In x (selectedTowers st) -> deref st' x = deref st x)
  /\ sameRegistry (set_mode m st) st'.
Proof.
  intros st'. unfold st', setMode. cbv zeta.
  split.
  { destruct (clearTowerSelection_sameRegistry (set_mode m st)) as (Hm & _).
    exact Hm. }
  split; [reflexivity |].
  split.
  { intros x Hx Hal.
    destruct (fold_setIcon_deref (selectedTowers st) (set_mode m st) x)
      as (_ & _ & Hin).
    exact (Hin Hx Hal). }
  split.
  { intros x Hx.
    destruct (fold_setIcon_deref (selectedTowers st) (set_mode m st) x)
      as (_ & Hout & _).
    exact (Hout Hx). }
  apply clearTowerSelection_sameRegistry.
Qed.

Lemma setMode_clears_selection_witness :
  In 1%nat (selectedTowers exampleMixed) /\ allocated exampleMixed 1
  /\ selectedTowers (setMode Mode_addTower exampleMixed) = []
  /\ marker_icon (tower_marker (deref (setMode Mode_addTower exampleMixed) 1))
     = icon_tower_marker.
Proof.
  assert (Hin : In 1%nat (selectedTowers exampleMixed)) by (simpl; tauto).
  assert (Hal : allocated exampleMixed 1) by (unfold allocated; simpl; tauto).
  destruct (setMode_clears_selection Mode_addTower exampleMixed)
    as (_ & Hsel & Hpl & _).
  split; [exact Hin |]. split; [exact Hal |]. split; [exact Hsel |].
  rewrite (Hpl 1%nat Hin Hal). reflexivity.
Defined.

(** ** Showing and hiding a Fresnel zone *)

Lemma find_link_unique (ls : list Link) (link : Link) :
  NoDup (List.map link_id ls) -> In link ls ->
  find (fun l => Nat.eqb (link_id l) (link_id link)) ls = Some link.
Proof.
  intros Hnd Hin.
  destruct (find_by_id ls (link_id link) (in_map link_id _ _ Hin))
    as [l [Hfind Hid]].
  rewrite Hfind. f_equal.
  apply find_some in Hfind. destruct Hfind as [Hl _].
  now apply (NoDup_map_inj_in link_id ls).
Qed.

Lemma find_same_test {A : Type} (p q : A -> bool) (l : list A) :
  (forall x, p x = q x) -> find p l = find q l.
Proof.
  intros H. induction l as [| a l IH]; simpl; [reflexivity |].
  rewrite H. destruct (q a); [reflexivity | exact IH].
Qed.

Lemma filter_appended_layer (layer : Layer) (layers : list Layer) :
  ~ In layer layers ->
  filter (fun x => negb (layerEq x layer)) (layers ++ [layer]) = layers.
Proof.
  intros Hnot. rewrite filter_app. simpl. rewrite layerEq_refl. simpl.
  rewrite app_nil_r. apply forallb_filter_id, forallb_forall.
  intros x Hx. apply negb_true_iff.
  destruct (layerEq x layer) eqn:Heq; [| reflexivity].
  exfalso. apply Hnot.
  destruct x, layer; simpl in Heq; try discriminate;
    apply Nat.eqb_eq in Heq; now subst.
Qed.

Lemma deactivated_activated (st : State) (link : Link) :
  link_polyline link = primary_color -> link_fresnelZone link = None ->
  with_fresnelZone None (with_polyline primary_color (activated st link)) = link.
Proof.
  destruct link as [i t1 t2 f d c z]. simpl. intros -> ->. reflexivity.
Qed.

(** X14.  A click on a link of positive frequency and positive
    distance while no zone is shown activates it: the link becomes the
    active one, its polyline turns to the success colour, it receives
    a polygon centred at the midpoint of its two towers with half-axes
    [distance * 1000 / 2] and the midpoint Fresnel radius and with the
    bearing from tower 1 to tower 2, and that polygon is added to the
    map; the other links are untouched.  A second click on the same
    link undoes all of it: if the link had the primary colour and no
    polygon before, the state after the two clicks is the state
    before.  (For a frequency that is not positive or a distance of
    [0] the radius of the code is [NaN] or [Infinity] and nothing is
    stated.) *)
Theorem showFresnelZone_toggle (link : Link) (st : State) :
  NoDup (List.map link_id (links st)) -> In link (links st) ->
  activeLinkForFresnel st = None ->
  0 < link_frequency link -> 0 < link_distance link ->
  let st1 := showFresnelZone (link_id link) st in
  activeLinkForFresnel st1 = Some (link_id link)
  /\ links st1 =
     List.map (fun l => if Nat.eqb (link_id l) (link_id link)
                        then activated st link else l) (links st)
  /\ mapLayers st1 = mapLayers st ++ [ZoneLayer (link_id link)]
  /\ heap st1 = heap st /\ towers st1 = towers st
  /\ (link_polyline link = primary_color -> link_fresnelZone link = None ->
      ~ In (ZoneLayer (link_id link)) (mapLayers st) ->
      showFresnelZone (link_id link) st1 = st).
Proof.
  intros Hnd Hin Hact _ _ st1.
  set (id := link_id link) in *.
  assert (Hst1 : st1 =
            mutateLink id (fun l => with_fresnelZone (link_fresnelZone (activated st link)) l)
              (mutateLink id (with_polyline success_color)
                 (addTo (ZoneLayer id) (set_activeLinkForFresnel (Some id) st)))).
  { unfold st1, showFresnelZone. unfold id.
    rewrite (find_link_unique _ _ Hnd Hin), Hact. reflexivity. }
  assert (Hlinks1 : links st1 =
            List.map (fun l => if Nat.eqb (link_id l) id
                               then activated st link else l) (links st)).
  { rewrite Hst1.
    rewrite (mutateLink_twice id (with_polyline success_color)
               (fun l => with_fresnelZone (link_fresnelZone (activated st link)) l))
      by (assumption || reflexivity).
    apply map_ext_in. intros l Hl.
    destruct (Nat.eqb (link_id l) id) eqn:Heq; [| reflexivity].
    apply Nat.eqb_eq in Heq.
    assert (l = link) by (apply (NoDup_map_inj_in link_id (links st)); assumption).
    subst l. reflexivity. }
  assert (Hids1 : List.map link_id (links st1) = List.map link_id (links st)).
  { rewrite Hlinks1, map_map. apply map_ext. intros l.
    destruct (Nat.eqb (link_id l) id) eqn:Heq; [| reflexivity].
    apply Nat.eqb_eq in Heq. now rewrite Heq. }
  split; [rewrite Hst1; reflexivity |].
  split; [exact Hlinks1 |].
  split; [rewrite Hst1; reflexivity |].
  split; [rewrite Hst1; reflexivity |].
  split; [rewrite Hst1; reflexivity |].
  intros Hcolor Hzone Hlayer.
  assert (Hnd1 : NoDup (List.map link_id (links st1))) by now rewrite Hids1.
  assert (Hin1 : In (activated st link) (links st1)).
  { rewrite Hlinks1. apply in_map_iff. exists link.
    split; [| assumption]. unfold id. now rewrite Nat.eqb_refl. }
  assert (Hact1 : activeLinkForFresnel st1 = Some id)
    by (rewrite Hst1; reflexivity).
  assert (Hfind1 : find (fun l => Nat.eqb (link_id l) id) (links st1)
                   = Some (activated st link))
    by exact (find_link_unique _ _ Hnd1 Hin1).
  assert (Hst2 : showFresnelZone id st1 =
            set_activeLinkForFresnel None
              (mutateLink id (with_fresnelZone None)
                 (mutateLink id (with_polyline primary_color)
                    (removeLayer (ZoneLayer id) st1)))).
  { unfold showFresnelZone. rewrite Hfind1, Hact1.
    change (link_id (activated st link)) with id.
    simpl optNatEq. rewrite Nat.eqb_refl.
    unfold deactivateActiveFresnelZone. cbv zeta. rewrite Hact1.
    replace (find (fun l => optNatEq (Some id) (link_id l)) (links st1))
      with (Some (activated st link)).
    - reflexivity.
    - rewrite <- Hfind1. apply find_same_test. intros l. simpl. apply Nat.eqb_sym. }
  rewrite Hst2.
  assert (Hlinks2 : links (mutateLink id (with_fresnelZone None)
                             (mutateLink id (with_polyline primary_color)
                                (removeLayer (ZoneLayer id) st1)))
                    = links st).
  { rewrite (mutateLink_twice id (with_polyline primary_color)
               (with_fresnelZone None)) by (assumption || reflexivity).
    simpl links. rewrite Hlinks1, map_map.
    rewrite <- (map_id (links st)) at 2. apply map_ext_in.
    intros l Hl. destruct (Nat.eqb (link_id l) id) eqn:Heq.
    - change (link_id (activated st link)) with id. rewrite Nat.eqb_refl.
      apply Nat.eqb_eq in Heq.
      assert (l = link) by (apply (NoDup_map_inj_in link_id (links st)); assumption).
      subst l. now apply deactivated_activated.
    - now rewrite Heq. }
  assert (Hlayers2 : mapLayers (removeLayer (ZoneLayer id) st1) = mapLayers st).
  { rewrite Hst1. simpl. now apply filter_appended_layer. }
  transitivity
    (mkState (mode st) (towers st)
       (links (mutateLink id (with_fresnelZone None)
                 (mutateLink id (with_polyline primary_color)
                    (removeLayer (ZoneLayer id) st1))))
       (selectedTowers st) (mapLayers (removeLayer (ZoneLayer id) st1))
       (towerIdCounter st) (linkIdCounter st) (pendingTowerLocation st)
       None (confirmAction st) (heap st) (confirmModal st) (notifications st)).
  - rewrite Hst1. reflexivity.
  - rewrite Hlinks2, Hlayers2, <- Hact. apply state_eta.
Qed.

Lemma showFresnelZone_toggle_witness :
  NoDup (List.map link_id (links exampleNetwork))
  /\ In (exampleLink 1 1 2 40 (-74) 41 (-74)) (links exampleNetwork)
  /\ activeLinkForFresnel exampleNetwork = None
  /\ 0 < link_frequency (exampleLink 1 1 2 40 (-74) 41 (-74))
  /\ 0 < link_distance (exampleLink 1 1 2 40 (-74) 41 (-74))
  /\ activeLinkForFresnel (showFresnelZone 1 exampleNetwork) = Some 1%nat
  /\ showFresnelZone 1 (showFresnelZone 1 exampleNetwork) = exampleNetwork.
Proof.
  pose proof (proj2 exampleNetwork_uniqueIds) as Hnd.
  assert (Hin : In (exampleLink 1 1 2 40 (-74) 41 (-74)) (links exampleNetwork))
    by (simpl; tauto).
  assert (Hf : 0 < link_frequency (exampleLink 1 1 2 40 (-74) 41 (-74)))
    by (simpl; lra).
  assert (Hd : 0 < link_distance (exampleLink 1 1 2 40 (-74) 41 (-74))).
  { simpl. rewrite distance_along_meridian by lra.
    rewrite Rabs_right by lra. pose proof PI_RGT_0. unfold toRadians. lra. }
  destruct (showFresnelZone_toggle (exampleLink 1 1 2 40 (-74) 41 (-74))
              exampleNetwork Hnd Hin eq_refl Hf Hd)
    as (Ha & _ & _ & _ & _ & Hback).
  split; [exact Hnd |]. split; [exact Hin |]. split; [reflexivity |].
  split; [exact Hf |]. split; [exact Hd |].
  split; [exact Ha |].
  apply Hback; [reflexivity | reflexivity |].
  simpl. intuition discriminate.
Defined.

(** ** Confirmation of a deletion *)

Lemma performDeleteLink_modal (m : option ConfirmModal) (id : nat) (st : State) :
  performDeleteLink id (set_confirmModal m st)
  = set_confirmModal m (performDeleteLink id st).
Proof.
  unfold performDeleteLink. simpl links.
  destruct (findIndex _ (links st)) as [i |]; [| reflexivity].
  destruct (nth_error (links st) i) as [link |]; [| reflexivity].
  cbv zeta. unfold updateLinkList.
  destruct (link_fresnelZone link); simpl;
    destruct (optNatEq (activeLinkForFresnel st) id); reflexivity.
Qed.

Lemma fold_performDeleteLink_modal (m : option ConfirmModal) (ids : list nat)
  (st : State) :
  fold_left (fun st id => performDeleteLink id st) ids (set_confirmModal m st)
  = set_confirmModal m (fold_left (fun st id => performDeleteLink id st) ids st).
Proof.
  revert st. induction ids as [| id ids IH]; intros st; simpl; [reflexivity |].
  now rewrite performDeleteLink_modal, IH.
Qed.

Lemma hide_opened_modal (m : option ConfirmModal) (st : State) :
  confirmModal st = None -> confirmAction st = None ->
  hideConfirmationModal (set_confirmModal m st) = st.
Proof.
  intros Hm Ha. rewrite <- (state_eta st) at 2. rewrite Hm, Ha. reflexivity.
Qed.

(** X15.  Deleting goes through the confirmation modal.  While no
    modal is open, the delete button of a tower or of a link of the
    registry only opens the modal, and cancelling, or clicking beside
    the modal, gives back the state as it was.  Confirming the
    deletion of a link gives exactly the state [performDeleteLink]
    produces.  Confirming the deletion of a tower only closes the
    modal (the exit animation of the list item starts): the state is
    again the one before the request, and it is the end of the
    animation that gives the state [performDeleteTower] produces. *)
Theorem deletion_is_confirmed (st : State) :
  confirmModal st = None -> confirmAction st = None ->
  (forall id, In id (towers st) ->
     requestDeleteTower id st
       = set_confirmModal (Some (mkConfirmModal (cb_deleteTower id) false)) st
     /\ handleCancel (requestDeleteTower id st) = st
     /\ hideConfirmationModal (requestDeleteTower id st) = st
     /\ handleConfirm (requestDeleteTower id st) = st
     /\ handleEvent (TowerItemAnimationEnd id)
          (handleConfirm (requestDeleteTower id st))
        = performDeleteTower id st)
  /\ (forall id, In id (List.map link_id (links st)) ->
        deleteLink id false st
          = set_confirmModal (Some (mkConfirmModal (cb_deleteLink id) false)) st
        /\ handleCancel (deleteLink id false st) = st
        /\ hideConfirmationModal (deleteLink id false st) = st
        /\ handleConfirm (deleteLink id false st) = performDeleteLink id st).
Proof.
  intros Hm Ha. split.
  - intros id Hin.
    assert (Hreq : requestDeleteTower id st
                   = set_confirmModal
                       (Some (mkConfirmModal (cb_deleteTower id) false)) st).
    { unfold requestDeleteTower. now rewrite (find_tower_present _ _ Hin). }
    assert (Hconfirm : handleConfirm (requestDeleteTower id st) = st).
    { rewrite Hreq. unfold handleConfirm. simpl.
      rewrite (find_tower_present _ _ Hin). now apply hide_opened_modal. }
    rewrite Hconfirm. rewrite Hreq. split; [reflexivity |].
    split; [rewrite handleCancel_hides; simpl; now apply hide_opened_modal |].
    split; [now apply hide_opened_modal |].
    split; reflexivity.
  - intros id Hin.
    destruct (find_by_id _ _ Hin) as [link [Hfind _]].
    assert (Hreq : deleteLink id false st
                   = set_confirmModal
                       (Some (mkConfirmModal (cb_deleteLink id) false)) st).
    { unfold deleteLink. now rewrite Hfind. }
    rewrite Hreq. split; [reflexivity |].
    split; [rewrite handleCancel_hides; simpl; now apply hide_opened_modal |].
    split; [now apply hide_opened_modal |].
    unfold handleConfirm. simpl. rewrite performDeleteLink_modal.
    destruct (performDeleteLink_heap id st) as (_ & _ & Hm' & Ha' & _).
    apply hide_opened_modal; congruence.
Qed.

Lemma deletion_is_confirmed_witness :
  confirmModal exampleNetwork = None /\ confirmAction exampleNetwork = None
  /\ In 1%nat (towers exampleNetwork)
  /\ handleCancel (requestDeleteTower 1 exampleNetwork) = exampleNetwork
  /\ handleConfirm (requestDeleteTower 1 exampleNetwork) = exampleNetwork
  /\ handleEvent (TowerItemAnimationEnd 1)
       (handleConfirm (requestDeleteTower 1 exampleNetwork))
     = performDeleteTower 1 exampleNetwork
  /\ In 3%nat (List.map link_id (links exampleNetwork))
  /\ handleConfirm (deleteLink 3 false exampleNetwork)
     = performDeleteLink 3 exampleNetwork.
Proof.
  destruct (deletion_is_confirmed exampleNetwork eq_refl eq_refl) as [Ht Hl].
  assert (H1 : In 1%nat (towers exampleNetwork)) by (simpl; tauto).
  assert (H3 : In 3%nat (List.map link_id (links exampleNetwork)))
    by (simpl; tauto).
  destruct (Ht 1%nat H1) as (_ & Hc & _ & Hok & Hend).
  destruct (Hl 3%nat H3) as (_ & _ & _ & Hokl).
  split; [reflexivity |]. split; [reflexivity |]. split; [exact H1 |].
  split; [exact Hc |]. split; [exact Hok |]. split; [exact Hend |].
  split; [exact H3 | exact Hokl].
Defined.

(** * Invariants of the reachable states *)

(** ** Tower ids *)

Lemma fixedPart_ids (l l' : list Tower) :
  List.map fixedPart l' = List.map fixedPart l ->
  List.map tower_id l' = List.map tower_id l.
Proof.
  intros H.
  assert (E : forall k, List.map tower_id k
                        = List.map (fun x => fst (fst x)) (List.map fixedPart k)).
  { intros k. rewrite map_map. reflexivity. }
  now rewrite (E l'), (E l), H.
Qed.

Lemma fixedPart_Forall (Q : nat * string * (R * R) -> Prop) (l l' : list Tower) :
  List.map fixedPart l' = List.map fixedPart l ->
  Forall (fun t => Q (fixedPart t)) l -> Forall (fun t => Q (fixedPart t)) l'.
Proof.
  intros H Hall.
  apply (proj1 (Forall_map fixedPart Q l')). rewrite H.
  now apply (proj2 (Forall_map fixedPart Q l)).
Qed.

Lemma sameTowers_refl (st : State) : sameTowers st st.
Proof. repeat split. Qed.

Lemma sameTowers_trans (a b c : State) :
  sameTowers a b -> sameTowers b c -> sameTowers a c.
Proof. unfold sameTowers. intuition congruence. Qed.

Lemma mutate_sameTowers (ref : nat) (f : Tower -> Tower) (st : State) :
  (forall t, fixedPart (f t) = fixedPart t) -> sameTowers st (mutate ref f st).
Proof.
  intros Hid. split; [| split; reflexivity].
  simpl. now apply mutateFirst_map_preserved.
Qed.

Lemma setIcon_sameTowers (ref : nat) (i : Icon) (st : State) :
  sameTowers st (setIcon ref i st).
Proof. apply mutate_sameTowers. reflexivity. Qed.

Lemma clearTowerSelection_sameTowers (st : State) :
  sameTowers st (clearTowerSelection st).
Proof.
  unfold clearTowerSelection, updateTowerList. cbv zeta.
  match goal with
  | |- sameTowers st (set_selectedTowers [] ?s) =>
      apply (sameTowers_trans st s); [| repeat split]
  end.
  generalize (selectedTowers st) at 1. intros refs. revert st.
  induction refs as [| r refs IH]; intros st; simpl.
  - apply sameTowers_refl.
  - eapply sameTowers_trans; [apply (setIcon_sameTowers r) | apply IH].
Qed.

Lemma createLink_sameTowers (a b : nat) (st : State) :
  sameTowers st (createLink a b st).
Proof.
  unfold createLink. cbv zeta. destruct (existsb _ (links st)); repeat split.
Qed.

Lemma handleTowerClickForLink_sameTowers (tower : nat) (st : State) :
  sameTowers st (handleTowerClickForLink tower st).
Proof.
  unfold handleTowerClickForLink. cbv zeta.
  match goal with
  | |- sameTowers st (match selectedTowers ?s with _ => _ end) => set (s1 := s)
  end.
  assert (Hs : sameTowers st s1).
  { unfold s1. destruct (findIndex _ (selectedTowers st)).
    - eapply sameTowers_trans; [| apply setIcon_sameTowers]. repeat split.
    - eapply sameTowers_trans; [| apply setIcon_sameTowers]. repeat split. }
  clearbody s1.
  destruct (selectedTowers s1) as [| t1 [| t2 [| t3 rest]]]; try exact Hs.
  match goal with
  | |- sameTowers st (if ?c then _ else _) => destruct c
  end.
  - eapply sameTowers_trans; [| apply clearTowerSelection_sameTowers].
    eapply sameTowers_trans; [exact Hs | repeat split].
  - eapply sameTowers_trans; [| apply clearTowerSelection_sameTowers].
    eapply sameTowers_trans; [exact Hs | apply createLink_sameTowers].
Qed.

Lemma deactivateActiveFresnelZone_sameTowers (st : State) :
  sameTowers st (deactivateActiveFresnelZone st).
Proof.
  unfold deactivateActiveFresnelZone. cbv zeta.
  destruct (find _ (links st)) as [prev |]; [| repeat split].
  destruct (link_fresnelZone prev); repeat split.
Qed.

Lemma showFresnelZone_sameTowers (linkId : nat) (st : State) :
  sameTowers st (showFresnelZone linkId st).
Proof.
  unfold showFresnelZone.
  destruct (find _ (links st)) as [link |]; [| apply sameTowers_refl].
  destruct (optNatEq (activeLinkForFresnel st) (link_id link));
    [apply deactivateActiveFresnelZone_sameTowers |].
  cbv zeta. unfold updateLinkList.
  destruct (activeLinkForFresnel st).
  - pose proof (deactivateActiveFresnelZone_sameTowers st) as (H1 & H2 & H3).
    split; [exact H1 | split; [exact H2 | exact H3]].
  - repeat split.
Qed.

Lemma updateTowerFrequency_sameTowers towerId newFrequency (st : State) :
  sameTowers st (updateTowerFrequency towerId newFrequency st).
Proof.
  unfold updateTowerFrequency.
  destruct (find _ (towers st)) as [tower |]; [| apply sameTowers_refl].
  cbv zeta.
  match goal with
  | |- sameTowers st (if ?c then ?x else ?y) =>
      assert (Hy : sameTowers st y);
      [| destruct c; [| exact Hy];
         destruct Hy as (H1 & H2 & H3);
         split; [exact H1 | split; [exact H2 | exact H3]]]
  end.
  unfold updateTowerList, setPopupContent.
  eapply sameTowers_trans; apply mutate_sameTowers; reflexivity.
Qed.

Lemma resolve_sameTowers value (st : State) : sameTowers st (resolve value st).
Proof.
  unfold resolve. destruct (confirmAction st) as [[towerId] |];
    [| apply sameTowers_refl].
  unfold updateTowerFrequency_resume, updateTowerList.
  destruct value; simpl; [apply sameTowers_refl |].
  apply mutate_sameTowers. reflexivity.
Qed.

Lemma fold_performDeleteLink_sameTowers (ids : list nat) (st : State) :
  sameTowers st (fold_left (fun st id => performDeleteLink id st) ids st).
Proof.
  destruct (fold_performDeleteLink_heap ids st) as (Hh & _ & _ & _ & _ & _ & Hc & _).
  cbv zeta in Hh, Hc. split; [now rewrite Hh |]. split; [| exact Hc].
  revert st Hh Hc. induction ids as [| id ids IH]; intros st _ _; simpl;
    [reflexivity |].
  destruct (fold_performDeleteLink_heap ids (performDeleteLink id st))
    as (Hh & _ & _ & _ & _ & _ & Hc & _).
  rewrite (IH _ Hh Hc). unfold performDeleteLink.
  destruct (findIndex _ (links st)) as [i |]; [| reflexivity].
  destruct (nth_error (links st) i) as [link |]; [| reflexivity].
  cbv zeta. unfold updateLinkList.
  destruct (link_fresnelZone link); simpl;
    destruct (optNatEq (activeLinkForFresnel st) id); reflexivity.
Qed.

Lemma splice1_In {A : Type} (i : nat) (l : list A) (x : A) :
  In x (splice1 i l) -> In x l.
Proof.
  revert i. induction l as [| a l IH]; intros i; simpl; [destruct i; tauto |].
  destruct i as [| i]; [tauto |].
  simpl. intros [-> | H]; [now left | right; eapply IH; eassumption].
Qed.

Lemma splice1_NoDup {A : Type} (i : nat) (l : list A) :
  NoDup l -> NoDup (splice1 i l).
Proof.
  revert i. induction l as [| a l IH]; intros i Hnd; simpl;
    [destruct i; constructor |].
  inversion Hnd as [| ? ? Hnotin Hnd']; subst.
  destruct i as [| i]; [assumption |].
  constructor; [| now apply IH].
  intros Hin. apply Hnotin. eapply splice1_In; eassumption.
Qed.

(** What [performDeleteTower] does to the tower collection. *)
Lemma performDeleteTower_towers (towerId : nat) (st : State) :
  towersShrink st (performDeleteTower towerId st).
Proof.
  unfold towersShrink, performDeleteTower.
  destruct (findIndex _ (towers st)) as [i |]; [| repeat split; tauto].
  destruct (nth_error (towers st) i) as [tower |]; [| repeat split; tauto].
  cbv zeta. rewrite fold_links_as_ids. unfold updateLinkList, updateTowerList.
  match goal with
  | |- context [fold_left ?f ?ids st] =>
      destruct (fold_performDeleteLink_sameTowers ids st) as (Hh & Ht & Hc);
      set (s := fold_left f ids st) in *
  end.
  simpl. rewrite Ht.
  split; [exact Hh |]. split; [exact Hc |].
  split; [intros x; apply splice1_In | apply splice1_NoDup].
Qed.

Lemma sameTowers_shrink (st st' : State) :
  sameTowers st st' -> towersShrink st st'.
Proof.
  intros (Hh & Ht & Hc). unfold towersShrink. rewrite Hh, Hc, Ht. tauto.
Qed.

Lemma towersShrink_trans (a b c : State) :
  towersShrink a b -> towersShrink b c -> towersShrink a c.
Proof.
  intros (H1 & H2 & H3 & H4) (H1' & H2' & H3' & H4'). unfold towersShrink.
  rewrite H1', H1, H2', H2.
  split; [reflexivity |]. split; [reflexivity |]. split.
  - intros x Hx. apply H3, H3', Hx.
  - intros Hnd. apply H4', H4, Hnd.
Qed.

Lemma towersShrink_fresh (st st' : State) :
  towersShrink st st' -> towersWellFormed st -> towersWellFormed st'.
Proof.
  intros (Hh & Hc & Hin & Hnd') (Hpos & Hnd & Hall & Hndt & Hincl).
  unfold towersWellFormed. rewrite (fixedPart_ids _ _ Hh), Hc.
  split; [assumption |]. split; [assumption |]. split; [| split].
  - revert Hall.
    apply (fixedPart_Forall
             (fun x => (1 <= fst (fst x) < towerIdCounter st)%nat
                       /\ truthyString (snd (fst x)) = true) _ _ Hh).
  - now apply Hnd'.
  - intros x Hx. apply Hincl, Hin, Hx.
Qed.

Lemma towersGrow_fresh (st st' : State) :
  towersGrow st st' -> towersWellFormed st -> towersWellFormed st'.
Proof.
  intros (t & Hh & Hid & Hname & Hc & Ht) (Hpos & Hnd & Hall & Hndt & Hincl).
  unfold towersWellFormed. rewrite Hh, Hc, Ht, map_app. simpl. rewrite Hid.
  assert (Hnew : ~ In (towerIdCounter st) (List.map tower_id (heap st))).
  { intros Hin. apply in_map_iff in Hin. destruct Hin as [u [Hu Hin]].
    rewrite Forall_forall in Hall. specialize (Hall _ Hin). lia. }
  split; [lia |]. split; [| split; [| split]].
  - apply NoDup_app; [assumption | repeat constructor; intros [] |].
    intros id Hin [<- | []]. contradiction.
  - apply Forall_app. split.
    + eapply Forall_impl; [| exact Hall]. simpl. intros u [Hu Hn].
      split; [lia | assumption].
    + constructor; [| constructor]. split; [lia | assumption].
  - apply NoDup_app; [assumption | repeat constructor; intros [] |].
    intros id Hin [<- | []]. apply Hnew, Hincl, Hin.
  - intros x Hx. apply in_app_or in Hx. apply in_or_app.
    destruct Hx as [Hx | Hx]; [left; now apply Hincl | now right].
Qed.

Lemma saveTower_towers name frequency (st : State) :
  sameTowers st (saveTower name frequency st)
  \/ towersGrow st (saveTower name frequency st).
Proof.
  unfold saveTower.
  destruct (truthyString name) eqn:Hname; simpl; [| left; repeat split].
  destruct (negb (truthyNumber frequency) || numLe frequency 0);
    [left; repeat split |].
  destruct (pendingTowerLocation st) as [latlng |]; [| left; repeat split].
  right. unfold towersGrow, hideTowerModal, addTower, updateTowerList. simpl.
  eexists. split; [reflexivity |]. repeat split. exact Hname.
Qed.

Lemma runCallback_towers (cb : ConfirmCallback) (st : State) :
  towersShrink st (runCallback cb st).
Proof.
  destruct cb as [towerId | linkId | ids]; simpl.
  - destruct (find _ (towers st));
      [apply sameTowers_shrink, sameTowers_refl | apply performDeleteTower_towers].
  - apply sameTowers_shrink.
    apply (fold_performDeleteLink_sameTowers [linkId] st).
  - apply sameTowers_shrink, fold_performDeleteLink_sameTowers.
Qed.

(** How one gesture changes the tower collection: a successful save
    allocates one tower, everything else allocates nothing. *)
Lemma handleEvent_towers (e : Event) (st : State) :
  towersShrink st (handleEvent e st) \/ towersGrow st (handleEvent e st).
Proof.
  assert (Hsame : forall s, sameTowers st s ->
            towersShrink st s \/ towersGrow st s).
  { intros s Hs. left. now apply sameTowers_shrink. }
  destruct e; simpl.
  - apply Hsame. unfold handleMapClick. destruct (mode st); repeat split.
  - destruct (saveTower_towers name frequency st) as [H | H];
      [now apply Hsame | now right].
  - apply Hsame. repeat split.
  - apply Hsame. destruct (existsb _ (mapLayers st)); [| apply sameTowers_refl].
    destruct (mode st); [apply sameTowers_refl |].
    apply handleTowerClickForLink_sameTowers.
  - apply Hsame. unfold setMode.
    eapply sameTowers_trans; [| apply clearTowerSelection_sameTowers].
    repeat split.
  - apply Hsame, showFresnelZone_sameTowers.
  - apply Hsame. unfold requestDeleteTower.
    destruct (find _ (towers st)); [| apply sameTowers_refl].
    unfold showConfirmationModal. repeat split.
  - apply Hsame. unfold deleteLink.
    destruct (find _ (links st)); [| apply sameTowers_refl].
    unfold showConfirmationModal. repeat split.
  - apply Hsame, updateTowerFrequency_sameTowers.
  - left. unfold handleConfirm.
    destruct (confirmModal st) as [[cb withResolve] |];
      [| apply sameTowers_shrink, sameTowers_refl].
    cbv zeta. simpl modal_onConfirm. simpl modal_returnPromise.
    eapply towersShrink_trans; [apply (runCallback_towers cb) |].
    apply sameTowers_shrink.
    destruct withResolve.
    + eapply sameTowers_trans; [| apply resolve_sameTowers]. repeat split.
    + repeat split.
  - apply Hsame. unfold handleCancel.
    destruct (confirmModal st) as [[cb withResolve] |];
      [| apply sameTowers_refl].
    cbv zeta. simpl modal_returnPromise. destruct withResolve.
    + eapply sameTowers_trans; [| apply resolve_sameTowers]. repeat split.
    + repeat split.
  - apply Hsame. repeat split.
  - left. apply performDeleteTower_towers.
Qed.

Lemma reachable_towersWellFormed (st : State) :
  reachable st -> towersWellFormed st.
Proof.
  induction 1 as [| e st Hr IH].
  - unfold towersWellFormed. simpl. repeat split; try constructor; try lia.
    intros x [].
  - destruct (handleEvent_towers e st) as [H | H].
    + eapply towersShrink_fresh; eassumption.
    + eapply towersGrow_fresh; eassumption.
Qed.

(** ** Ids are not given twice *)

Lemma idsNotReused_refl ids counter (st : State) : idsNotReused ids counter st st.
Proof. split; [lia | tauto]. Qed.

Lemma idsNotReused_trans ids counter (a b c : State) :
  idsNotReused ids counter a b -> idsNotReused ids counter b c ->
  idsNotReused ids counter a c.
Proof.
  intros [Hc1 H1] [Hc2 H2]. split; [lia |].
  intros id Hid. destruct (H2 id Hid) as [Hb | Hb]; [auto | right; lia].
Qed.

Lemma handleEvent_towers_not_reused (e : Event) (st : State) :
  idsNotReused towers towerIdCounter st (handleEvent e st).
Proof.
  destruct (handleEvent_towers e st)
    as [(_ & Hc & Hin & _) | (t & _ & _ & _ & Hc & Ht)]; split.
  - lia.
  - intros id Hid. left. now apply Hin.
  - lia.
  - intros id Hid. rewrite Ht in Hid. apply in_app_or in Hid.
    destruct Hid as [Hid | [<- | []]]; [now left | right; lia].
Qed.

Lemma sameLinkIds_not_reused (st st' : State) :
  sameLinkIds st st' -> idsNotReused linkIds linkIdCounter st st'.
Proof.
  intros [Hl Hc]. unfold idsNotReused, linkIds. rewrite Hl, Hc.
  split; [lia | tauto].
Qed.

Lemma filtered_not_reused (p : Link -> bool) (st st' : State) :
  links st' = filter p (links st) ->
  linkIdCounter st' = linkIdCounter st ->
  idsNotReused linkIds linkIdCounter st st'.
Proof.
  intros Hl Hc. unfold idsNotReused, linkIds. rewrite Hl, Hc.
  split; [lia |]. intros id Hid. left.
  apply in_map_iff in Hid. destruct Hid as [l [<- Hin]].
  apply filter_In in Hin. apply in_map. tauto.
Qed.

Lemma createLink_not_reused (a b : nat) (st : State) :
  idsNotReused linkIds linkIdCounter st (createLink a b st).
Proof.
  unfold createLink. cbv zeta.
  destruct (existsb _ (links st));
    [apply sameLinkIds_not_reused; split; reflexivity |].
  unfold idsNotReused, linkIds, updateLinkList. simpl.
  split; [lia |]. intros id Hid. rewrite map_app in Hid.
  apply in_app_or in Hid. destruct Hid as [Hid | [<- | []]];
    [now left | right; simpl; lia].
Qed.

Lemma handleTowerClickForLink_not_reused (tower : nat) (st : State) :
  idsNotReused linkIds linkIdCounter st (handleTowerClickForLink tower st).
Proof.
  unfold handleTowerClickForLink. cbv zeta.
  match goal with
  | |- idsNotReused _ _ st (match selectedTowers ?s with _ => _ end) =>
      set (s1 := s)
  end.
  assert (Hs : idsNotReused linkIds linkIdCounter st s1).
  { apply sameLinkIds_not_reused. unfold s1.
    destruct (findIndex _ (selectedTowers st)); split; reflexivity. }
  clearbody s1.
  destruct (selectedTowers s1) as [| t1 [| t2 [| t3 rest]]]; try exact Hs.
  match goal with
  | |- idsNotReused _ _ st (if ?c then _ else _) => destruct c
  end.
  - eapply idsNotReused_trans; [exact Hs |].
    apply sameLinkIds_not_reused.
    eapply sameLinkIds_trans;
      [| apply sameRegistry_sameLinkIds, clearTowerSelection_sameRegistry].
    split; reflexivity.
  - eapply idsNotReused_trans; [exact Hs |].
    eapply idsNotReused_trans; [apply createLink_not_reused |].
    apply sameLinkIds_not_reused, sameRegistry_sameLinkIds,
      clearTowerSelection_sameRegistry.
Qed.

Lemma performDeleteTower_not_reused (towerId : nat) (st : State) :
  linkIdsFresh st ->
  idsNotReused linkIds linkIdCounter st (performDeleteTower towerId st).
Proof.
  intros [Hnd _]. unfold performDeleteTower.
  destruct (findIndex _ (towers st)) as [i |]; [| apply idsNotReused_refl].
  destruct (nth_error (towers st) i) as [tower |]; [| apply idsNotReused_refl].
  cbv zeta. rewrite fold_links_as_ids.
  unfold updateLinkList, updateTowerList.
  match goal with
  | |- context [fold_left ?f ?ids st] =>
      destruct (fold_performDeleteLink_effect ids st Hnd) as (Hl & _ & Hc & _)
  end.
  eapply filtered_not_reused; [exact Hl | exact Hc].
Qed.

Lemma runCallback_not_reused (cb : ConfirmCallback) (st : State) :
  linkIdsFresh st ->
  idsNotReused linkIds linkIdCounter st (runCallback cb st).
Proof.
  intros Hf. pose proof Hf as [Hnd _].
  destruct cb as [towerId | linkId | ids]; simpl.
  - destruct (find _ (towers st));
      [apply idsNotReused_refl | now apply performDeleteTower_not_reused].
  - destruct (performDeleteLink_effect linkId st Hnd) as (Hl & _ & Hc & _).
    eapply filtered_not_reused; [exact Hl | exact Hc].
  - destruct (fold_performDeleteLink_effect ids st Hnd) as (Hl & _ & Hc & _).
    eapply filtered_not_reused; [exact Hl | exact Hc].
Qed.

Lemma handleEvent_links_not_reused (e : Event) (st : State) :
  linkIdsFresh st ->
  idsNotReused linkIds linkIdCounter st (handleEvent e st).
Proof.
  intros Hf. destruct e; simpl.
  - apply sameLinkIds_not_reused. unfold handleMapClick.
    destruct (mode st); split; reflexivity.
  - apply sameLinkIds_not_reused, saveTower_sameLinkIds.
  - apply sameLinkIds_not_reused. split; reflexivity.
  - destruct (existsb _ (mapLayers st)); [| apply idsNotReused_refl].
    destruct (mode st); [apply idsNotReused_refl |].
    apply handleTowerClickForLink_not_reused.
  - apply sameLinkIds_not_reused, setMode_sameLinkIds.
  - apply sameLinkIds_not_reused, showFresnelZone_sameLinkIds.
  - apply sameLinkIds_not_reused. unfold requestDeleteTower.
    destruct (find _ (towers st)); [| apply sameLinkIds_refl].
    apply showConfirmationModal_sameLinkIds.
  - apply sameLinkIds_not_reused. unfold deleteLink.
    destruct (find _ (links st)); [| apply sameLinkIds_refl].
    apply showConfirmationModal_sameLinkIds.
  - apply sameLinkIds_not_reused, updateTowerFrequency_sameLinkIds.
  - unfold handleConfirm.
    destruct (confirmModal st) as [m |]; [| apply idsNotReused_refl].
    cbv zeta.
    eapply idsNotReused_trans; [apply (runCallback_not_reused (modal_onConfirm m) st Hf) |].
    apply sameLinkIds_not_reused.
    destruct (modal_returnPromise m).
    + eapply sameLinkIds_trans; [| apply resolve_sameLinkIds]. split; reflexivity.
    + split; reflexivity.
  - apply sameLinkIds_not_reused. unfold handleCancel.
    destruct (confirmModal st) as [m |]; [| apply sameLinkIds_refl].
    cbv zeta. destruct (modal_returnPromise m).
    + eapply sameLinkIds_trans; [| apply resolve_sameLinkIds]. split; reflexivity.
    + split; reflexivity.
  - apply sameLinkIds_not_reused. split; reflexivity.
  - now apply performDeleteTower_not_reused.
Qed.

(** X16.  In every state the application can reach, tower ids and
    link ids are each unique in their collection, every tower id is at
    least 1, and all ids are below their counter.  Whatever gestures
    follow, the counters never go back and an id that shows up in a
    collection was either there before or is at least the old counter:
    the id of a deleted tower or link is never given again. *)
Theorem ids_unique_never_reused (st : State) :
  reachable st ->
  uniqueIds st
  /\ (forall id, In id (towers st) -> (1 <= id < towerIdCounter st)%nat)
  /\ (forall id, In id (linkIds st) -> (id < linkIdCounter st)%nat)
  /\ (forall events,
        idsNotReused towers towerIdCounter st (run events st)
        /\ idsNotReused linkIds linkIdCounter st (run events st)).
Proof.
  intros Hr.
  destruct (reachable_towersWellFormed st Hr) as (_ & _ & Hlt & Hndt & Hincl).
  destruct (reachable_fresh_ids st Hr) as [Hndl Hltl].
  split; [split; assumption |].
  split; [| split].
  - intros id Hid. apply Hincl, in_map_iff in Hid.
    destruct Hid as [t [<- Hin]].
    rewrite Forall_forall in Hlt. apply Hlt, Hin.
  - intros id Hid. rewrite Forall_forall in Hltl. apply Hltl, Hid.
  - intros events. revert st Hr Hlt Hndt Hincl Hndl Hltl.
    induction events as [| e events IH]; intros st Hr _ _ _ _ _; simpl.
    + split; apply idsNotReused_refl.
    + assert (Hr' : reachable (handleEvent e st)) by now constructor.
      destruct (reachable_towersWellFormed _ Hr') as (_ & _ & Hlt & Hndt & Hincl).
      destruct (reachable_fresh_ids _ Hr') as [Hndl Hltl].
      destruct (IH _ Hr' Hlt Hndt Hincl Hndl Hltl) as [IHt IHl].
      split.
      * eapply idsNotReused_trans;
          [apply handleEvent_towers_not_reused | exact IHt].
      * eapply idsNotReused_trans;
          [apply handleEvent_links_not_reused, reachable_fresh_ids, Hr
          | exact IHl].
Qed.

Lemma ids_unique_never_reused_witness :
  reachable exampleNetwork
  /\ uniqueIds exampleNetwork
  /\ (forall id, In id (towers exampleNetwork) -> (1 <= id < 4)%nat)
  /\ idsNotReused towers towerIdCounter exampleNetwork
       (run [DeleteTowerClick 2; ConfirmClick; TowerItemAnimationEnd 2]
          exampleNetwork).
Proof.
  pose proof exampleNetwork_reachable as Hr.
  destruct (ids_unique_never_reused exampleNetwork Hr) as (Hu & Ht & _ & Hrun).
  split; [exact Hr |]. split; [exact Hu |]. split; [exact Ht |].
  exact (proj1 (Hrun [DeleteTowerClick 2; ConfirmClick;
                      TowerItemAnimationEnd 2])).
Defined.

(** ** Towers never move *)

Lemma find_fixed_prefix (id : nat) (l l' : list Tower)
  (ext : list (nat * string * (R * R))) :
  List.map fixedPart l' = List.map fixedPart l ++ ext ->
  In id (List.map tower_id l) ->
  option_map fixedPart (find (fun t => Nat.eqb (tower_id t) id) l')
  = option_map fixedPart (find (fun t => Nat.eqb (tower_id t) id) l).
Proof.
  revert l'. induction l as [| a l IH]; intros l' Hmap Hin; [contradiction |].
  destruct l' as [| a' l']; [discriminate |].
  simpl in Hmap.
  assert (Ha : fixedPart a' = fixedPart a) by congruence.
  assert (Hrest : List.map fixedPart l' = List.map fixedPart l ++ ext)
    by congruence.
  assert (Hid : tower_id a' = tower_id a)
    by exact (f_equal (fun x => fst (fst x)) Ha).
  simpl. rewrite Hid.
  destruct (Nat.eqb (tower_id a) id) eqn:Heq; simpl; [now rewrite Ha |].
  apply IH; [exact Hrest |].
  destruct Hin as [H | H]; [| exact H].
  rewrite H, Nat.eqb_refl in Heq. discriminate.
Qed.

Lemma deref_fixed_prefix (st st' : State) (id : nat)
  (ext : list (nat * string * (R * R))) :
  List.map fixedPart (heap st') = List.map fixedPart (heap st) ++ ext ->
  allocated st id ->
  allocated st' id /\ fixedPart (deref st' id) = fixedPart (deref st id).
Proof.
  intros Hmap Hin. split.
  - unfold allocated in *.
    assert (E : forall k, List.map tower_id k
                          = List.map (fun x => fst (fst x)) (List.map fixedPart k)).
    { intros k. rewrite map_map. reflexivity. }
    rewrite E, Hmap, map_app, <- E. apply in_or_app. now left.
  - pose proof (find_fixed_prefix id _ _ ext Hmap Hin) as H.
    unfold deref.
    destruct (find _ (heap st')) as [t' |], (find _ (heap st)) as [t |] eqn:Hf;
      simpl in H; congruence.
Qed.

Lemma handleEvent_heap_grows (e : Event) (st : State) :
  exists ext,
    List.map fixedPart (heap (handleEvent e st))
    = List.map fixedPart (heap st) ++ ext.
Proof.
  destruct (handleEvent_towers e st) as [(Hh & _) | (t & Hh & _)].
  - exists []. now rewrite app_nil_r.
  - exists [fixedPart t]. now rewrite Hh, map_app.
Qed.

Lemma run_heap_grows (events : list Event) (st : State) :
  exists ext,
    List.map fixedPart (heap (run events st))
    = List.map fixedPart (heap st) ++ ext.
Proof.
  revert st. induction events as [| e events IH]; intros st; simpl.
  - exists []. now rewrite app_nil_r.
  - destruct (IH (handleEvent e st)) as [ext2 H2].
    destruct (handleEvent_heap_grows e st) as [ext1 H1].
    exists (ext1 ++ ext2). now rewrite H2, H1, app_assoc.
Qed.

(** X17.  A tower object keeps its id, its name and its position for
    good: whatever gestures follow, also after the tower has been
    deleted from the collection, the object behind the reference has
    the id, name, latitude and longitude it was created with.  In a
    reachable state every tower of the collection is such an object,
    its [id] field is the reference itself and its name is not
    empty. *)
Theorem towers_never_move (st : State) (events : list Event) (id : nat) :
  (allocated st id ->
     allocated (run events st) id
     /\ tower_id (deref (run events st) id) = id
     /\ tower_name (deref (run events st) id) = tower_name (deref st id)
     /\ tower_lat (deref (run events st) id) = tower_lat (deref st id)
     /\ tower_lng (deref (run events st) id) = tower_lng (deref st id))
  /\ (reachable st -> In id (towers st) ->
        allocated st id
        /\ tower_id (deref st id) = id
        /\ truthyString (tower_name (deref st id)) = true).
Proof.
  split.
  - intros Hal. destruct (run_heap_grows events st) as [ext Hext].
    destruct (deref_fixed_prefix st (run events st) id ext Hext Hal) as [Hal' Hfix].
    split; [exact Hal' |]. split; [now apply deref_id |].
    unfold fixedPart in Hfix. injection Hfix as _ Hn Hlat Hlng. tauto.
  - intros Hr Hin.
    destruct (reachable_towersWellFormed st Hr) as (_ & _ & Hall & _ & Hincl).
    assert (Hal : allocated st id) by (apply Hincl, Hin).
    split; [exact Hal |]. split; [now apply deref_id |].
    unfold deref. destruct (find _ (heap st)) as [t |] eqn:Hf.
    + apply find_some in Hf. rewrite Forall_forall in Hall.
      apply (Hall t), Hf.
    + exfalso. unfold allocated in Hal. apply in_map_iff in Hal.
      destruct Hal as [t [Hid Ht]].
      pose proof (find_none _ _ Hf t Ht) as Hno. cbv beta in Hno.
      rewrite Hid, Nat.eqb_refl in Hno. discriminate.
Qed.

Lemma towers_never_move_witness :
  allocated exampleNetwork 2
  /\ tower_lat
       (deref (run [DeleteTowerClick 2; ConfirmClick; TowerItemAnimationEnd 2]
                 exampleNetwork) 2)
     = tower_lat (deref exampleNetwork 2)
  /\ reachable exampleNetwork
  /\ In 2%nat (towers exampleNetwork)
  /\ truthyString (tower_name (deref exampleNetwork 2)) = true.
Proof.
  assert (Hal : allocated exampleNetwork 2) by (unfold allocated; simpl; tauto).
  assert (Hin : In 2%nat (towers exampleNetwork)) by (simpl; tauto).
  pose proof exampleNetwork_reachable as Hr.
  destruct (towers_never_move exampleNetwork
              [DeleteTowerClick 2; ConfirmClick; TowerItemAnimationEnd 2]
              2%nat) as [Hfix Hwf].
  destruct (Hfix Hal) as (_ & _ & _ & Hlat & _).
  destruct (Hwf Hr Hin) as (_ & _ & Hname).
  split; [exact Hal |]. split; [exact Hlat |]. split; [exact Hr |].
  split; [exact Hin |]. exact Hname.
Defined.

(** ** The map mirrors the registry *)

Lemma layerEq_eq (a b : Layer) : layerEq a b = true <-> a = b.
Proof.
  destruct a, b; simpl; try (split; [discriminate | congruence]);
    rewrite Nat.eqb_eq; split; congruence.
Qed.

Lemma In_removed (x layer : Layer) (layers : list Layer) :
  In x (filter (fun y => negb (layerEq y layer)) layers)
  <-> In x layers /\ x <> layer.
Proof.
  rewrite filter_In, negb_true_iff.
  split; intros [H1 H2]; (split; [exact H1 |]).
  - intros ->. now rewrite layerEq_refl in H2.
  - destruct (layerEq x layer) eqn:Heq; [| reflexivity].
    apply layerEq_eq in Heq. contradiction.
Qed.

Lemma In_filtered_ids (k id : nat) (ls : list Link) :
  In k (List.map link_id (filter (fun l => negb (Nat.eqb (link_id l) id)) ls))
  <-> In k (List.map link_id ls) /\ k <> id.
Proof.
  rewrite !in_map_iff. split.
  - intros [l [<- Hl]]. apply filter_In in Hl. destruct Hl as [Hl Hne].
    apply negb_true_iff, Nat.eqb_neq in Hne. split; [now exists l | exact Hne].
  - intros [[l [<- Hl]] Hne]. exists l. split; [reflexivity |].
    apply filter_In. split; [exact Hl |]. now apply negb_true_iff, Nat.eqb_neq.
Qed.

(** States with the same layers, towers and links mirror alike. *)
Lemma layersMirror_same (st st' : State) :
  mapLayers st' = mapLayers st -> towers st' = towers st ->
  links st' = links st ->
  layersMirror st -> layersMirror st'.
Proof.
  intros Hm Ht Hl [Hnd H]. unfold layersMirror. rewrite Hm.
  split; [exact Hnd |]. intros layer. rewrite (H layer).
  destruct layer; unfold drawn, linkIds; rewrite ?Ht, ?Hl; tauto.
Qed.

Lemma saveTower_mirror name frequency (st : State) :
  towersWellFormed st -> layersMirror st ->
  layersMirror (saveTower name frequency st).
Proof.
  intros (_ & _ & Hall & _ & Hincl) [Hnd H]. unfold saveTower.
  destruct (negb (truthyString name) || negb (truthyNumber frequency)
            || numLe frequency 0); [now split |].
  destruct (pendingTowerLocation st) as [latlng |]; [| now split].
  assert (Hnew : ~ In (towerIdCounter st) (towers st)).
  { intros Hin. apply Hincl, in_map_iff in Hin. destruct Hin as [t [Hid Ht]].
    rewrite Forall_forall in Hall. specialize (Hall t Ht). lia. }
  unfold layersMirror, hideTowerModal, addTower, updateTowerList. simpl. split.
  - apply NoDup_app; [assumption | repeat constructor; intros [] |].
    intros x Hx [<- | []]. apply Hnew, (H (MarkerLayer _)), Hx.
  - intros layer. rewrite in_app_iff, (H layer). simpl.
    destruct layer as [t | k | k]; unfold drawn, linkIds; simpl.
    + rewrite in_app_iff. simpl. split; intros [Hin | [Heq | []]]; auto;
        right; left; congruence.
    + split; [intros [Hin | [Heq | []]]; [exact Hin | discriminate] | auto].
    + split; [intros [Hin | [Heq | []]]; [exact Hin | discriminate] | auto].
Qed.

Lemma createLink_mirror (a b : nat) (st : State) :
  linkIdsFresh st -> layersMirror st -> layersMirror (createLink a b st).
Proof.
  intros [_ Hlt] [Hnd H]. unfold createLink. cbv zeta.
  destruct (existsb _ (links st)); [now split |].
  assert (Hnew : ~ In (linkIdCounter st) (linkIds st)).
  { intros Hin. rewrite Forall_forall in Hlt. specialize (Hlt _ Hin). lia. }
  unfold layersMirror, updateLinkList. simpl. split.
  - apply NoDup_app; [assumption | repeat constructor; intros [] |].
    intros x Hx [<- | []]. apply Hnew, (H (PolylineLayer _)), Hx.
  - intros layer. rewrite in_app_iff, (H layer). simpl.
    destruct layer as [t | k | k]; unfold drawn, linkIds; simpl.
    + split; [intros [Hin | [Heq | []]]; [exact Hin | discriminate] | auto].
    + rewrite map_app, in_app_iff. simpl.
      split; intros [Hin | [Heq | []]]; auto; right; left; congruence.
    + split.
      * intros [[l [Hl Hz]] | [Heq | []]]; [| discriminate].
        exists l. split; [apply in_or_app; now left | exact Hz].
      * intros [l [Hl Hz]]. left. apply in_app_or in Hl.
        destruct Hl as [Hl | [<- | []]]; [now exists l |].
        destruct Hz as [_ Hz]. discriminate.
Qed.

(** The layers [performDeleteLink] leaves on the map. *)
Lemma performDeleteLink_layers (linkId : nat) (st : State) (x : Layer) :
  NoDup (List.map link_id (links st)) ->
  In x (mapLayers (performDeleteLink linkId st))
  <-> In x (mapLayers st)
      /\ (In linkId (linkIds st) -> x <> PolylineLayer linkId)
      /\ ((exists l, In l (links st) /\ link_id l = linkId /\ hasZone l = true) ->
          x <> ZoneLayer linkId).
Proof.
  intros Hnd. unfold performDeleteLink.
  destruct (findIndex (fun l => Nat.eqb (link_id l) linkId) (links st))
    as [i |] eqn:Hfi.
  - destruct (findIndex_Some_nth _ _ _ Hfi) as [link [Hnth Hp]].
    rewrite Hnth. apply Nat.eqb_eq in Hp.
    assert (Hin : In link (links st)) by (eapply nth_error_In; eassumption).
    assert (Hid : In linkId (linkIds st))
      by (rewrite <- Hp; now apply in_map).
    assert (Huniq : forall l, In l (links st) -> link_id l = linkId -> l = link).
    { intros l Hl Hlid. apply (NoDup_map_inj_in link_id (links st)); congruence. }
    rewrite Hp. cbv zeta. unfold updateLinkList, hasZone.
    destruct (link_fresnelZone link) as [z |] eqn:Hzone;
      destruct (optNatEq (activeLinkForFresnel _) linkId); simpl;
      rewrite ?In_removed.
    + split.
      * intros [[Hx Hp1] Hz1]. tauto.
      * intros (Hx & Hp1 & Hz1). split; [split; [exact Hx | now apply Hp1] |].
        apply Hz1. exists link. rewrite Hzone. tauto.
    + split.
      * intros [[Hx Hp1] Hz1]. tauto.
      * intros (Hx & Hp1 & Hz1). split; [split; [exact Hx | now apply Hp1] |].
        apply Hz1. exists link. rewrite Hzone. tauto.
    + split.
      * intros [Hx Hp1]. split; [exact Hx |]. split; [tauto |].
        intros [l (Hl & Hlid & Hz)]. rewrite (Huniq l Hl Hlid), Hzone in Hz.
        discriminate.
      * intros (Hx & Hp1 & _). split; [exact Hx | now apply Hp1].
    + split.
      * intros [Hx Hp1]. split; [exact Hx |]. split; [tauto |].
        intros [l (Hl & Hlid & Hz)]. rewrite (Huniq l Hl Hlid), Hzone in Hz.
        discriminate.
      * intros (Hx & Hp1 & _). split; [exact Hx | now apply Hp1].
  - pose proof (proj1 (findIndex_None _ _) Hfi) as Hnone.
    assert (Hout : forall l, In l (links st) -> link_id l <> linkId).
    { intros l Hl. apply Nat.eqb_neq, (Hnone l Hl). }
    split; [| tauto]. intros Hx. split; [exact Hx |]. split.
    + intros Hin. apply in_map_iff in Hin. destruct Hin as [l [Hlid Hl]].
      exfalso. exact (Hout l Hl Hlid).
    + intros [l (Hl & Hlid & _)]. exfalso. exact (Hout l Hl Hlid).
Qed.

Lemma performDeleteLink_mirror (linkId : nat) (st : State) :
  linkIdsFresh st -> layersMirror st ->
  layersMirror (performDeleteLink linkId st).
Proof.
  intros [Hndl _] [Hnd H].
  destruct (performDeleteLink_effect linkId st Hndl) as (Hl & Ht & _).
  cbv zeta in Hl, Ht.
  assert (Huniq : forall l l', In l (links st) -> In l' (links st) ->
            link_id l = link_id l' -> l = l').
  { intros l l'. apply (NoDup_map_inj_in link_id (links st)). exact Hndl. }
  split.
  - unfold performDeleteLink.
    destruct (findIndex _ (links st)) as [i |]; [| exact Hnd].
    destruct (nth_error (links st) i) as [link |]; [| exact Hnd].
    cbv zeta. unfold updateLinkList.
    destruct (link_fresnelZone link);
      destruct (optNatEq (activeLinkForFresnel _) linkId); simpl;
      repeat apply NoDup_filter; exact Hnd.
  - intros layer. rewrite (performDeleteLink_layers linkId st layer Hndl).
    rewrite (H layer).
    destruct layer as [t | k | k]; unfold drawn, linkIds; rewrite ?Ht, ?Hl.
    + split; [tauto |]. intros Hin. split; [exact Hin |].
      split; intros _; discriminate.
    + rewrite In_filtered_ids. split.
      * intros (Hin & Hp & _). split; [exact Hin |].
        intros ->. now apply (Hp Hin).
      * intros [Hin Hne]. split; [exact Hin |].
        split; intros _; congruence.
    + split.
      * intros ([l (Hin & Hid & Hz)] & _ & Hzl).
        exists l. split; [| tauto]. apply filter_In. split; [exact Hin |].
        apply negb_true_iff, Nat.eqb_neq. intros Heq.
        apply Hzl; [exists l; tauto | congruence].
      * intros [l (Hin & Hid & Hz)]. apply filter_In in Hin.
        destruct Hin as [Hin Hne]. apply negb_true_iff, Nat.eqb_neq in Hne.
        split; [exists l; tauto |]. split; [intros _; discriminate |].
        intros _ Heq. injection Heq as Heq. congruence.
Qed.

Lemma fold_performDeleteLink_mirror (ids : list nat) (st : State) :
  linkIdsFresh st -> layersMirror st ->
  layersMirror (fold_left (fun st id => performDeleteLink id st) ids st).
Proof.
  revert st. induction ids as [| id ids IH]; intros st Hf Hm; simpl;
    [exact Hm |].
  apply IH; [now apply performDeleteLink_fresh_ids
            | now apply performDeleteLink_mirror].
Qed.

Lemma In_splice1 {A : Type} (i : nat) (l : list A) (a x : A) :
  NoDup l -> nth_error l i = Some a ->
  In x (splice1 i l) <-> In x l /\ x <> a.
Proof.
  revert i. induction l as [| b l IH]; intros i Hnd Hnth;
    [destruct i; discriminate |].
  inversion Hnd as [| ? ? Hnotin Hnd']; subst.
  destruct i as [| i]; simpl in *.
  - injection Hnth as ->. split.
    + intros Hx. split; [now right | intros ->; contradiction].
    + intros [[Heq | Hx] Hne]; [congruence | exact Hx].
  - rewrite (IH i Hnd' Hnth). split.
    + intros [-> | [Hx Hne]]; [| tauto].
      split; [now left |]. intros ->. apply Hnotin.
      eapply nth_error_In; eassumption.
    + intros [[-> | Hx] Hne]; [now left | right; tauto].
Qed.

Lemma performDeleteTower_mirror (towerId : nat) (st : State) :
  NoDup (towers st) -> linkIdsFresh st -> layersMirror st ->
  layersMirror (performDeleteTower towerId st).
Proof.
  intros Hndt Hf Hm. unfold performDeleteTower.
  destruct (findIndex _ (towers st)) as [i |] eqn:Hfi; [| exact Hm].
  destruct (findIndex_Some_nth _ _ _ Hfi) as [tower [Hnth _]]. rewrite Hnth.
  cbv zeta. rewrite fold_links_as_ids. unfold updateLinkList, updateTowerList.
  match goal with
  | |- context [fold_left ?f ?ids st] =>
      pose proof (fold_performDeleteLink_mirror ids st Hf Hm) as [Hnd1 H1];
      destruct (fold_performDeleteLink_sameTowers ids st) as (_ & Ht & _);
      set (s := fold_left f ids st) in *
  end.
  split; simpl.
  - apply NoDup_filter, Hnd1.
  - intros layer. rewrite In_removed, (H1 layer).
    destruct layer as [t | k | k]; unfold drawn, linkIds; simpl.
    + rewrite Ht, (In_splice1 i (towers st) tower t Hndt Hnth).
      split; intros [Hin Hne]; (split; [exact Hin | congruence]).
    + split; [tauto | intros Hin; split; [exact Hin | discriminate]].
    + split; [tauto | intros Hin; split; [exact Hin | discriminate]].
Qed.

Lemma deactivateActiveFresnelZone_mirror (st : State) :
  linkIdsFresh st -> layersMirror st ->
  layersMirror (deactivateActiveFresnelZone st).
Proof.
  intros [Hndl _] [Hnd H]. unfold deactivateActiveFresnelZone. cbv zeta.
  destruct (find _ (links st)) as [prev |] eqn:Hfind; [| now split].
  destruct (link_fresnelZone prev) eqn:Hzone; [| now split].
  unfold updateLinkList.
  match goal with
  | |- layersMirror (set_activeLinkForFresnel None ?s) =>
      apply (layersMirror_same s); try reflexivity
  end.
  split.
  - simpl. apply NoDup_filter, Hnd.
  - intros layer.
    assert (Hl : links (mutateLink (link_id prev) (with_fresnelZone None)
                          (mutateLink (link_id prev) (with_polyline primary_color)
                             (removeLayer (ZoneLayer (link_id prev)) st)))
                 = List.map (fun l => if Nat.eqb (link_id l) (link_id prev)
                                      then with_fresnelZone None
                                             (with_polyline primary_color l)
                                      else l) (links st)).
    { apply (mutateLink_twice (link_id prev) _ _
               (removeLayer (ZoneLayer (link_id prev)) st)); [exact Hndl |].
      reflexivity. }
    change (mapLayers (mutateLink (link_id prev) (with_fresnelZone None)
                         (mutateLink (link_id prev) (with_polyline primary_color)
                            (removeLayer (ZoneLayer (link_id prev)) st))))
      with (filter (fun y => negb (layerEq y (ZoneLayer (link_id prev))))
              (mapLayers st)).
    rewrite In_removed, (H layer).
    destruct layer as [t | k | k]; unfold drawn, linkIds; rewrite ?Hl.
    + split; [tauto | intros Hin; split; [exact Hin | discriminate]].
    + rewrite map_map.
      assert (E : List.map (fun x => link_id
                     (if Nat.eqb (link_id x) (link_id prev)
                      then with_fresnelZone None (with_polyline primary_color x)
                      else x)) (links st) = List.map link_id (links st)).
      { apply map_ext. intros l. now destruct (Nat.eqb (link_id l) (link_id prev)). }
      rewrite E. split; [tauto | intros Hin; split; [exact Hin | discriminate]].
    + split.
      * intros [[l (Hin & Hid & Hz)] Hne].
        exists l. split; [| tauto]. apply in_map_iff. exists l.
        split; [| exact Hin].
        destruct (Nat.eqb (link_id l) (link_id prev)) eqn:Heq; [| reflexivity].
        apply Nat.eqb_eq in Heq. exfalso. apply Hne. congruence.
      * intros [l' (Hin & Hid & Hz)]. apply in_map_iff in Hin.
        destruct Hin as [l [Hl' Hin]].
        destruct (Nat.eqb (link_id l) (link_id prev)) eqn:Heq;
          subst l'; [discriminate |].
        apply Nat.eqb_neq in Heq.
        split; [exists l; tauto | congruence].
Qed.

Lemma showFresnelZone_mirror (linkId : nat) (st : State) :
  fresnelConsistent st -> layersMirror st ->
  layersMirror (showFresnelZone linkId st).
Proof.
  intros Hc Hm. pose proof Hc as (Hf & _). unfold showFresnelZone.
  destruct (find _ (links st)) as [link |] eqn:Hfind; [| exact Hm].
  apply find_some in Hfind. destruct Hfind as [Hin _].
  destruct (optNatEq (activeLinkForFresnel st) (link_id link)) eqn:Hact;
    [now apply deactivateActiveFresnelZone_mirror |].
  cbv zeta. unfold updateLinkList.
  set (st1 := match activeLinkForFresnel st with
              | Some _ => deactivateActiveFresnelZone st
              | None => st
              end).
  assert (H1 : layersMirror st1 /\ noZones st1 /\ sameLinkIds st st1).
  { unfold st1. destruct (activeLinkForFresnel st) eqn:Ha.
    - split; [now apply deactivateActiveFresnelZone_mirror |].
      split; [now apply deactivateActiveFresnelZone_noZones
             | apply deactivateActiveFresnelZone_sameLinkIds].
    - split; [exact Hm |].
      split; [now apply consistent_inactive_noZones | apply sameLinkIds_refl]. }
  destruct H1 as ([Hnd1 H1] & Hnz & Hids & _). clearbody st1.
  assert (Hndl : NoDup (List.map link_id (links st1)))
    by (rewrite Hids; apply Hf).
  assert (Hin1 : In (link_id link) (linkIds st1))
    by (unfold linkIds; rewrite Hids; now apply in_map).
  assert (Hnozone : ~ In (ZoneLayer (link_id link)) (mapLayers st1)).
  { intros Hz. apply (H1 (ZoneLayer _)) in Hz.
    destruct Hz as [l (Hl & _ & Hz)]. unfold hasZone in Hz.
    rewrite (Hnz l Hl) in Hz. discriminate. }
  match goal with
  | |- layersMirror (mutateLink ?k ?g (mutateLink ?k ?f ?s)) =>
      assert (Hl : links (mutateLink k g (mutateLink k f s))
                   = List.map (fun l => if Nat.eqb (link_id l) k
                                        then g (f l) else l) (links st1))
        by (apply (mutateLink_twice k f g s); [exact Hndl | reflexivity]);
      set (g' := g) in *; set (f' := f) in *
  end.
  assert (Hz' : forall l, hasZone (g' (f' l)) = true) by reflexivity.
  assert (Hid' : forall l, link_id (g' (f' l)) = link_id l) by reflexivity.
  clearbody g' f'.
  split.
  - simpl. apply NoDup_app; [exact Hnd1 | repeat constructor; intros [] |].
    intros x Hx [<- | []]. contradiction.
  - intros layer.
    match goal with
    | |- In layer (mapLayers ?s) <-> _ =>
        change (mapLayers s) with (mapLayers st1 ++ [ZoneLayer (link_id link)])
    end.
    rewrite in_app_iff, (H1 layer).
    destruct layer as [t | k | k]; unfold drawn, linkIds; rewrite ?Hl.
    + simpl.
      split; [intros [Hx | [Heq | []]]; [exact Hx | discriminate] | auto].
    + rewrite map_map.
      assert (E : List.map (fun x => link_id
                     (if Nat.eqb (link_id x) (link_id link)
                      then g' (f' x) else x)) (links st1)
                  = List.map link_id (links st1)).
      { apply map_ext. intros l.
        destruct (Nat.eqb (link_id l) (link_id link)); [apply Hid' | reflexivity]. }
      rewrite E. simpl.
      split; [intros [Hx | [Heq | []]]; [exact Hx | discriminate] | auto].
    + split.
      * intros [[l (Hx & _ & Hz)] | [Heq | []]].
        -- unfold hasZone in Hz. rewrite (Hnz l Hx) in Hz. discriminate.
        -- injection Heq as <-. apply in_map_iff in Hin1.
           destruct Hin1 as [l [Hlid Hl1]].
           exists (g' (f' l)). split; [| split; [now rewrite Hid' | apply Hz']].
           apply in_map_iff. exists l. split; [| exact Hl1].
           now rewrite Hlid, Nat.eqb_refl.
      * intros [l' (Hx & Hid & Hz)]. apply in_map_iff in Hx.
        destruct Hx as [l [Hl' Hx]].
        destruct (Nat.eqb (link_id l) (link_id link)) eqn:Heq; subst l'.
        -- right. left. apply Nat.eqb_eq in Heq. rewrite Hid' in Hid. congruence.
        -- unfold hasZone in Hz. rewrite (Hnz l Hx) in Hz. discriminate.
Qed.

Lemma handleTowerClickForLink_mirror (tower : nat) (st : State) :
  linkIdsFresh st -> layersMirror st ->
  layersMirror (handleTowerClickForLink tower st).
Proof.
  intros Hf Hm. unfold handleTowerClickForLink. cbv zeta.
  match goal with
  | |- layersMirror (match selectedTowers ?s with _ => _ end) => set (s1 := s)
  end.
  assert (Hs : layersMirror s1 /\ linkIdsFresh s1).
  { unfold s1. destruct (findIndex _ (selectedTowers st)).
    - split; [apply (layersMirror_same st); try reflexivity; exact Hm |].
      eapply sameLinkIds_fresh; [| exact Hf]. split; reflexivity.
    - split; [apply (layersMirror_same st); try reflexivity; exact Hm |].
      eapply sameLinkIds_fresh; [| exact Hf]. split; reflexivity. }
  destruct Hs as [Hm1 Hf1]. clearbody s1.
  destruct (selectedTowers s1) as [| t1 [| t2 [| t3 rest]]]; try exact Hm1.
  assert (Hclear : forall s, layersMirror s -> layersMirror (clearTowerSelection s)).
  { intros s Hs.
    destruct (clearTowerSelection_sameRegistry s) as (_ & Ht & Hl & Hml & _).
    now apply (layersMirror_same s). }
  match goal with
  | |- layersMirror (if ?c then _ else _) => destruct c
  end.
  - apply Hclear. apply (layersMirror_same s1); try reflexivity. exact Hm1.
  - apply Hclear. now apply createLink_mirror.
Qed.

Lemma runCallback_mirror (cb : ConfirmCallback) (st : State) :
  NoDup (towers st) -> linkIdsFresh st -> layersMirror st ->
  layersMirror (runCallback cb st).
Proof.
  intros Hndt Hf Hm. destruct cb as [towerId | linkId | ids]; simpl.
  - destruct (find _ (towers st)); [exact Hm |].
    now apply performDeleteTower_mirror.
  - now apply performDeleteLink_mirror.
  - now apply fold_performDeleteLink_mirror.
Qed.

Lemma resolve_mirror (value : bool) (st : State) :
  layersMirror st -> layersMirror (resolve value st).
Proof.
  intros Hm. unfold resolve.
  destruct (confirmAction st) as [[towerId] |]; [| exact Hm].
  unfold updateTowerFrequency_resume, updateTowerList.
  destruct value; simpl; [exact Hm |].
  apply (layersMirror_same st); try reflexivity. exact Hm.
Qed.

Lemma handleEvent_mirror (e : Event) (st : State) :
  towersWellFormed st -> fresnelConsistent st -> layersMirror st ->
  layersMirror (handleEvent e st).
Proof.
  intros Hw Hc Hm. pose proof Hc as (Hf & _).
  pose proof Hw as (_ & _ & _ & Hndt & _).
  destruct e; simpl.
  - unfold handleMapClick. destruct (mode st); [| exact Hm].
    apply (layersMirror_same st); try reflexivity. exact Hm.
  - now apply saveTower_mirror.
  - apply (layersMirror_same st); try reflexivity. exact Hm.
  - destruct (existsb _ (mapLayers st)); [| exact Hm].
    destruct (mode st); [exact Hm |].
    now apply handleTowerClickForLink_mirror.
  - unfold setMode.
    destruct (clearTowerSelection_sameRegistry (set_mode m st))
      as (_ & Ht & Hl & Hml & _).
    now apply (layersMirror_same st).
  - now apply showFresnelZone_mirror.
  - unfold requestDeleteTower. destruct (find _ (towers st)); [| exact Hm].
    apply (layersMirror_same st); try reflexivity. exact Hm.
  - unfold deleteLink. destruct (find _ (links st)); [| exact Hm].
    apply (layersMirror_same st); try reflexivity. exact Hm.
  - unfold updateTowerFrequency.
    destruct (find _ (towers st)) as [tower |]; [| exact Hm].
    cbv zeta.
    match goal with
    | |- layersMirror (if ?c then _ else _) => destruct c
    end; (apply (layersMirror_same st); try reflexivity; exact Hm).
  - unfold handleConfirm. destruct (confirmModal st) as [m |]; [| exact Hm].
    cbv zeta.
    assert (Hh : layersMirror
                   (hideConfirmationModal (runCallback (modal_onConfirm m) st))).
    { apply (layersMirror_same (runCallback (modal_onConfirm m) st));
        try reflexivity.
      now apply runCallback_mirror. }
    destruct (modal_returnPromise m); [| exact Hh].
    now apply resolve_mirror.
  - unfold handleCancel. destruct (confirmModal st) as [m |]; [| exact Hm].
    cbv zeta.
    assert (Hh : layersMirror (hideConfirmationModal st))
      by (apply (layersMirror_same st); try reflexivity; exact Hm).
    destruct (modal_returnPromise m); [| exact Hh].
    now apply resolve_mirror.
  - apply (layersMirror_same st); try reflexivity. exact Hm.
  - now apply performDeleteTower_mirror.
Qed.

Lemma reachable_mirror (st : State) : reachable st -> layersMirror st.
Proof.
  induction 1 as [| e st Hr IH].
  - split; simpl; [constructor |].
    intros layer. destruct layer; simpl; split; try tauto.
    intros [l [[] _]].
  - apply handleEvent_mirror;
      [now apply reachable_towersWellFormed | now apply reachable_consistent
      | exact IH].
Qed.

(** X18.  In every state the application can reach, the map shows the
    registry and nothing else: a tower has its marker on the map
    exactly when it is in the tower collection, a link its polyline
    exactly when it is in the link collection, and a Fresnel polygon is
    on the map exactly for a link that carries one, which is then the
    active link; no layer is on the map twice.  So at most one polygon
    is on the map, and none when no link is active. *)
Theorem map_mirrors_registry (st : State) :
  reachable st ->
  NoDup (mapLayers st)
  /\ (forall id, In (MarkerLayer id) (mapLayers st) <-> In id (towers st))
  /\ (forall id, In (PolylineLayer id) (mapLayers st) <-> In id (linkIds st))
  /\ (forall id, In (ZoneLayer id) (mapLayers st) <->
        exists l, In l (links st) /\ link_id l = id /\ hasZone l = true)
  /\ (forall id, In (ZoneLayer id) (mapLayers st) ->
        activeLinkForFresnel st = Some id)
  /\ (forall a b, In (ZoneLayer a) (mapLayers st) ->
        In (ZoneLayer b) (mapLayers st) -> a = b).
Proof.
  intros Hr. destruct (reachable_mirror st Hr) as [Hnd H].
  destruct (reachable_consistent st Hr) as (_ & _ & Hz).
  assert (Hactive : forall id, In (ZoneLayer id) (mapLayers st) ->
            activeLinkForFresnel st = Some id).
  { intros id Hin. apply (H (ZoneLayer id)) in Hin.
    destruct Hin as [l (Hl & <- & Hzone)]. apply Hz; [exact Hl |].
    unfold hasZone in Hzone. destruct (link_fresnelZone l); congruence. }
  split; [exact Hnd |].
  split; [intros id; apply (H (MarkerLayer id)) |].
  split; [intros id; apply (H (PolylineLayer id)) |].
  split; [intros id; apply (H (ZoneLayer id)) |].
  split; [exact Hactive |].
  intros a b Ha Hb. apply Hactive in Ha, Hb. congruence.
Qed.

Lemma map_mirrors_registry_witness :
  reachable exampleNetwork
  /\ (In (MarkerLayer 2) (mapLayers exampleNetwork)
      <-> In 2%nat (towers exampleNetwork))
  /\ (forall id, ~ In (ZoneLayer id) (mapLayers exampleNetwork)).
Proof.
  pose proof exampleNetwork_reachable as Hr.
  destruct (map_mirrors_registry exampleNetwork Hr)
    as (_ & Hmarker & _ & _ & Hactive & _).
  split; [exact Hr |]. split; [apply Hmarker |].
  intros id Hin. apply Hactive in Hin. discriminate.
Defined.

(** ** Links join two different towers, once *)

Lemma heapGrows_refl (st : State) : heapGrows st st.
Proof. exists []. now rewrite app_nil_r. Qed.

Lemma heapGrows_trans (a b c : State) :
  heapGrows a b -> heapGrows b c -> heapGrows a c.
Proof.
  intros [e1 H1] [e2 H2]. exists (e1 ++ e2). now rewrite H2, H1, app_assoc.
Qed.

Lemma sameTowers_heapGrows (st st' : State) :
  sameTowers st st' -> heapGrows st st'.
Proof. intros (Hh & _). exists []. now rewrite app_nil_r. Qed.

Lemma heapGrows_deref (st st' : State) (id : nat) :
  heapGrows st st' -> allocated st id ->
  allocated st' id
  /\ tower_lat (deref st' id) = tower_lat (deref st id)
  /\ tower_lng (deref st' id) = tower_lng (deref st id).
Proof.
  intros [ext Hext] Hal.
  destruct (deref_fixed_prefix st st' id ext Hext Hal) as [Hal' Hfix].
  unfold fixedPart in Hfix. injection Hfix as _ _ Hlat Hlng. tauto.
Qed.

Lemma selectionOK_frame (st st' : State) :
  heapGrows st st' ->
  selectedTowers st' = selectedTowers st \/ selectedTowers st' = [] ->
  selectionOK st -> selectionOK st'.
Proof.
  intros Hg [Hs | Hs] [Hlen Hal]; unfold selectionOK; rewrite Hs.
  - split; [exact Hlen |]. intros t Ht.
    now apply (heapGrows_deref st st' t Hg), Hal.
  - split; [simpl; lia | intros t []].
Qed.

Lemma linksOK_frame (st st' : State) :
  heapGrows st st' ->
  incl (List.map linkFixedPart (links st')) (List.map linkFixedPart (links st)) ->
  linksOK st -> linksOK st'.
Proof.
  intros Hg Hincl [Hlink Hpair].
  assert (Hback : forall l', In l' (links st') ->
            exists l, In l (links st) /\ link_id l = link_id l'
                      /\ link_tower1 l = link_tower1 l'
                      /\ link_tower2 l = link_tower2 l'
                      /\ link_distance l = link_distance l').
  { intros l' Hl'. apply (in_map linkFixedPart), Hincl, in_map_iff in Hl'.
    destruct Hl' as [l [Heq Hl]]. exists l. split; [exact Hl |].
    unfold linkFixedPart in Heq. injection Heq as H1 H2 H3 H4. tauto. }
  split.
  - intros l' Hl'. destruct (Hback l' Hl') as [l (Hl & _ & <- & <- & <-)].
    destruct (Hlink l Hl) as (Hne & Ha1 & Ha2 & Hd).
    destruct (heapGrows_deref st st' _ Hg Ha1) as (Ha1' & -> & ->).
    destruct (heapGrows_deref st st' _ Hg Ha2) as (Ha2' & -> & ->).
    tauto.
  - intros l1' l2' H1 H2 Hp.
    destruct (Hback l1' H1) as [l1 (Hl1 & <- & E1 & E2 & _)].
    destruct (Hback l2' H2) as [l2 (Hl2 & <- & E3 & E4 & _)].
    apply (Hpair l1 l2 Hl1 Hl2). unfold linksPair in *. rewrite E1, E2, E3, E4.
    exact Hp.
Qed.

Lemma sameLinks_fixed (st st' : State) :
  links st' = links st ->
  incl (List.map linkFixedPart (links st')) (List.map linkFixedPart (links st)).
Proof. intros ->. apply incl_refl. Qed.

Lemma filtered_fixed (p : Link -> bool) (st st' : State) :
  links st' = filter p (links st) ->
  incl (List.map linkFixedPart (links st')) (List.map linkFixedPart (links st)).
Proof.
  intros -> x Hx. apply in_map_iff in Hx. destruct Hx as [l [<- Hl]].
  apply filter_In in Hl. apply in_map. tauto.
Qed.

Lemma mutateLink_fixed (id : nat) (f : Link -> Link) (st : State) :
  (forall l, linkFixedPart (f l) = linkFixedPart l) ->
  List.map linkFixedPart (links (mutateLink id f st))
  = List.map linkFixedPart (links st).
Proof. intros Hf. simpl. now apply mutateFirst_map_preserved. Qed.

Lemma deactivateActiveFresnelZone_fixed (st : State) :
  List.map linkFixedPart (links (deactivateActiveFresnelZone st))
  = List.map linkFixedPart (links st)
  /\ selectedTowers (deactivateActiveFresnelZone st) = selectedTowers st.
Proof.
  unfold deactivateActiveFresnelZone. cbv zeta.
  destruct (find _ (links st)) as [prev |]; [| split; reflexivity].
  destruct (link_fresnelZone prev); [| split; reflexivity].
  split; [| reflexivity]. unfold updateLinkList.
  match goal with
  | |- List.map _ (links (set_activeLinkForFresnel None ?s)) = _ =>
      change (links (set_activeLinkForFresnel None s)) with (links s)
  end.
  rewrite mutateLink_fixed by reflexivity.
  rewrite mutateLink_fixed by reflexivity. reflexivity.
Qed.

Lemma showFresnelZone_fixed (linkId : nat) (st : State) :
  List.map linkFixedPart (links (showFresnelZone linkId st))
  = List.map linkFixedPart (links st)
  /\ selectedTowers (showFresnelZone linkId st) = selectedTowers st.
Proof.
  unfold showFresnelZone.
  destruct (find _ (links st)) as [link |]; [| split; reflexivity].
  destruct (optNatEq (activeLinkForFresnel st) (link_id link));
    [apply deactivateActiveFresnelZone_fixed |].
  cbv zeta. unfold updateLinkList.
  set (st1 := match activeLinkForFresnel st with
              | Some _ => deactivateActiveFresnelZone st
              | None => st
              end).
  assert (H1 : List.map linkFixedPart (links st1)
               = List.map linkFixedPart (links st)
               /\ selectedTowers st1 = selectedTowers st).
  { unfold st1. destruct (activeLinkForFresnel st);
      [apply deactivateActiveFresnelZone_fixed | split; reflexivity]. }
  destruct H1 as [Hl Hs]. clearbody st1. split; [| exact Hs].
  rewrite mutateLink_fixed by reflexivity.
  rewrite mutateLink_fixed by reflexivity. exact Hl.
Qed.

Lemma resolve_selection (value : bool) (st : State) :
  selectedTowers (resolve value st) = selectedTowers st.
Proof.
  unfold resolve. destruct (confirmAction st) as [[towerId] |]; [| reflexivity].
  unfold updateTowerFrequency_resume. destruct value; reflexivity.
Qed.

Lemma performDeleteTower_fixed (towerId : nat) (st : State) :
  linkIdsFresh st ->
  incl (List.map linkFixedPart (links (performDeleteTower towerId st)))
    (List.map linkFixedPart (links st))
  /\ selectedTowers (performDeleteTower towerId st) = selectedTowers st.
Proof.
  intros [Hnd _]. unfold performDeleteTower.
  destruct (findIndex _ (towers st)) as [i |];
    [| split; [apply incl_refl | reflexivity]].
  destruct (nth_error (towers st) i) as [tower |];
    [| split; [apply incl_refl | reflexivity]].
  cbv zeta. rewrite fold_links_as_ids.
  unfold updateLinkList, updateTowerList.
  match goal with
  | |- context [fold_left ?f ?ids st] =>
      destruct (fold_performDeleteLink_effect ids st Hnd) as (Hl & _);
      destruct (fold_performDeleteLink_heap ids st) as (_ & Hs & _)
  end.
  split; [eapply filtered_fixed; exact Hl | exact Hs].
Qed.

Lemma runCallback_fixed (cb : ConfirmCallback) (st : State) :
  linkIdsFresh st ->
  incl (List.map linkFixedPart (links (runCallback cb st)))
    (List.map linkFixedPart (links st))
  /\ selectedTowers (runCallback cb st) = selectedTowers st.
Proof.
  intros Hf. pose proof Hf as [Hnd _].
  destruct cb as [towerId | linkId | ids]; simpl.
  - destruct (find _ (towers st));
      [split; [apply incl_refl | reflexivity]
      | now apply performDeleteTower_fixed].
  - destruct (performDeleteLink_effect linkId st Hnd) as (Hl & _).
    destruct (performDeleteLink_heap linkId st) as (_ & Hs & _).
    split; [eapply filtered_fixed; exact Hl | exact Hs].
  - destruct (fold_performDeleteLink_effect ids st Hnd) as (Hl & _).
    destruct (fold_performDeleteLink_heap ids st) as (_ & Hs & _).
    split; [eapply filtered_fixed; exact Hl | exact Hs].
Qed.

Lemma heap_same_grows (st st' : State) : heap st' = heap st -> heapGrows st st'.
Proof. intros H. exists []. now rewrite H, app_nil_r. Qed.

Lemma createLink_linksOK (a b : nat) (st : State) :
  a <> b -> allocated st a -> allocated st b ->
  linksOK st -> linksOK (createLink a b st).
Proof.
  intros Hne Ha Hb Hok. unfold createLink. cbv zeta.
  destruct (existsb _ (links st)) eqn:Hex.
  - apply (linksOK_frame st); [now apply heap_same_grows | apply incl_refl
                               | exact Hok].
  - destruct Hok as [Hlink Hpair].
    assert (Hnone : forall l, In l (links st) -> ~ linksPair a b l).
    { intros l Hl Hp.
      rewrite (existsb_pair_true a b (links st) l Hl Hp) in Hex. discriminate. }
    unfold updateLinkList.
    match goal with
    | |- linksOK (set_links (_ ++ [?new]) ?s) =>
        set (link := new);
        change (linksOK (set_links (links st ++ [link]) s));
        assert (Hheap : heap (set_links (links st ++ [link]) s) = heap st)
          by reflexivity;
        assert (Hlinks : links (set_links (links st ++ [link]) s)
                         = links st ++ [link]) by reflexivity;
        set (st' := set_links (links st ++ [link]) s) in *
    end.
    assert (Hderef : forall x, deref st' x = deref st x)
      by (intros x; unfold deref; now rewrite Hheap).
    assert (Halloc : forall x, allocated st x -> allocated st' x)
      by (intros x; unfold allocated; now rewrite Hheap).
    assert (Hnew : link_tower1 link = a /\ link_tower2 link = b
                   /\ link_distance link
                      = calculateDistance
                          (tower_lat (deref st a)) (tower_lng (deref st a))
                          (tower_lat (deref st b)) (tower_lng (deref st b)))
      by (repeat split).
    destruct Hnew as (Ht1 & Ht2 & Hd). clearbody link st'.
    split.
    + intros l Hl. rewrite Hlinks in Hl. apply in_app_or in Hl.
      rewrite !Hderef. destruct Hl as [Hl | [<- | []]].
      * destruct (Hlink l Hl) as (H1 & H2 & H3 & H4). auto.
      * rewrite Ht1, Ht2. auto.
    + intros l1 l2 H1 H2 Hp. rewrite Hlinks in H1, H2.
      apply in_app_or in H1, H2.
      destruct H1 as [H1 | [<- | []]], H2 as [H2 | [<- | []]].
      * now apply Hpair.
      * exfalso. apply (Hnone l1 H1). unfold linksPair in *.
        rewrite Ht1, Ht2 in Hp. intuition congruence.
      * exfalso. apply (Hnone l2 H2). rewrite Ht1, Ht2 in Hp. exact Hp.
      * reflexivity.
Qed.

(** The three ways a click on a marker in link mode goes. *)
Lemma handleTowerClickForLink_first (tower : nat) (st : State) :
  selectedTowers st = [] ->
  handleTowerClickForLink tower st
  = setIcon tower icon_tower_marker_selected (set_selectedTowers [tower] st).
Proof. intros Hsel. unfold handleTowerClickForLink. rewrite Hsel. reflexivity. Qed.

Lemma handleTowerClickForLink_again (tower : nat) (st : State) :
  selectedTowers st = [tower] ->
  handleTowerClickForLink tower st
  = setIcon tower icon_tower_marker (set_selectedTowers [] st).
Proof.
  intros Hsel. unfold handleTowerClickForLink. rewrite Hsel. simpl.
  rewrite Nat.eqb_refl. reflexivity.
Qed.

Lemma handleTowerClickForLink_second (t tower : nat) (st : State) :
  selectedTowers st = [t] -> t <> tower ->
  let s1 := setIcon tower icon_tower_marker_selected
              (set_selectedTowers [t; tower] st) in
  let f1 := tower_frequency (deref s1 t) in
  let f2 := tower_frequency (deref s1 tower) in
  handleTowerClickForLink tower st
  = if negb (strictEq f1 f2)
    then clearTowerSelection (showNotification (FrequencyMismatch f1 f2) s1)
    else clearTowerSelection (createLink t tower s1).
Proof.
  intros Hsel Hne. apply Nat.eqb_neq in Hne.
  unfold handleTowerClickForLink. rewrite Hsel. simpl findIndex.
  rewrite Hne. reflexivity.
Qed.

Lemma handleTowerClickForLink_wellFormed (tower : nat) (st : State) :
  allocated st tower -> selectionOK st -> linksOK st ->
  selectionOK (handleTowerClickForLink tower st)
  /\ linksOK (handleTowerClickForLink tower st).
Proof.
  intros Hal [Hlen Hsal] Hok.
  assert (Hicon : forall i sel,
            sameTowers st (setIcon tower i (set_selectedTowers sel st))).
  { intros i sel.
    apply (sameTowers_trans st (set_selectedTowers sel st));
      [repeat split | apply setIcon_sameTowers]. }
  assert (Hclear : forall s, heapGrows st s -> links s = links st ->
            selectionOK (clearTowerSelection s)
            /\ linksOK (clearTowerSelection s)).
  { intros s Hg Hl.
    assert (Hg' : heapGrows st (clearTowerSelection s)).
    { eapply heapGrows_trans; [exact Hg |].
      apply sameTowers_heapGrows, clearTowerSelection_sameTowers. }
    split.
    - split; [simpl; lia | intros x []].
    - apply (linksOK_frame st); [exact Hg' | | exact Hok].
      destruct (clearTowerSelection_sameRegistry s) as (_ & _ & Hl' & _).
      rewrite Hl', Hl. apply incl_refl. }
  destruct (selectedTowers st) as [| t [| t2 rest]] eqn:Hsel;
    [| | simpl in Hlen; lia].
  - rewrite (handleTowerClickForLink_first tower st Hsel).
    pose proof (sameTowers_heapGrows _ _
                  (Hicon icon_tower_marker_selected [tower])) as Hg.
    split.
    + split; [simpl; lia |]. intros x [<- | []].
      now apply (heapGrows_deref st _ tower Hg).
    + apply (linksOK_frame st); [exact Hg | apply incl_refl | exact Hok].
  - destruct (Nat.eq_dec t tower) as [-> | Hne].
    + rewrite (handleTowerClickForLink_again tower st Hsel).
      pose proof (sameTowers_heapGrows _ _ (Hicon icon_tower_marker [])) as Hg.
      split.
      * split; [simpl; lia | intros x []].
      * apply (linksOK_frame st); [exact Hg | apply incl_refl | exact Hok].
    + rewrite (handleTowerClickForLink_second t tower st Hsel Hne). cbv zeta.
      set (s1 := setIcon tower icon_tower_marker_selected
                   (set_selectedTowers [t; tower] st)).
      pose proof (sameTowers_heapGrows _ _
                    (Hicon icon_tower_marker_selected [t; tower])) as Hg.
      fold s1 in Hg.
      destruct (negb (strictEq _ _)).
      * apply Hclear; [| reflexivity].
        eapply heapGrows_trans; [exact Hg | now apply heap_same_grows].
      * assert (Hok1 : linksOK (createLink t tower s1)).
        { apply createLink_linksOK; [exact Hne | | |].
          - apply (heapGrows_deref st s1 t Hg), Hsal. now left.
          - now apply (heapGrows_deref st s1 tower Hg).
          - apply (linksOK_frame st); [exact Hg | apply incl_refl | exact Hok]. }
        split.
        -- split; [simpl; lia | intros x []].
        -- apply (linksOK_frame (createLink t tower s1));
             [apply sameTowers_heapGrows, clearTowerSelection_sameTowers
             | | exact Hok1].
           destruct (clearTowerSelection_sameRegistry (createLink t tower s1))
             as (_ & _ & Hl' & _).
           rewrite Hl'. apply incl_refl.
Qed.

Lemma saveTower_selection name frequency (st : State) :
  selectedTowers (saveTower name frequency st) = selectedTowers st.
Proof.
  unfold saveTower.
  destruct (negb (truthyString name) || negb (truthyNumber frequency)
            || numLe frequency 0); [reflexivity |].
  destruct (pendingTowerLocation st); reflexivity.
Qed.

Lemma updateTowerFrequency_selection towerId newFrequency (st : State) :
  selectedTowers (updateTowerFrequency towerId newFrequency st)
  = selectedTowers st.
Proof.
  unfold updateTowerFrequency.
  destruct (find _ (towers st)) as [tower |]; [| reflexivity].
  cbv zeta.
  match goal with
  | |- selectedTowers (if ?c then _ else _) = _ => destruct c
  end; reflexivity.
Qed.

(** What one gesture other than a click on a marker does to the links
    and to the selection: no link appears, and the selection stays or
    is emptied. *)
Lemma handleEvent_frame (e : Event) (st : State) :
  linkIdsFresh st ->
  (forall tower, e <> MarkerClick tower) ->
  incl (List.map linkFixedPart (links (handleEvent e st)))
    (List.map linkFixedPart (links st))
  /\ (selectedTowers (handleEvent e st) = selectedTowers st
      \/ selectedTowers (handleEvent e st) = []).
Proof.
  intros Hf Hnot. destruct e; simpl.
  - unfold handleMapClick.
    destruct (mode st); (split; [apply incl_refl | now left]).
  - split; [| left; apply saveTower_selection].
    apply sameLinks_fixed, saveTower_sameLinks.
  - split; [apply incl_refl | now left].
  - exfalso. now apply (Hnot tower).
  - split; [| now right]. apply sameLinks_fixed, setMode_sameLinks.
  - destruct (showFresnelZone_fixed linkId st) as [Hl Hs].
    split; [rewrite Hl; apply incl_refl | now left].
  - unfold requestDeleteTower.
    destruct (find _ (towers st)); (split; [apply incl_refl | now left]).
  - unfold deleteLink.
    destruct (find _ (links st)); (split; [apply incl_refl | now left]).
  - split; [| left; apply updateTowerFrequency_selection].
    apply sameLinks_fixed, updateTowerFrequency_sameLinks.
  - unfold handleConfirm.
    destruct (confirmModal st) as [m |]; [| split; [apply incl_refl | now left]].
    cbv zeta.
    destruct (runCallback_fixed (modal_onConfirm m) st Hf) as [Hl Hs].
    destruct (modal_returnPromise m).
    + rewrite resolve_selection.
      destruct (resolve_sameLinks true
                  (hideConfirmationModal (runCallback (modal_onConfirm m) st)))
        as [Hl' _].
      rewrite Hl'. split; [exact Hl | left; exact Hs].
    + split; [exact Hl | left; exact Hs].
  - unfold handleCancel.
    destruct (confirmModal st) as [m |]; [| split; [apply incl_refl | now left]].
    cbv zeta. destruct (modal_returnPromise m).
    + rewrite resolve_selection.
      destruct (resolve_sameLinks false (hideConfirmationModal st)) as [Hl' _].
      rewrite Hl'. split; [apply incl_refl | now left].
    + split; [apply incl_refl | now left].
  - split; [apply incl_refl | now left].
  - destruct (performDeleteTower_fixed towerId st Hf) as [Hl Hs].
    split; [exact Hl | left; exact Hs].
Qed.

Lemma handleEvent_wellFormed (e : Event) (st : State) :
  towersWellFormed st -> linkIdsFresh st -> layersMirror st ->
  selectionOK st -> linksOK st ->
  selectionOK (handleEvent e st) /\ linksOK (handleEvent e st).
Proof.
  intros Hw Hf [_ Hm] Hsel Hok.
  assert (Hother : (forall tower, e <> MarkerClick tower) ->
            selectionOK (handleEvent e st) /\ linksOK (handleEvent e st)).
  { intros Hnot. destruct (handleEvent_frame e st Hf Hnot) as [Hl Hs].
    pose proof (handleEvent_heap_grows e st) as Hg.
    split; [now apply (selectionOK_frame st) | now apply (linksOK_frame st)]. }
  destruct e; try (apply Hother; discriminate).
  simpl. destruct (existsb _ (mapLayers st)) eqn:Hex; [| now split].
  destruct (mode st); [now split |].
  apply handleTowerClickForLink_wellFormed; try assumption.
  apply existsb_exists in Hex. destruct Hex as [x [Hx Heq]].
  apply layerEq_eq in Heq. subst x.
  destruct Hw as (_ & _ & _ & _ & Hincl).
  apply Hincl, (Hm (MarkerLayer tower)), Hx.
Qed.

Lemma reachable_wellFormed (st : State) :
  reachable st -> selectionOK st /\ linksOK st.
Proof.
  induction 1 as [| e st Hr [IHs IHl]].
  - split; [split; [simpl; lia | intros t []] |].
    split; [intros l [] | intros l1 l2 []].
  - apply handleEvent_wellFormed;
      [now apply reachable_towersWellFormed | now apply reachable_fresh_ids
      | now apply reachable_mirror | exact IHs | exact IHl].
Qed.

(** X19.  In every state the application can reach, at most one tower
    is selected between two gestures, every link joins two different
    towers, and no two links join the same unordered pair of towers:
    a link whose endpoints are those of another link, in either order,
    is that link. *)
Theorem links_join_distinct_towers_once (st : State) :
  reachable st ->
  (List.length (selectedTowers st) <= 1)%nat
  /\ (forall l, In l (links st) -> link_tower1 l <> link_tower2 l)
  /\ (forall l1 l2, In l1 (links st) -> In l2 (links st) ->
        linksPair (link_tower1 l1) (link_tower2 l1) l2 -> l1 = l2).
Proof.
  intros Hr. destruct (reachable_wellFormed st Hr) as [[Hlen _] [Hlink Hpair]].
  destruct (reachable_fresh_ids st Hr) as [Hnd _].
  split; [exact Hlen |]. split.
  - intros l Hl. apply (Hlink l Hl).
  - intros l1 l2 H1 H2 Hp.
    apply (NoDup_map_inj_in link_id (links st)); try assumption.
    now apply Hpair.
Qed.

Lemma links_join_distinct_towers_once_witness :
  reachable exampleNetwork
  /\ (forall l, In l (links exampleNetwork) -> link_tower1 l <> link_tower2 l)
  /\ (forall l, In l (links exampleNetwork) ->
        linksPair 2 1 l -> l = exampleLink 1 1 2 40 (-74) 41 (-74)).
Proof.
  pose proof exampleNetwork_reachable as Hr.
  destruct (links_join_distinct_towers_once exampleNetwork Hr)
    as (_ & Hne & Hpair).
  split; [exact Hr |]. split; [exact Hne |].
  intros l Hl Hp. apply Hpair; [exact Hl | simpl; tauto |].
  destruct Hp as [[H1 H2] | [H1 H2]]; [right | left]; simpl; auto.
Defined.

(** X20.  In every state the application can reach, both endpoints of
    every link are tower objects that were allocated, and the distance
    stored in the link is the great-circle distance between the
    positions those two objects have now, whatever was edited or
    deleted since the link was created. *)
Theorem link_distance_is_current (st : State) (l : Link) :
  reachable st -> In l (links st) ->
  allocated st (link_tower1 l) /\ allocated st (link_tower2 l)
  /\ link_distance l
     = calculateDistance
         (tower_lat (deref st (link_tower1 l)))
         (tower_lng (deref st (link_tower1 l)))
         (tower_lat (deref st (link_tower2 l)))
         (tower_lng (deref st (link_tower2 l))).
Proof.
  intros Hr Hl. destruct (reachable_wellFormed st Hr) as [_ [Hlink _]].
  destruct (Hlink l Hl) as (_ & H1 & H2 & Hd). tauto.
Qed.

Lemma link_distance_is_current_witness :
  reachable exampleNetwork
  /\ In (exampleLink 1 1 2 40 (-74) 41 (-74)) (links exampleNetwork)
  /\ link_distance (exampleLink 1 1 2 40 (-74) 41 (-74))
     = calculateDistance 40 (-74) 41 (-74).
Proof.
  pose proof exampleNetwork_reachable as Hr.
  assert (Hin : In (exampleLink 1 1 2 40 (-74) 41 (-74)) (links exampleNetwork))
    by (simpl; tauto).
  destruct (link_distance_is_current exampleNetwork _ Hr Hin) as (_ & _ & Hd).
  split; [exact Hr |]. split; [exact Hin |]. exact Hd.
Defined.

(** * The two copies of the registry *)

Lemma performDeleteLink_action (a : option Resolver) (id : nat) (st : State) :
  performDeleteLink id (set_confirmAction a st)
  = set_confirmAction a (performDeleteLink id st).
Proof.
  unfold performDeleteLink. simpl links.
  destruct (findIndex _ (links st)) as [i |]; [| reflexivity].
  destruct (nth_error (links st) i) as [link |]; [| reflexivity].
  cbv zeta. unfold updateLinkList.
  destruct (link_fresnelZone link); simpl;
    destruct (optNatEq (activeLinkForFresnel st) id); reflexivity.
Qed.

Lemma fold_performDeleteLink_action (a : option Resolver) (ids : list nat)
  (st : State) :
  fold_left (fun st id => performDeleteLink id st) ids (set_confirmAction a st)
  = set_confirmAction a (fold_left (fun st id => performDeleteLink id st) ids st).
Proof.
  revert st. induction ids as [| id ids IH]; intros st; simpl; [reflexivity |].
  now rewrite performDeleteLink_action, IH.
Qed.

Lemma hide_opened_promise (m : option ConfirmModal) (a : option Resolver)
  (st : State) :
  confirmModal st = None -> confirmAction st = None ->
  hideConfirmationModal (set_confirmAction a (set_confirmModal m st)) = st.
Proof.
  intros Hm Ha. rewrite <- (state_eta st) at 2. rewrite Hm, Ha. reflexivity.
Qed.

(** X21.  The older copy of the registry behaves as the current one
    with the modal answered.  Its [deleteLink] and [deleteTower] are
    [performDeleteLink] and [performDeleteTower].  And while no modal
    is open, a frequency edit followed by a click on the confirm
    button of the modal gives exactly the state the older
    [updateTowerFrequency] gives when its dialog is accepted, and an
    edit followed by a click on the cancel button gives exactly the
    state it gives when the dialog is declined: in both copies the
    edited frequency stays after a refusal. *)
Theorem frequency_edit_copies_agree
  (towerId : nat) (newFrequency : R) (st : State) :
  confirmModal st = None -> confirmAction st = None ->
  (forall id s, LegacyRegistry.deleteLink id s = performDeleteLink id s)
  /\ (forall id s, LegacyRegistry.deleteTower id s = performDeleteTower id s)
  /\ handleConfirm (updateTowerFrequency towerId newFrequency st)
     = LegacyRegistry.updateTowerFrequency towerId newFrequency true st
  /\ handleCancel (updateTowerFrequency towerId newFrequency st)
     = LegacyRegistry.updateTowerFrequency towerId newFrequency false st.
Proof.
  intros Hm Ha.
  split; [reflexivity |]. split; [reflexivity |].
  unfold updateTowerFrequency, LegacyRegistry.updateTowerFrequency.
  destruct (find _ (towers st)) as [tower |];
    [| unfold handleConfirm, handleCancel; rewrite Hm; split; reflexivity].
  cbv zeta. unfold updateTowerList.
  set (st0 := setPopupContent tower _ (mutate tower _ st)).
  assert (Hm0 : confirmModal st0 = None) by exact Hm.
  assert (Ha0 : confirmAction st0 = None) by exact Ha.
  clearbody st0.
  set (invalid := filter _ (links st0)).
  destruct (Nat.ltb 0 (List.length invalid)).
  - unfold showConfirmationModal. split.
    + rewrite (handleConfirm_promise
                 (cb_removeInvalidLinks (List.map link_id invalid)));
        [| reflexivity].
      simpl runCallback.
      rewrite fold_performDeleteLink_action, fold_performDeleteLink_modal.
      rewrite <- fold_links_as_ids.
      apply hide_opened_promise.
      * destruct (fold_performDeleteLink_heap (List.map link_id invalid) st0)
          as (_ & _ & H & _).
        rewrite fold_links_as_ids. cbv zeta in H. now rewrite H.
      * destruct (fold_performDeleteLink_heap (List.map link_id invalid) st0)
          as (_ & _ & _ & H & _).
        rewrite fold_links_as_ids. cbv zeta in H. now rewrite H.
    + unfold handleCancel. simpl confirmModal. cbv zeta. simpl modal_returnPromise.
      cbv iota. rewrite resolve_after_hide.
      now apply hide_opened_promise.
  - unfold handleConfirm, handleCancel. rewrite Hm0. split; reflexivity.
Qed.

Lemma frequency_edit_copies_agree_witness :
  confirmModal exampleNetwork = None /\ confirmAction exampleNetwork = None
  /\ handleConfirm (updateTowerFrequency 1 6 exampleNetwork)
     = LegacyRegistry.updateTowerFrequency 1 6 true exampleNetwork
  /\ handleCancel (updateTowerFrequency 1 6 exampleNetwork)
     = LegacyRegistry.updateTowerFrequency 1 6 false exampleNetwork.
Proof.
  destruct (frequency_edit_copies_agree 1 6 exampleNetwork eq_refl eq_refl)
    as (_ & _ & Hc & Hx).
  split; [reflexivity |]. split; [reflexivity |]. split; [exact Hc | exact Hx].
Defined.
